(** * Eternauta: the simulation core of [Scene3D.jsx]

    A shallow embedding of the per-frame update pipeline of the scene
    (ground streaming, building streaming and collision, player kinematics
    and jump physics, input mapping, chase camera, snow, enemies and the
    animation loop that drives them), followed by the properties proved
    about it.

    JavaScript numbers are IEEE-754 binary64 values; they are modelled by
    Rocq's primitive [float], whose operations are the same binary64
    operations, so that every definition below runs on concrete inputs.
    Integer-valued numbers that the source uses as grid coordinates or as
    tick counters are kept in [Z] and [nat]; the places where the source
    converts between the two are written out ([axis_index], [Z2float]). *)

From Stdlib Require Import ZArith Bool List Lia.
From Stdlib Require Import Floats.PrimFloat Floats.SpecFloat Floats.FloatOps.
From stdpp Require Import gmap.

Set Warnings "-inexact-float".
Local Open Scope float_scope.

(* ===================================================================== *)
(** * Part I: the model                                                   *)
(* ===================================================================== *)

(** ** JavaScript numbers *)

Module JS.

(** The integer [Math.floor f], for a finite [f]: a finite double is
    [(-1)^s * m * 2^e], and an arithmetic shift rounds towards minus
    infinity. *)
Definition floorZ (f : float) : option Z :=
  match Prim2SF f with
  | S754_zero _ => Some 0%Z
  | S754_finite s m e => Some (Z.shiftl (cond_Zopp s (Z.pos m)) e)
  | S754_infinity _ | S754_nan => None
  end.

(** The double nearest to an integer (ties to even), as the source gets
    it when an integer loop counter enters an arithmetic expression. *)
Definition Z2float (z : Z) : float :=
  SF2Prim (binary_normalize prec emax z 0 false).

(** [Math.floor]: NaN, the infinities and the zeros are returned as they
    are. *)
Definition Math_floor (f : float) : float :=
  if is_zero f then f
  else match floorZ f with
       | Some z => Z2float z
       | None => f
       end.

Definition Math_sqrt : float -> float := PrimFloat.sqrt.
Definition Math_abs : float -> float := PrimFloat.abs.
Definition Math_PI : float := 3.141592653589793.

(** [a !== b] on numbers. *)
Definition neqb (a b : float) : bool := negb (a =? b).

(** A grid index along one axis. [Math.floor (coord / size)] is NaN for
    a NaN coordinate, and then every comparison of the source with it is
    false; otherwise it is an integer. *)
Inductive axis : Type :=
| NaN
| At (g : Z).

(** The loops of the streamers count with [x++] from [g - 2] to [g + 2]
    and compare against [g] up to distance 3; on doubles this is integer
    arithmetic as long as the values stay within [2^53]. *)
Definition safe_index (g : Z) : bool := (Z.abs g + 3 <=? 2 ^ 53)%Z.

(** [Math.floor (coord / size)]. The result is [None] when the quotient
    is infinite or beyond the safe integers, where the counter [x] of the
    source's loops no longer moves under [x++]: such positions are outside
    the model. *)
Definition axis_index (coord size : float) : option axis :=
  let q := coord / size in
  if is_nan q then Some NaN
  else match floorZ q with
       | Some g => if safe_index g then Some (At g) else None
       | None => None
       end.

(** [for (let x = g - 2; x <= g + 2; x++)]: no iteration when [g] is
    NaN. *)
Definition span (g : axis) : list Z :=
  match g with
  | NaN => []
  | At g => seqZ (g - 2) 5
  end.

(** [Math.abs (k - g) > 3]. *)
Definition beyond3 (g : axis) (k : Z) : bool :=
  match g with
  | NaN => false
  | At g => (3 <? Z.abs (k - g))%Z
  end.

(** The test of the removing loops, negated:
    [!(Math.abs (x - gX) > 3 || Math.abs (z - gZ) > 3)], the entry stays. *)
Definition stays (gx gz : axis) (key : Z * Z) : bool :=
  negb (beyond3 gx key.1 || beyond3 gz key.2).

(** The cells visited by the two nested loops, in the order of the
    source: [x] outside, [z] inside. *)
Definition window (gx gz : axis) : list (Z * Z) :=
  x ← span gx; z ← span gz; [(x, z)].

End JS.
Export JS.

(** ** The part of three.js the scene computes with *)

Module Three.

Record Vector3 : Type := vec3 { vx : float; vy : float; vz : float }.

Definition add (a b : Vector3) : Vector3 :=
  vec3 (vx a + vx b) (vy a + vy b) (vz a + vz b).
Definition sub (a b : Vector3) : Vector3 :=
  vec3 (vx a - vx b) (vy a - vy b) (vz a - vz b).
Definition multiplyScalar (a : Vector3) (s : float) : Vector3 :=
  vec3 (vx a * s) (vy a * s) (vz a * s).
Definition length (a : Vector3) : float :=
  Math_sqrt (vx a * vx a + vy a * vy a + vz a * vz a).
(** [divideScalar (length () || 1)]: a zero or NaN length counts as 1. *)
Definition normalize (a : Vector3) : Vector3 :=
  let l := length a in
  let l := if is_zero l || is_nan l then 1 else l in
  multiplyScalar a (1 / l).
Definition distanceTo (a b : Vector3) : float :=
  let d := sub a b in
  Math_sqrt (vx d * vx d + vy d * vy d + vz d * vz d).
(** [a.lerp (b, alpha)] *)
Definition lerp (a b : Vector3) (alpha : float) : Vector3 :=
  vec3 (vx a + (vx b - vx a) * alpha)
       (vy a + (vy b - vy a) * alpha)
       (vz a + (vz b - vz a) * alpha).
Definition set_y (a : Vector3) (y : float) : Vector3 :=
  vec3 (vx a) y (vz a).

(** An object of the scene graph, as far as the scene computes with it. *)
Record Object3D : Type :=
  { obj_position : Vector3; obj_rotation_y : float }.

Record BoxGeometry : Type :=
  { width : float; height : float; depth : float }.

(** A mesh over a box geometry, as far as the scene computes with it:
    where it stands, its yaw, and the parameters of its geometry. *)
Record BoxMesh : Type :=
  { box_position : Vector3; box_rotation_y : float; geometry : BoxGeometry }.

End Three.
Export Three.

(** ** The host environment

    [Math.sin] and [Math.cos] are left to the JavaScript engine by the
    language standard, [Math.random] is its source of randomness, and the
    ray casts of the camera are answered by three.js: the model takes them
    as an interface. [Math_random n] is the value of the [n]-th call of
    [Math.random ()] in the run; the number of calls made so far is
    threaded through the functions that draw. [intersectObject origin
    direction box] lists the distances at which the ray meets the box,
    nearest first, as [raycaster.intersectObject] does after
    [raycaster.set (origin, direction)]. *)

Class Host : Type := {
  Math_sin : float → float;
  Math_cos : float → float;
  Math_random : nat → float;
  intersectObject : Vector3 → Vector3 → BoxMesh → list float
}.

(** [Vector3.setFromSpherical (new Spherical (radius, phi, theta))] *)
Definition setFromSpherical `{host : Host} (radius phi theta : float) : Vector3 :=
  let sinPhiRadius := Math_sin phi * radius in
  vec3 (sinPhiRadius * Math_sin theta)
       (Math_cos phi * radius)
       (sinPhiRadius * Math_cos theta).

(** ** Exceptions

    The scene raises no exception of its own, but it reads properties of
    [this.model], which is [null] until the character is loaded; such a
    read is a [TypeError]. A method either returns or throws, and in both
    cases leaves a state behind. *)

Inductive outcome (A : Type) : Type :=
| Returns (a : A)
| Throws (a : A).
Arguments Returns {A} a.
Arguments Throws {A} a.

Definition state_of {A} (o : outcome A) : A :=
  match o with Returns a | Throws a => a end.

Definition and_then {A} (o : outcome A) (f : A → outcome A) : outcome A :=
  match o with
  | Returns a => f a
  | Throws a => Throws a
  end.
Notation "o >>> f" := (and_then o f) (at level 61, left associativity).

(** The outcome of a method on a component, seen from the object that
    holds the component. *)
Definition within {A B} (put : B → A) (o : outcome B) : outcome A :=
  match o with
  | Returns b => Returns (put b)
  | Throws b => Throws (put b)
  end.

(** ** InfiniteGround *)

Module InfiniteGround.

(** A ground tile: the mesh made by [createTile], of which the scene
    gets the position and the rotation that lays it flat. *)
Record Tile : Type := { position : Vector3; rotation_x : float }.

Definition tileSize : float := 40.

Definition createTile (x z : Z) : Tile :=
  {| position := vec3 (Z2float x * tileSize) 0 (Z2float z * tileSize);
     rotation_x := - Math_PI / 2 |}.

(** The body of the generating loop: [tiles.set] only when [tiles.has]
    fails. The keys of the source are the strings [`${x},${z}`], which
    [key.split(',').map(Number)] reads back; on safe integers the two
    are inverse to each other, and the key is kept as the pair. *)
Definition ensure (tiles : gmap (Z * Z) Tile) (key : Z * Z)
  : gmap (Z * Z) Tile :=
  match tiles !! key with
  | Some _ => tiles
  | None => <[key := createTile key.1 key.2]> tiles
  end.

Definition update_at (tileX tileZ : axis) (tiles : gmap (Z * Z) Tile)
  : gmap (Z * Z) Tile :=
  let generated := foldl ensure tiles (window tileX tileZ) in
  filter (λ kv, stays tileX tileZ kv.1 = true) generated.

(** [update (playerPosition)]; [None] when a tile index is infinite or
    not a safe integer (see [axis_index]). *)
Definition update (playerPosition : Vector3) (tiles : gmap (Z * Z) Tile)
  : option (gmap (Z * Z) Tile) :=
  tileX ← axis_index (vx playerPosition) tileSize;
  tileZ ← axis_index (vz playerPosition) tileSize;
  Some (update_at tileX tileZ tiles).

End InfiniteGround.


(** ** BuildingSystem *)

Module BuildingSystem.

Record Building : Type :=
  { position : Vector3; rotation_y : float; scale : float }.

(** What [createBuilding] returns and [buildings] stores; [collisionBox]
    is the invisible mesh that stands for the building in collision
    tests. *)
Record BuildingData : Type :=
  { building : Building; collisionBox : BoxMesh; buildingIndex : float }.

(** [buildingModels] enters the computation through its length only: 0
    until [loadBuildingModel] has finished, 2 afterwards. *)
Record t : Type := {
  buildings : gmap (Z * Z) BuildingData;
  buildingModels : nat;
  loadedCells : gset (Z * Z)
}.

Definition gridSize : float := 25.
Definition buildingSpacing : float := 12.
Definition buildingChance : float := 0.8.

(** The state of the constructor. *)
Definition new : t :=
  {| buildings := ∅; buildingModels := 0; loadedCells := ∅ |}.

Definition with_buildings (b : gmap (Z * Z) BuildingData) (s : t) : t :=
  {| buildings := b; buildingModels := buildingModels s;
     loadedCells := loadedCells s |}.
Definition with_loadedCells (c : gset (Z * Z)) (s : t) : t :=
  {| buildings := buildings s; buildingModels := buildingModels s;
     loadedCells := c |}.

Section WithHost.
Context `{host : Host}.

(** [createBuilding (x, z)], with [n] calls of [Math.random] made
    before it: [null] without loaded models, else the building, five
    draws later. With [Math.random () < 1] the index is 0 or 1. *)
Definition createBuilding (s : t) (x z : Z) (n : nat)
  : option BuildingData * nat :=
  if (buildingModels s =? 0)%nat then (None, n)
  else
    let buildingIndex :=
      Math_floor (Math_random n * Z2float (Z.of_nat (buildingModels s))) in
    let rotation :=
      Math_floor (Math_random (n + 1) * 4) * (Math_PI / 2) in
    let baseScale := 25 in
    let scaleVar := 0.9 + Math_random (n + 2) * 0.2 in
    let finalScale := baseScale * scaleVar in
    let offsetX :=
      (Math_random (n + 3) - 0.5) * (gridSize - buildingSpacing) in
    let offsetZ :=
      (Math_random (n + 4) - 0.5) * (gridSize - buildingSpacing) in
    let buildingHeight := if buildingIndex =? 1 then 6.8 else 6.47 in
    let buildingPosition :=
      vec3 (Z2float x * gridSize + offsetX)
           buildingHeight
           (Z2float z * gridSize + offsetZ) in
    let boxSize := finalScale * 0.8 in
    let boxHeight :=
      if buildingIndex =? 1 then boxSize * 1.4 else boxSize * 1.2 in
    (Some {| building := {| position := buildingPosition;
                            rotation_y := rotation;
                            scale := finalScale |};
             collisionBox :=
               {| box_position := buildingPosition;
                  box_rotation_y := rotation;
                  geometry := {| width := boxSize; height := boxHeight;
                                 depth := boxSize |} |};
             buildingIndex := buildingIndex |},
     (n + 5)%nat).

(** The body of the generating loop of [update] at the cell [key]. *)
Definition visit (sn : t * nat) (key : Z * Z) : t * nat :=
  let (s, n) := sn in
  if negb (bool_decide (key ∈ loadedCells s))
     && negb (bool_decide (is_Some (buildings s !! key)))
  then
    let s := with_loadedCells ({[key]} ∪ loadedCells s) s in
    let roll := Math_random n in
    let n := S n in
    if roll <? buildingChance then
      let distanceFromOrigin :=
        Math_sqrt (Z2float key.1 * Z2float key.1
                   + Z2float key.2 * Z2float key.2) in
      if 0.3 <? distanceFromOrigin then
        match createBuilding s key.1 key.2 n with
        | (Some buildingData, n) =>
            (with_buildings (<[key := buildingData]> (buildings s)) s, n)
        | (None, n) => (s, n)
        end
      else (s, n)
    else (s, n)
  else (s, n).

Definition update_at (gridX gridZ : axis) (sn : t * nat) : t * nat :=
  let (s, n) := foldl visit sn (window gridX gridZ) in
  (with_buildings
     (filter (λ kv, stays gridX gridZ kv.1 = true) (buildings s)) s,
   n).

(** [update (playerPosition)]; [None] when a grid index is infinite or
    not a safe integer (see [axis_index]). The keys are kept as pairs of
    integers, as in [InfiniteGround]. *)
Definition update (playerPosition : Vector3) (sn : t * nat)
  : option (t * nat) :=
  gridX ← axis_index (vx playerPosition) gridSize;
  gridZ ← axis_index (vz playerPosition) gridSize;
  Some (update_at gridX gridZ sn).

(** Successive calls of [update], one per position. *)
Fixpoint updates (ps : list Vector3) (sn : t * nat) : option (t * nat) :=
  match ps with
  | [] => Some sn
  | p :: ps => sn ← update p sn; updates ps sn
  end.

End WithHost.

(** The test of [checkCollision] against one building. *)
Definition tooClose (playerPosition : Vector3) (playerRadius : float)
    (d : BuildingData) : bool :=
  let buildingPosition := box_position (collisionBox d) in
  let buildingSize := width (geometry (collisionBox d)) / 2 in
  let dx := vx playerPosition - vx buildingPosition in
  let dz := vz playerPosition - vz buildingPosition in
  let distance := Math_sqrt (dx * dx + dz * dz) in
  let collisionBuffer := if buildingIndex d =? 1 then 0.5 else 0.02 in
  distance <? buildingSize + playerRadius + collisionBuffer.

(** [checkCollision]: the loop returns [true] at the first building that
    is too close, so its result does not depend on the order of the
    entries. *)
Definition checkCollision (s : t) (playerPosition : Vector3)
    (playerRadius : float) : bool :=
  existsb (λ kv, tooClose playerPosition playerRadius kv.2)
          (map_to_list (buildings s)).

End BuildingSystem.

(** ** PlayerCharacter *)

Module PlayerCharacter.

(** The names under which [this.animations] is read. *)
Inductive AnimationName : Type := Idle | Run | Walk | Jump.

#[global] Instance AnimationName_eq_dec : EqDecision AnimationName.
Proof. solve_decision. Defined.

(** [this.animations]: an action is stored under a name when the file
    loaded for it carries an animation clip. *)
Record Animations : Type :=
  { has_idle : bool; has_run : bool; has_walk : bool; has_jump : bool }.

Definition has (a : Animations) (name : AnimationName) : bool :=
  match name with
  | Idle => has_idle a
  | Run => has_run a
  | Walk => has_walk a
  | Jump => has_jump a
  end.

(** The fields of the object that change after the constructor.
    [mixer] holds the clock of the animation mixer, [rotation_y] the
    yaw [this.rotation.y], [currentAction] the name of the action
    [this.currentAction] refers to. *)
Record t : Type := mk {
  model : option Object3D;
  mixer : option float;
  animations : Animations;
  currentAction : option AnimationName;
  position : Vector3;
  rotation_y : float;
  isMoving : bool;
  isJumping : bool;
  pendingMove : float;
  jumpVelocity : Vector3;
  jumpDuration : nat
}.

Definition moveSpeed : float := 0.15.
Definition walkSpeed : float := 0.032.
Definition rotateSpeed : float := 0.015.
Definition fps : float := 30.
Definition radius : float := 1.5.
Definition jumpSpeed : float := 0.19.
Definition jumpForwardSpeed : float := 0.35.
Definition gravity : float := 0.006.
Definition maxJumpDuration : nat := 90.
Definition landingHeight : float := 2.

(** The state of the constructor. *)
Definition new : t :=
  {| model := None; mixer := None;
     animations := {| has_idle := false; has_run := false;
                      has_walk := false; has_jump := false |};
     currentAction := None;
     position := vec3 0 2 0; rotation_y := 0;
     isMoving := false; isJumping := false; pendingMove := 0;
     jumpVelocity := vec3 0 0 0; jumpDuration := 0 |}.

Definition set_model (v : option Object3D) (p : t) : t :=
  mk v (mixer p) (animations p) (currentAction p) (position p)
     (rotation_y p) (isMoving p) (isJumping p) (pendingMove p)
     (jumpVelocity p) (jumpDuration p).
Definition set_mixer (v : option float) (p : t) : t :=
  mk (model p) v (animations p) (currentAction p) (position p)
     (rotation_y p) (isMoving p) (isJumping p) (pendingMove p)
     (jumpVelocity p) (jumpDuration p).
Definition set_animations (v : Animations) (p : t) : t :=
  mk (model p) (mixer p) v (currentAction p) (position p)
     (rotation_y p) (isMoving p) (isJumping p) (pendingMove p)
     (jumpVelocity p) (jumpDuration p).
Definition set_currentAction (v : option AnimationName) (p : t) : t :=
  mk (model p) (mixer p) (animations p) v (position p)
     (rotation_y p) (isMoving p) (isJumping p) (pendingMove p)
     (jumpVelocity p) (jumpDuration p).
Definition set_position (v : Vector3) (p : t) : t :=
  mk (model p) (mixer p) (animations p) (currentAction p) v
     (rotation_y p) (isMoving p) (isJumping p) (pendingMove p)
     (jumpVelocity p) (jumpDuration p).
Definition set_rotation_y (v : float) (p : t) : t :=
  mk (model p) (mixer p) (animations p) (currentAction p) (position p)
     v (isMoving p) (isJumping p) (pendingMove p)
     (jumpVelocity p) (jumpDuration p).
Definition set_isMoving (v : bool) (p : t) : t :=
  mk (model p) (mixer p) (animations p) (currentAction p) (position p)
     (rotation_y p) v (isJumping p) (pendingMove p)
     (jumpVelocity p) (jumpDuration p).
Definition set_isJumping (v : bool) (p : t) : t :=
  mk (model p) (mixer p) (animations p) (currentAction p) (position p)
     (rotation_y p) (isMoving p) v (pendingMove p)
     (jumpVelocity p) (jumpDuration p).
Definition set_pendingMove (v : float) (p : t) : t :=
  mk (model p) (mixer p) (animations p) (currentAction p) (position p)
     (rotation_y p) (isMoving p) (isJumping p) v
     (jumpVelocity p) (jumpDuration p).
Definition set_jumpVelocity (v : Vector3) (p : t) : t :=
  mk (model p) (mixer p) (animations p) (currentAction p) (position p)
     (rotation_y p) (isMoving p) (isJumping p) (pendingMove p)
     v (jumpDuration p).
Definition set_jumpDuration (v : nat) (p : t) : t :=
  mk (model p) (mixer p) (animations p) (currentAction p) (position p)
     (rotation_y p) (isMoving p) (isJumping p) (pendingMove p)
     (jumpVelocity p) v.

(** [load ()], when the four files arrive: the idle model becomes
    [this.model], placed at [this.position]; a mixer is made; an action
    is stored for every file that carries a clip ([clips]); the idle
    action, if there is one, becomes the current one. *)
Definition load (clips : Animations) (p : t) : t :=
  let p := set_model (Some {| obj_position := position p;
                              obj_rotation_y := 0 |}) p in
  let p := set_mixer (Some 0) p in
  let p := set_animations clips p in
  if has_idle clips then set_currentAction (Some Idle) p else p.

(** [this.model.position.copy (this.position)] *)
Definition model_position_copy (p : t) : outcome t :=
  match model p with
  | Some m =>
      Returns (set_model (Some {| obj_position := position p;
                                  obj_rotation_y := obj_rotation_y m |}) p)
  | None => Throws p
  end.

(** [this.model.position.y = y] *)
Definition model_position_set_y (y : float) (p : t) : outcome t :=
  match model p with
  | Some m =>
      Returns (set_model (Some {| obj_position := set_y (obj_position m) y;
                                  obj_rotation_y := obj_rotation_y m |}) p)
  | None => Throws p
  end.

(** [this.buildingSystem?.checkCollision (point, radius)], as a
    condition: without a building system it is [undefined], which counts
    as false. *)
Definition collides (bs : option BuildingSystem.t) (point : Vector3)
    (r : float) : bool :=
  match bs with
  | Some s => BuildingSystem.checkCollision s point r
  | None => false
  end.

Section WithHost.
Context `{host : Host}.
(** The building system the character was constructed with; the
    character reads it and never writes it. *)
Variable buildingSystem : option BuildingSystem.t.

Definition updatePosition (p : t) : outcome t :=
  let speed := if 0 <? pendingMove p then moveSpeed else walkSpeed in
  let moveVector := setFromSpherical speed (Math_PI / 2) (rotation_y p) in
  let newPosition :=
    add (position p) (multiplyScalar moveVector (pendingMove p)) in
  let newPosition := set_y newPosition (vy (position p)) in
  if negb (collides buildingSystem newPosition radius)
  then model_position_copy (set_position newPosition p)
  else Returns p.

(** [setAnimation (animationName)]. The calls on the actions ([reset],
    [setLoop], [play], [crossFadeFrom]) are three.js's and leave the
    fields above as they are. *)
Definition setAnimation (animationName : AnimationName) (p : t)
  : outcome t :=
  if negb (has (animations p) animationName)
     || negb (bool_decide (is_Some (currentAction p)))
  then Returns p
  else if bool_decide (currentAction p = Some animationName)
  then Returns p
  else
    let p := set_isMoving (match animationName with
                           | Run | Walk => true
                           | Idle | Jump => false
                           end) p in
    (if isMoving p && neqb (pendingMove p) 0
     then updatePosition p else Returns p)
    >>> λ p, Returns (set_currentAction (Some animationName) p).

Definition landed_animation (p : t) : AnimationName :=
  if isMoving p then Run else Idle.

(** [update] on a jumping character, in the steps of the source. First
    the counter and the velocity: [this.jumpDuration++] and
    [this.jumpVelocity.y -= this.gravity]. *)
Definition jump_advance (p : t) : t :=
let p := set_jumpDuration (S (jumpDuration p)) p in
set_jumpVelocity (set_y (jumpVelocity p) (vy (jumpVelocity p) - gravity)) p.

(** Then [newPosition]: up by the velocity and forward by a speed that
    decays with the progress of the jump. *)
Definition jump_target (p : t) : Vector3 :=
let newPosition :=
  set_y (position p) (vy (position p) + vy (jumpVelocity p)) in
let jumpProgress :=
  Z2float (Z.of_nat (jumpDuration p))
  / Z2float (Z.of_nat maxJumpDuration) in
let currentForwardSpeed :=
  jumpForwardSpeed * (1 - jumpProgress * 0.7) in
let forwardVector :=
  setFromSpherical currentForwardSpeed (Math_PI / 2) (rotation_y p) in
add newPosition forwardVector.

(** Then the collision test: the new position is taken, or the jump is
    ended on the spot. This is the state of [update] when it reaches the
    comment "Check if landed or hit max duration". *)
Definition jump_step (p : t) : outcome t :=
let p := jump_advance p in
let newPosition := jump_target p in
if negb (collides buildingSystem newPosition radius)
then model_position_copy (set_position newPosition p)
else
  let p := set_jumpVelocity
             (set_y (jumpVelocity p) (- vy (jumpVelocity p) * 0.5)) p in
  let p := set_isJumping false p in
  let p := set_jumpDuration 0 p in
  let p := set_position (set_y (position p) landingHeight) p in
  model_position_set_y landingHeight p
  >>> λ p, setAnimation (landed_animation p) p.

(** The condition under that comment. *)
Definition landing_due (p : t) : bool :=
  (vy (position p) <=? landingHeight)
  || (maxJumpDuration <=? jumpDuration p)%nat.

Definition land (p : t) : outcome t :=
  let p := set_position (set_y (position p) landingHeight) p in
  model_position_set_y landingHeight p
  >>> λ p,
    let p := set_isJumping false p in
    let p := set_jumpDuration 0 p in
    setAnimation (landed_animation p) p.

(** [this.mixer.update (adjustedDeltaTime)], when there is a mixer. *)
Definition advance_mixer (deltaTime : float) (p : t) : t :=
match mixer p with
| Some time =>
    let adjustedDeltaTime := deltaTime * (fps / 60) in
    set_mixer (Some (time + adjustedDeltaTime)) p
| None => p
end.

Definition update (deltaTime : float) (p : t) : outcome t :=
let p := advance_mixer deltaTime p in
if isJumping p then
  jump_step p >>> λ p, if landing_due p then land p else Returns p
else Returns p.

Definition move (direction : float) (p : t) : outcome t :=
  if negb (bool_decide (is_Some (model p))) then Returns p
  else
    let p := set_pendingMove direction p in
    if isMoving p then updatePosition p else Returns p.

Definition rotate (direction : float) (p : t) : outcome t :=
  match model p with
  | None => Returns p
  | Some m =>
      let p := set_rotation_y (rotation_y p + direction * rotateSpeed) p in
      Returns (set_model (Some {| obj_position := obj_position m;
                                  obj_rotation_y := rotation_y p |}) p)
  end.

Definition jump (p : t) : outcome t :=
  if negb (isJumping p) then
    let p := set_isJumping true p in
    let p := set_jumpDuration 0 p in
    setAnimation Jump p
    >>> λ p, Returns (set_jumpVelocity (vec3 0 jumpSpeed 0) p)
  else Returns p.

End WithHost.

End PlayerCharacter.

(** ** InputController *)

Module InputController.

(** [event.code], as far as the two handlers tell codes apart. *)
Inductive KeyCode : Type := KeyW | KeyS | KeyA | KeyD | Space | OtherKey.

Record Keys : Type := {
  forward : bool; backward : bool; left : bool; right : bool; jump : bool
}.

Record t : Type := { keys : Keys; jumpPressed : bool }.

Definition new : t :=
  {| keys := {| forward := false; backward := false; left := false;
                right := false; jump := false |};
     jumpPressed := false |}.

Definition set_jumpPressed (v : bool) (c : t) : t :=
  {| keys := keys c; jumpPressed := v |}.

Definition onKeyDown (code : KeyCode) (c : t) : t :=
  let k := keys c in
  match code with
  | KeyW => {| keys := {| forward := true; backward := backward k;
                          left := left k; right := right k;
                          jump := jump k |};
               jumpPressed := jumpPressed c |}
  | KeyS => {| keys := {| forward := forward k; backward := true;
                          left := left k; right := right k;
                          jump := jump k |};
               jumpPressed := jumpPressed c |}
  | KeyA => {| keys := {| forward := forward k; backward := backward k;
                          left := true; right := right k;
                          jump := jump k |};
               jumpPressed := jumpPressed c |}
  | KeyD => {| keys := {| forward := forward k; backward := backward k;
                          left := left k; right := true;
                          jump := jump k |};
               jumpPressed := jumpPressed c |}
  | Space => {| keys := {| forward := forward k; backward := backward k;
                           left := left k; right := right k;
                           jump := true |};
                jumpPressed := if negb (jumpPressed c) then true
                               else jumpPressed c |}
  | OtherKey => c
  end.

Definition onKeyUp (code : KeyCode) (c : t) : t :=
  let k := keys c in
  match code with
  | KeyW => {| keys := {| forward := false; backward := backward k;
                          left := left k; right := right k;
                          jump := jump k |};
               jumpPressed := jumpPressed c |}
  | KeyS => {| keys := {| forward := forward k; backward := false;
                          left := left k; right := right k;
                          jump := jump k |};
               jumpPressed := jumpPressed c |}
  | KeyA => {| keys := {| forward := forward k; backward := backward k;
                          left := false; right := right k;
                          jump := jump k |};
               jumpPressed := jumpPressed c |}
  | KeyD => {| keys := {| forward := forward k; backward := backward k;
                          left := left k; right := false;
                          jump := jump k |};
               jumpPressed := jumpPressed c |}
  | Space => {| keys := {| forward := forward k; backward := backward k;
                           left := left k; right := right k;
                           jump := false |};
                jumpPressed := false |}
  | OtherKey => c
  end.

(** A method of the player, run from the controller. *)
Definition on_player
    (f : PlayerCharacter.t → outcome PlayerCharacter.t)
    (w : t * PlayerCharacter.t) : outcome (t * PlayerCharacter.t) :=
  within (λ p, (w.1, p)) (f w.2).

(** [if (b) f ()] *)
Definition when {A} (b : bool) (f : A → outcome A) (a : A) : outcome A :=
  if b then f a else Returns a.

Section WithHost.
Context `{host : Host}.
Variable buildingSystem : option BuildingSystem.t.

(** [update (player)], on the controller and the player it is given. *)
Definition update (w : t * PlayerCharacter.t)
  : outcome (t * PlayerCharacter.t) :=
  let k := keys w.1 in
  when (forward k)
       (on_player (PlayerCharacter.move buildingSystem 1)) w
  >>> when (backward k)
           (on_player (PlayerCharacter.move buildingSystem (-1)))
  >>> when (left k) (on_player (PlayerCharacter.rotate 1))
  >>> when (right k) (on_player (PlayerCharacter.rotate (-1)))
  >>> (λ w, when (jump k && jumpPressed w.1
                  && negb (PlayerCharacter.isJumping w.2))
                 (λ w, on_player (PlayerCharacter.jump buildingSystem) w
                       >>> λ w, Returns (set_jumpPressed false w.1, w.2))
                 w)
  >>> (λ w, when (negb (PlayerCharacter.isJumping w.2))
                 (on_player
                    (PlayerCharacter.setAnimation buildingSystem
                       (if forward k then PlayerCharacter.Run
                        else if backward k then PlayerCharacter.Walk
                        else PlayerCharacter.Idle)))
                 w).

End WithHost.

End InputController.

(** ** CameraController *)

Module CameraController.

(** [camera_position] is [this.camera.position]. *)
Record t : Type := { camera_position : Vector3; currentOffset : Vector3 }.

Definition offset : Vector3 := vec3 0 3 8.
Definition smoothFactor : float := 0.1.
Definition baseHeight : float := 2.
Definition maxOffset : Vector3 := vec3 0 5 12.

Definition new (camera_position : Vector3) : t :=
  {| camera_position := camera_position; currentOffset := offset |}.

(** The offsets [findSafeCameraPosition] tries, in its order. *)
Definition positions : list Vector3 :=
  [offset; vec3 0 4 10; vec3 0 5 12; vec3 0 3 6; vec3 0 2 4].

Section WithHost.
Context `{host : Host}.
Variable buildingSystem : option BuildingSystem.t.
(** [this.target]: the model of the player. *)
Variable target : Object3D.

Definition checkCameraCollision (desiredPosition : Vector3) : bool :=
  match buildingSystem with
  | None => false
  | Some bs =>
      let direction :=
        normalize (sub desiredPosition (obj_position target)) in
      let distance := distanceTo desiredPosition (obj_position target) in
      existsb
        (λ kv,
           match intersectObject (obj_position target) direction
                   (BuildingSystem.collisionBox kv.2) with
           | nearest :: _ => nearest <? distance
           | [] => false
           end)
        (map_to_list (BuildingSystem.buildings bs))
  end.

Definition findSafeCameraPosition : Vector3 :=
  let targetPosition := set_y (obj_position target) baseHeight in
  match List.find
          (λ offset, negb (checkCameraCollision (add targetPosition offset)))
          positions with
  | Some offset => offset
  | None => maxOffset
  end.

(** [update ()] with a target; the orientation set by [lookAt] is not
    kept. *)
Definition update (c : t) : t :=
  let targetPosition := set_y (obj_position target) baseHeight in
  let safeOffset := findSafeCameraPosition in
  let currentOffset := lerp (currentOffset c) safeOffset smoothFactor in
  let desiredPosition := add targetPosition currentOffset in
  {| camera_position := lerp (camera_position c) desiredPosition smoothFactor;
     currentOffset := currentOffset |}.

End WithHost.

End CameraController.

(** ** The animation loop *)

Module Scene3D.

(** The first block of [animate]: input and player are updated only once
    the player has a model. *)
Definition animate `{host : Host} (buildingSystem : option BuildingSystem.t)
    (deltaTime : float) (w : InputController.t * PlayerCharacter.t)
  : outcome (InputController.t * PlayerCharacter.t) :=
  if bool_decide (is_Some (PlayerCharacter.model w.2)) then
    InputController.update buildingSystem w
    >>> InputController.on_player
          (PlayerCharacter.update buildingSystem deltaTime)
  else Returns w.

(** Successive frames, one per time step. An exception ends the frame
    in which it is raised, not the loop: the next frame was requested
    before, and starts from the state the exception left. *)
Definition frames `{host : Host} (buildingSystem : option BuildingSystem.t)
    (deltaTimes : list float) (w : InputController.t * PlayerCharacter.t)
  : InputController.t * PlayerCharacter.t :=
  foldl (λ w deltaTime, state_of (animate buildingSystem deltaTime w))
        w deltaTimes.

End Scene3D.

(** ** Vocabulary of the specification

    The collision rule in the words of the specification, to be compared
    with [BuildingSystem.checkCollision]. *)

Module Spec.
Import BuildingSystem.

(** Euclidean distance in the (x, z) plane. *)
Definition planar_distance (p c : Vector3) : float :=
  Math_sqrt ((vx p - vx c) * (vx p - vx c) + (vz p - vz c) * (vz p - vz c)).

Definition center (d : BuildingData) : Vector3 :=
  box_position (collisionBox d).
Definition halfWidth (d : BuildingData) : float :=
  width (geometry (collisionBox d)) / 2.
(** 0.5 for variant 1, 0.02 for variant 0. *)
Definition variant_buffer (variant : float) : float :=
  if variant =? 1 then 0.5 else 0.02.
Definition threshold (d : BuildingData) (radius : float) : float :=
  halfWidth d + radius + variant_buffer (buildingIndex d).

(** The same building, turned to the yaw [theta]. *)
Definition turned (theta : float) (d : BuildingData) : BuildingData :=
  {| building := {| position := position (building d);
                    rotation_y := theta;
                    scale := scale (building d) |};
     collisionBox := {| box_position := box_position (collisionBox d);
                        box_rotation_y := theta;
                        geometry := geometry (collisionBox d) |};
     buildingIndex := buildingIndex d |}.

(** A building of variant [variant] with a collision box of width [w]
    centred at [c]. *)
Definition block (c : Vector3) (w : float) (variant : float) : BuildingData :=
  {| building := {| position := c; rotation_y := 0; scale := w / 0.8 |};
     collisionBox := {| box_position := c; box_rotation_y := 0;
                        geometry := {| width := w; height := w * 1.2;
                                       depth := w |} |};
     buildingIndex := variant |}.

(** A cell the generating loop of [update] passes over: it is in
    [loadedCells] or it holds a building. *)
Definition known (s : t) (key : Z * Z) : Prop :=
  key ∈ loadedCells s ∨ is_Some (buildings s !! key).

(** A position at which [update] has grid indices to work with. *)
Definition streamable (p : Vector3) : Prop :=
  is_Some (axis_index (vx p) gridSize) ∧ is_Some (axis_index (vz p) gridSize).

(** The fields a jump is made of, and the height, agree in two states of
    the player. *)
Definition same_jump (p q : PlayerCharacter.t) : Prop :=
  PlayerCharacter.isJumping q = PlayerCharacter.isJumping p
  ∧ PlayerCharacter.jumpDuration q = PlayerCharacter.jumpDuration p
  ∧ PlayerCharacter.jumpVelocity q = PlayerCharacter.jumpVelocity p
  ∧ vy (PlayerCharacter.position q) = vy (PlayerCharacter.position p).

(** The model is loaded and stands at the height of the player. *)
Definition model_at_height (p : PlayerCharacter.t) : Prop :=
  ∃ m, PlayerCharacter.model p = Some m
       ∧ vy (obj_position m) = vy (PlayerCharacter.position p).

(** The model is loaded and the jump counter is below its maximum. *)
Definition within_jump (p : PlayerCharacter.t) : Prop :=
  is_Some (PlayerCharacter.model p)
  ∧ (PlayerCharacter.jumpDuration p < PlayerCharacter.maxJumpDuration)%nat.

(** The input controller with the forward key held down. *)
Definition forward_held : InputController.t :=
  InputController.onKeyDown InputController.KeyW InputController.new.

(** The fully loaded character running straight ahead at yaw 0, at the
    place [(0, 2, z)], with the mixer clock at [time]. *)
Definition running (z time : float) : PlayerCharacter.t :=
  {| PlayerCharacter.model :=
       Some {| obj_position := vec3 0 2 z; obj_rotation_y := 0 |};
     PlayerCharacter.mixer := Some time;
     PlayerCharacter.animations :=
       {| PlayerCharacter.has_idle := true; PlayerCharacter.has_run := true;
          PlayerCharacter.has_walk := true; PlayerCharacter.has_jump := true |};
     PlayerCharacter.currentAction := Some PlayerCharacter.Run;
     PlayerCharacter.position := vec3 0 2 z;
     PlayerCharacter.rotation_y := 0;
     PlayerCharacter.isMoving := true;
     PlayerCharacter.isJumping := false;
     PlayerCharacter.pendingMove := 1;
     PlayerCharacter.jumpVelocity := vec3 0 0 0;
     PlayerCharacter.jumpDuration := 0 |}.

(** A host whose sine and cosine are exact at 0 and at pi/2, as the
    engines are. *)
Definition exact_at_right_angles (host : Host) : Prop :=
  Math_sin 0 = 0 ∧ Math_cos 0 = 1 ∧ Math_sin (Math_PI / 2) = 1.

(** A method that returns, in a state where [P] holds again. *)
Definition keeps {A} (P : A → Prop) (f : A → outcome A) : Prop :=
  ∀ a, P a → ∃ b, f a = Returns b ∧ P b.

End Spec.

(** ** A reference host

    An instance of [Host] to run the model on: sine and cosine by
    reduction to the nearest multiple of pi/2 (in two parts, as C
    libraries do) and a polynomial on the remainder; a fixed cyclic
    sequence of draws in the range of [Math.random]; a ray cast against
    the box taken axis-aligned, which the square collision boxes of the
    scene are, being turned by multiples of a right angle. *)

Module Reference.

Definition pio2_hi : float := 1.5707963267948966.
Definition pio2_lo : float := 6.123233995736766e-17.

Definition poly_sin (r : float) : float :=
  let q := r * r in
  r * (1 - q / 6 * (1 - q / 20 * (1 - q / 42 * (1 - q / 72
       * (1 - q / 110 * (1 - q / 156 * (1 - q / 210))))))).

Definition poly_cos (r : float) : float :=
  let q := r * r in
  1 - q / 2 * (1 - q / 12 * (1 - q / 30 * (1 - q / 56
      * (1 - q / 90 * (1 - q / 132 * (1 - q / 182)))))).

(** The multiple of pi/2 nearest to [x], and what is left of [x]. *)
Definition reduce (x : float) : option (Z * float) :=
  match floorZ (x / pio2_hi + 0.5) with
  | Some k => Some (k, x - Z2float k * pio2_hi - Z2float k * pio2_lo)
  | None => None
  end.

Definition sin (x : float) : float :=
  match reduce x with
  | Some (k, r) =>
      match (k mod 4)%Z with
      | 0%Z => poly_sin r
      | 1%Z => poly_cos r
      | 2%Z => - poly_sin r
      | _ => - poly_cos r
      end
  | None => nan
  end.

Definition cos (x : float) : float :=
  match reduce x with
  | Some (k, r) =>
      match (k mod 4)%Z with
      | 0%Z => poly_cos r
      | 1%Z => - poly_sin r
      | 2%Z => - poly_cos r
      | _ => poly_sin r
      end
  | None => nan
  end.

Definition draws : list float :=
  [0.42; 0.91; 0.13; 0.77; 0.05; 0.64; 0.29; 0.86; 0.51; 0.37; 0.98].

Definition random (n : nat) : float :=
  nth (n mod List.length draws) draws 0.5.

Definition fmin (a b : float) : float := if a <? b then a else b.
Definition fmax (a b : float) : float := if a <? b then b else a.

(** One axis of the slab test: the part of the ray between [lo] and
    [hi], cut out of the interval [(tmin, tmax)]. *)
Definition slab (o d lo hi : float) (range : option (float * float))
  : option (float * float) :=
  match range with
  | None => None
  | Some (tmin, tmax) =>
      if is_zero d then
        if (lo <=? o) && (o <=? hi) then Some (tmin, tmax) else None
      else
        let t1 := (lo - o) / d in
        let t2 := (hi - o) / d in
        Some (fmax tmin (fmin t1 t2), fmin tmax (fmax t1 t2))
  end.

Definition raycast (origin direction : Vector3) (box : BoxMesh)
  : list float :=
  let c := box_position box in
  let g := geometry box in
  let range :=
    slab (vz origin) (vz direction)
         (vz c - depth g / 2) (vz c + depth g / 2)
      (slab (vy origin) (vy direction)
            (vy c - height g / 2) (vy c + height g / 2)
         (slab (vx origin) (vx direction)
               (vx c - width g / 2) (vx c + width g / 2)
            (Some (neg_infinity, infinity)))) in
  match range with
  | Some (tmin, tmax) =>
      if (tmin <=? tmax) && (0 <=? tmax)
      then if 0 <=? tmin then [tmin; tmax] else [tmax]
      else []
  | None => []
  end.

Definition host : Host :=
  {| Math_sin := sin; Math_cos := cos; Math_random := random;
     intersectObject := raycast |}.

(** A character whose four files all carry a clip, after [load ()]. *)
Definition loaded_player : PlayerCharacter.t :=
  PlayerCharacter.load
    {| PlayerCharacter.has_idle := true; PlayerCharacter.has_run := true;
       PlayerCharacter.has_walk := true; PlayerCharacter.has_jump := true |}
    PlayerCharacter.new.

(** That character in the air at height [y] with vertical velocity [v],
    [n] ticks into a jump. *)
Definition descending (y v : float) (n : nat) : PlayerCharacter.t :=
  {| PlayerCharacter.model :=
       Some {| obj_position := vec3 0 y 16; obj_rotation_y := 0 |};
     PlayerCharacter.mixer := Some 0.5;
     PlayerCharacter.animations :=
       {| PlayerCharacter.has_idle := true; PlayerCharacter.has_run := true;
          PlayerCharacter.has_walk := true; PlayerCharacter.has_jump := true |};
     PlayerCharacter.currentAction := Some PlayerCharacter.Jump;
     PlayerCharacter.position := vec3 0 y 16;
     PlayerCharacter.rotation_y := 0;
     PlayerCharacter.isMoving := false;
     PlayerCharacter.isJumping := true;
     PlayerCharacter.pendingMove := 0;
     PlayerCharacter.jumpVelocity := vec3 0 v 0;
     PlayerCharacter.jumpDuration := n |}.

(** The loaded character after [jump ()] and [n] calls of [update], with
    no building around. *)
Definition after_jump (n : nat) : PlayerCharacter.t :=
  Nat.iter n
    (λ p, state_of (PlayerCharacter.update (host := host)
                      (Some BuildingSystem.new) 0.016 p))
    (state_of (PlayerCharacter.jump (host := host)
                 (Some BuildingSystem.new) loaded_player)).

(** A building system whose models are loaded. *)
Definition loaded_buildings : BuildingSystem.t :=
  {| BuildingSystem.buildings := ∅; BuildingSystem.buildingModels := 2;
     BuildingSystem.loadedCells := ∅ |}.

End Reference.

(** ** A session: key events between frames *)

Module Session.

(** What happens to the input controller and the player, one event at a
    time: a key goes down or up, or [animate] runs a frame. The player
    reads the building system it was constructed with, which
    [BuildingSystem.update] changes between frames; the frame carries the
    building system as the player finds it. *)
Inductive Event : Type :=
| KeyDown (code : InputController.KeyCode)
| KeyUp (code : InputController.KeyCode)
| Frame (buildingSystem : option BuildingSystem.t) (deltaTime : float).

Definition handle `{host : Host} (e : Event)
    (w : InputController.t * PlayerCharacter.t)
  : InputController.t * PlayerCharacter.t :=
  match e with
  | KeyDown code => (InputController.onKeyDown code w.1, w.2)
  | KeyUp code => (InputController.onKeyUp code w.1, w.2)
  | Frame buildingSystem deltaTime =>
      state_of (Scene3D.animate buildingSystem deltaTime w)
  end.

(** The events of a session in their order. An exception in a frame ends
    that frame only (see [Scene3D.frames]). *)
Definition run `{host : Host} (events : list Event)
    (w : InputController.t * PlayerCharacter.t)
  : InputController.t * PlayerCharacter.t :=
  foldl (λ w e, handle e w) w events.

(** Every frame of the session finds the same building system. *)
Definition frames_see (bs : option BuildingSystem.t) (e : Event) : Prop :=
  match e with
  | Frame buildingSystem _ => buildingSystem = bs
  | KeyDown _ | KeyUp _ => True
  end.

End Session.

(** ** Invariants of the player *)

Module Invariant.
Import PlayerCharacter.

(** The model stands where the player is and is turned as the player. *)
Definition mirrored (p : t) : Prop :=
  model p = Some {| obj_position := position p;
                    obj_rotation_y := rotation_y p |}.

(** On the ground the player is at [landingHeight] with the jump counter
    at 0. *)
Definition at_rest (p : t) : Prop :=
  isJumping p = false →
  vy (position p) = landingHeight ∧ jumpDuration p = 0%nat.

(** The run and the walk are the animations of a moving player. *)
Definition is_gait (a : option AnimationName) : bool :=
  match a with
  | Some Run | Some Walk => true
  | Some Idle | Some Jump | None => false
  end.

Definition gait_matches (p : t) : Prop :=
  isMoving p = is_gait (currentAction p).

(** The player does not overlap a building of [bs]. *)
Definition clear (bs : option BuildingSystem.t) (p : t) : Prop :=
  collides bs (position p) radius = false.

(** What holds of the loaded player between frames; with [strict], also
    that it is clear of the buildings of [bs]. *)
Definition steady (strict : bool) (bs : option BuildingSystem.t) (p : t)
  : Prop :=
  mirrored p ∧ at_rest p ∧ gait_matches p
  ∧ (jumpDuration p < maxJumpDuration)%nat
  ∧ (strict = true → clear bs p).

(** [q] is [p] after steering: moved or turned, still mirrored, with the
    jump, the height and the animation of [p]. *)
Definition steered (p q : t) : Prop :=
  mirrored q ∧ Spec.same_jump p q
  ∧ currentAction q = currentAction p ∧ isMoving q = isMoving p
  ∧ animations q = animations p.

(** The jump that [InputController.update] starts: the key is down, the
    latch is set and the player is on the ground. *)
Definition fires (c : InputController.t) (p : t) : bool :=
  InputController.jump (InputController.keys c)
  && InputController.jumpPressed c && negb (isJumping p).

(** The animation the held keys ask for on the ground. *)
Definition asked (c : InputController.t) : AnimationName :=
  if InputController.forward (InputController.keys c) then Run
  else if InputController.backward (InputController.keys c) then Walk
  else Idle.

End Invariant.

(** ** Streaming: runs of updates, and the loading of the building models *)

Module Streaming.

(** Successive calls of [InfiniteGround.update], one per position. *)
Fixpoint ground_updates (ps : list Vector3)
    (tiles : gmap (Z * Z) InfiniteGround.Tile)
  : option (gmap (Z * Z) InfiniteGround.Tile) :=
  match ps with
  | [] => Some tiles
  | p :: ps => tiles ← InfiniteGround.update p tiles; ground_updates ps tiles
  end.

(** A position with tile indices for [InfiniteGround.update]. *)
Definition tileable (p : Vector3) : Prop :=
  is_Some (axis_index (vx p) InfiniteGround.tileSize)
  ∧ is_Some (axis_index (vz p) InfiniteGround.tileSize).

(** [loadBuildingModel ()]: when both files arrive, [buildingModels] holds
    the two models; when loading fails, the error is logged and nothing
    changes. *)
Definition loadBuildingModel (arrived : bool) (s : BuildingSystem.t)
  : BuildingSystem.t :=
  if arrived
  then {| BuildingSystem.buildings := BuildingSystem.buildings s;
          BuildingSystem.buildingModels := 2;
          BuildingSystem.loadedCells := BuildingSystem.loadedCells s |}
  else s.

(** The cells [(x, z)] with [a <= x < a + n] and [b <= z < b + n]. *)
Definition grid (a b n : Z) : list (Z * Z) :=
  x ← seqZ a n; z ← seqZ b n; [(x, z)].

(** Every active building is in a processed cell. *)
Definition active_processed (s : BuildingSystem.t) : Prop :=
  ∀ key, is_Some (BuildingSystem.buildings s !! key) →
         key ∈ BuildingSystem.loadedCells s.

End Streaming.

(** ** The player whose idle file carries no clip *)

Module Standing.
Import PlayerCharacter.

(** No action is current and the player is not marked as moving. *)
Definition standing (p : t) : Prop :=
  Invariant.mirrored p ∧ currentAction p = None ∧ isMoving p = false.

End Standing.

(** ** The rest of the host

    [Date_now n] is the value of the [n]-th call of [Date.now ()] in the
    run, counted like the calls of [Math.random]; [Math_atan2] is the
    engine's. *)

Class Clock : Type := { Date_now : nat → float }.

Class Atan2 : Type := { Math_atan2 : float → float → float }.

(** ** SnowSystem *)

Module SnowSystem.

(** The value an element of a [Float32Array] holds after [f] is stored in
    it: [f] rounded to binary32 (24 bits of precision, ties to even,
    overflow to infinity) and read back as a double. *)
Definition fround (f : float) : float :=
  match Prim2SF f with
  | S754_finite s m e =>
      SF2Prim (binary_normalize 24 128 (cond_Zopp s (Z.pos m)) e s)
  | _ => f
  end.

(** [particles] is [null] until [init] has run. The position array is kept
    as the list of its triples: the particle at index [k] of the list
    occupies the elements [3k], [3k + 1] and [3k + 2]. *)
Record t : Type := { particles : option (list Vector3) }.

Definition particleCount : nat := 3000.

Section WithHost.
Context `{host : Host} `{clock : Clock}.

(** [init ()], with [n] calls of [Math.random] made before it. *)
Definition init (n : nat) : t * nat :=
  ({| particles :=
        Some (map (λ k,
                vec3 (fround ((Math_random (n + 3 * k) - 0.5) * 150))
                     (fround (Math_random (n + 3 * k + 1) * 50))
                     (fround ((Math_random (n + 3 * k + 2) - 0.5) * 150)))
                (seq 0 particleCount)) |},
   (n + 3 * particleCount)%nat).

(** The body of the loop of [update] at the index [i] of the array, on the
    triple found there; [reads] counts the calls of [Math.random] and of
    [Date.now] made so far. *)
Definition fall (playerPosition : Vector3) (i : float) (q : Vector3)
    (reads : nat * nat) : Vector3 * (nat * nat) :=
  let (n, m) := reads in
  let y := fround (vy q - 0.02) in
  let '(q, n) :=
    if y <? 0 then
      (vec3 (fround (vx playerPosition + (Math_random n - 0.5) * 150))
            (fround 50)
            (fround (vz playerPosition + (Math_random (n + 1) - 0.5) * 150)),
       (n + 2)%nat)
    else (vec3 (vx q) y (vz q), n) in
  let x := fround (vx q + Math_sin (Date_now m * 0.0005 + i) * 0.008) in
  let z :=
    fround (vz q + Math_cos (Date_now (m + 1) * 0.0005 + i) * 0.008) in
  (vec3 x (vy q) z, (n, (m + 2)%nat)).

(** The loop of [update], from the index [i] on. *)
Fixpoint fall_from (playerPosition : Vector3) (i : Z) (qs : list Vector3)
    (reads : nat * nat) : list Vector3 * (nat * nat) :=
  match qs with
  | [] => ([], reads)
  | q :: qs =>
      let (q, reads) := fall playerPosition (Z2float i) q reads in
      let (qs, reads) := fall_from playerPosition (i + 3) qs reads in
      (q :: qs, reads)
  end.

Definition update (playerPosition : Vector3) (s : t) (reads : nat * nat)
  : t * (nat * nat) :=
  match particles s with
  | None => (s, reads)
  | Some qs =>
      let (qs, reads) := fall_from playerPosition 0 qs reads in
      ({| particles := Some qs |}, reads)
  end.

End WithHost.

End SnowSystem.

(** ** EnemySystem *)

Module EnemySystem.

(** An entry of [this.enemies]: [model] is the clone in the scene,
    [mixer] the clock of its animation mixer, [rotation_y] the yaw of the
    Euler angles kept in [rotation]. *)
Record Enemy : Type := mkEnemy {
  model : Object3D;
  mixer : float;
  spawnPosition : Vector3;
  targetPosition : option Vector3;
  moveSpeed : float;
  wanderTimer : float;
  wanderInterval : float;
  rotation_y : float
}.

(** [enemies] in the order of insertion, which is the order in which the
    map is traversed; every key is a fresh clone, so an insertion adds an
    entry. [enemyModel] tells whether the model has been stored, [walk]
    whether [animations.walk] has been. *)
Record t : Type := {
  enemies : list Enemy;
  enemyModel : bool;
  walk : bool
}.

Definition spawnRadius : float := 50.
Definition maxEnemies : nat := 5.
Definition minSpawnDistance : float := 20.
Definition wanderRadius : float := 10.

(** The state of the constructor. *)
Definition new : t := {| enemies := []; enemyModel := false; walk := false |}.

Definition with_enemies (l : list Enemy) (s : t) : t :=
  {| enemies := l; enemyModel := enemyModel s; walk := walk s |}.

(** [loadEnemyModel ()] once the loader has answered: with a file
    ([Some clips], [clips] telling whether it carries an animation) the
    model is stored, and the walk clip if there is one; a failed load
    ([None]) is logged and changes nothing. *)
Definition loadEnemyModel (file : option bool) (s : t) : t :=
  match file with
  | Some clips =>
      {| enemies := enemies s; enemyModel := true;
         walk := if clips then true else walk s |}
  | None => s
  end.

Definition set_model_position (v : Vector3) (e : Enemy) : Enemy :=
  mkEnemy {| obj_position := v; obj_rotation_y := obj_rotation_y (model e) |}
          (mixer e) (spawnPosition e) (targetPosition e) (moveSpeed e)
          (wanderTimer e) (wanderInterval e) (rotation_y e).
Definition set_targetPosition (v : option Vector3) (e : Enemy) : Enemy :=
  mkEnemy (model e) (mixer e) (spawnPosition e) v (moveSpeed e)
          (wanderTimer e) (wanderInterval e) (rotation_y e).
Definition set_wanderTimer (v : float) (e : Enemy) : Enemy :=
  mkEnemy (model e) (mixer e) (spawnPosition e) (targetPosition e)
          (moveSpeed e) v (wanderInterval e) (rotation_y e).
Definition set_mixer (v : float) (e : Enemy) : Enemy :=
  mkEnemy (model e) v (spawnPosition e) (targetPosition e) (moveSpeed e)
          (wanderTimer e) (wanderInterval e) (rotation_y e).

(** How a call of [update] ends: it returns, it throws, or its first loop
    is still running when the steps granted to it are used up. *)
Inductive run (A : Type) : Type :=
| Done (a : A)
| Thrown (a : A)
| Spinning.
Arguments Done {A} a.
Arguments Thrown {A} a.
Arguments Spinning {A}.

Section WithHost.
Context `{host : Host} `{atan2 : Atan2}.

(** [createEnemy (spawnPosition)], with [n] calls of [Math.random] made
    before it: [null] without a model; with a model, [mixer.clipAction]
    reads the [uuid] of the clip it is given, a [TypeError] when
    [animations.walk] is [undefined]; else the enemy, two draws later. *)
Definition createEnemy (s : t) (spawnPosition : Vector3) (n : nat)
  : outcome (option Enemy * nat) :=
  if negb (enemyModel s) then Returns (None, n)
  else if negb (walk s) then Throws (None, n)
  else
    Returns
      (Some {| model := {| obj_position := spawnPosition;
                           obj_rotation_y := 0 |};
               mixer := 0;
               spawnPosition := spawnPosition;
               targetPosition := None;
               moveSpeed := 0.05;
               wanderTimer := 0;
               wanderInterval := 3 + Math_random n * 2;
               rotation_y := Math_random (n + 1) * Math_PI * 2 |},
       (n + 2)%nat).

Definition findRandomSpawnPosition (n : nat) : Vector3 * nat :=
  let angle := Math_random n * Math_PI * 2 in
  let distance :=
    minSpawnDistance
    + Math_random (n + 1) * (spawnRadius - minSpawnDistance) in
  (vec3 (Math_cos angle * distance) 2 (Math_sin angle * distance),
   (n + 2)%nat).

(** [updateEnemyBehavior (enemy, deltaTime)]. The fields are read into
    constants before anything is written: both conditions and the step
    work on the timer and on the target the enemy had when the call
    began. *)
Definition updateEnemyBehavior (deltaTime : float) (en : Enemy * nat)
  : Enemy * nat :=
  let (enemy, n) := en in
  let spawn := spawnPosition enemy in
  let target := targetPosition enemy in
  let timer := wanderTimer enemy in
  let interval := wanderInterval enemy in
  let speed := moveSpeed enemy in
  let enemy := set_wanderTimer (wanderTimer enemy + deltaTime) enemy in
  let '(enemy, n) :=
    if (interval <=? timer) || negb (bool_decide (is_Some target)) then
      let angle := Math_random n * Math_PI * 2 in
      let distance := Math_random (n + 1) * wanderRadius in
      let chosen :=
        vec3 (vx spawn + Math_cos angle * distance)
             2
             (vz spawn + Math_sin angle * distance) in
      let direction :=
        normalize (sub chosen (obj_position (model enemy))) in
      let yaw := Math_atan2 (vx direction) (vz direction) in
      (mkEnemy {| obj_position := obj_position (model enemy);
                  obj_rotation_y := yaw |}
               (mixer enemy) (spawnPosition enemy) (Some chosen)
               (moveSpeed enemy) 0 (3 + Math_random (n + 2) * 2) yaw,
       (n + 3)%nat)
    else (enemy, n) in
  let enemy :=
    match target with
    | Some target =>
        let direction :=
          normalize (sub target (obj_position (model enemy))) in
        let newPosition :=
          add (obj_position (model enemy))
              (multiplyScalar direction speed) in
        let distanceFromSpawn := distanceTo newPosition spawn in
        if distanceFromSpawn <=? wanderRadius
        then set_model_position newPosition enemy
        else set_targetPosition None enemy
    | None => enemy
    end in
  (set_mixer (mixer enemy + deltaTime * (30 / 60)) enemy, n).

(** The first loop of [update], which runs while there are fewer than
    [maxEnemies] enemies; [fuel] bounds the number of its iterations. *)
Fixpoint maintain (fuel : nat) (sn : t * nat) : run (t * nat) :=
  let (s, n) := sn in
  if (List.length (enemies s) <? maxEnemies)%nat then
    match fuel with
    | O => Spinning
    | S fuel =>
        let (spawnPosition, n) := findRandomSpawnPosition n in
        match createEnemy s spawnPosition n with
        | Returns (Some enemyData, n) =>
            maintain fuel (with_enemies (enemies s ++ [enemyData]) s, n)
        | Returns (None, n) => maintain fuel (s, n)
        | Throws (_, n) => Thrown (s, n)
        end
    end
  else Done (s, n).

(** The second loop of [update]: every enemy in turn. *)
Fixpoint behave (deltaTime : float) (l : list Enemy) (n : nat)
  : list Enemy * nat :=
  match l with
  | [] => ([], n)
  | enemy :: l =>
      let (enemy, n) := updateEnemyBehavior deltaTime (enemy, n) in
      let (l, n) := behave deltaTime l n in
      (enemy :: l, n)
  end.

Definition update (fuel : nat) (deltaTime : float) (sn : t * nat)
  : run (t * nat) :=
  match maintain fuel sn with
  | Done (s, n) =>
      let (l, n) := behave deltaTime (enemies s) n in
      Done (with_enemies l s, n)
  | Thrown sn => Thrown sn
  | Spinning => Spinning
  end.

End WithHost.

(** An enemy as [createEnemy] leaves it. *)
Definition fresh (e : Enemy) : Prop :=
  obj_position (model e) = spawnPosition e ∧ targetPosition e = None.

(** The enemy is where it was spawned, or within [wanderRadius] of that
    place. *)
Definition tethered (e : Enemy) : Prop :=
  obj_position (model e) = spawnPosition e
  ∨ (distanceTo (obj_position (model e)) (spawnPosition e) <=? wanderRadius)
    = true.

End EnemySystem.

(** A clock and an arc tangent to run the model on: the clock ticks 16 ms
    per reading; the arc tangent is a quadratic approximation. *)
Module Reference2.

Definition clock : Clock :=
  {| Date_now := λ n, Z2float (1700000000000 + 16 * Z.of_nat n) |}.

Definition atan_unit (t : float) : float :=
  Math_PI / 4 * t + 0.273 * t * (1 - abs t).

Definition atan2_approx (y x : float) : float :=
  if is_zero x && is_zero y then 0
  else if abs y <=? abs x then
    let a := atan_unit (y / x) in
    if 0 <? x then a else if 0 <=? y then a + Math_PI else a - Math_PI
  else
    let a := atan_unit (x / y) in
    if 0 <? y then Math_PI / 2 - a else - (Math_PI / 2) - a.

Definition atan2 : Atan2 := {| Math_atan2 := atan2_approx |}.

End Reference2.

(** ** The scene and its animation loop *)

Module World.

(** The objects the effect of [Scene3D] sets up and [animate] works on.
    The player and the camera hold the building system of the scene, and
    the camera holds the model of the player as its target: these are
    read from the scene where the source follows the reference.
    [random_calls] and [clock_calls] count the calls of [Math.random] and
    [Date.now] made so far. *)
Record t : Type := mk {
  inputController : InputController.t;
  player : PlayerCharacter.t;
  groundSystem : gmap (Z * Z) InfiniteGround.Tile;
  snowSystem : SnowSystem.t;
  buildingSystem : BuildingSystem.t;
  enemySystem : EnemySystem.t;
  cameraController : option CameraController.t;
  random_calls : nat;
  clock_calls : nat
}.

Definition with_player (cp : InputController.t * PlayerCharacter.t) (w : t)
  : t :=
  mk cp.1 cp.2 (groundSystem w) (snowSystem w) (buildingSystem w)
     (enemySystem w) (cameraController w) (random_calls w) (clock_calls w).
Definition with_enemySystem (sn : EnemySystem.t * nat) (w : t) : t :=
  mk (inputController w) (player w) (groundSystem w) (snowSystem w)
     (buildingSystem w) sn.1 (cameraController w) sn.2 (clock_calls w).
Definition with_cameraController (c : option CameraController.t) (w : t)
  : t :=
  mk (inputController w) (player w) (groundSystem w) (snowSystem w)
     (buildingSystem w) (enemySystem w) c (random_calls w) (clock_calls w).

Section WithHost.
Context `{host : Host} `{clock : Clock} `{atan2 : Atan2}.

(** The scene when the effect has run: the snow is laid out, nothing is
    loaded yet, and there is no camera controller. *)
Definition new : t :=
  let (snow, n) := SnowSystem.init 0 in
  {| inputController := InputController.new;
     player := PlayerCharacter.new;
     groundSystem := ∅;
     snowSystem := snow;
     buildingSystem := BuildingSystem.new;
     enemySystem := EnemySystem.new;
     cameraController := None;
     random_calls := n;
     clock_calls := 0 |}.

(** [player.load ()] fulfilled, and the camera controller made in its
    [then]; the camera stands at (0, 3, 8). *)
Definition player_loaded (clips : PlayerCharacter.Animations) (w : t) : t :=
  with_cameraController (Some (CameraController.new (vec3 0 3 8)))
    (with_player (inputController w, PlayerCharacter.load clips (player w))
       w).

(** [enemySystem.loadEnemyModel ()] settled. *)
Definition enemy_loaded (file : option bool) (w : t) : t :=
  with_enemySystem
    (EnemySystem.loadEnemyModel file (enemySystem w), random_calls w) w.

(** [cameraController.update ()], if there is a controller; it returns at
    once without a target. *)
Definition update_camera (w : t) : t :=
  match cameraController w, PlayerCharacter.model (player w) with
  | Some c, Some target =>
      with_cameraController
        (Some (CameraController.update (Some (buildingSystem w)) target c))
        w
  | _, _ => w
  end.

(** The four systems updated with the position of the player, in the
    order of the source. [None] when the position is beyond the indices
    the streamers count with (see [axis_index]). *)
Definition systems (fuel : nat) (deltaTime : float)
    (playerPosition : Vector3) (w : t) : option (EnemySystem.run t) :=
  tiles ← InfiniteGround.update playerPosition (groundSystem w);
  let (snow, reads) :=
    SnowSystem.update playerPosition (snowSystem w)
      (random_calls w, clock_calls w) in
  bn ← BuildingSystem.update playerPosition (buildingSystem w, reads.1);
  let w := mk (inputController w) (player w) tiles snow bn.1
              (enemySystem w) (cameraController w) bn.2 reads.2 in
  Some match EnemySystem.update fuel deltaTime
               (enemySystem w, random_calls w) with
       | EnemySystem.Done sn => EnemySystem.Done (with_enemySystem sn w)
       | EnemySystem.Thrown sn => EnemySystem.Thrown (with_enemySystem sn w)
       | EnemySystem.Spinning => EnemySystem.Spinning
       end.

(** One call of [animate], as far as it computes: the spot light, the
    debug system and the renderer are left out. An exception leaves
    [animate] before the camera is updated. *)
Definition animate (fuel : nat) (deltaTime : float) (w : t)
  : option (EnemySystem.run t) :=
  if bool_decide (is_Some (PlayerCharacter.model (player w))) then
    match Scene3D.animate (Some (buildingSystem w)) deltaTime
            (inputController w, player w) with
    | Throws cp => Some (EnemySystem.Thrown (with_player cp w))
    | Returns cp =>
        let w := with_player cp w in
        match PlayerCharacter.model (player w) with
        | None => Some (EnemySystem.Thrown w)
        | Some model =>
            r ← systems fuel deltaTime (obj_position model) w;
            Some match r with
                 | EnemySystem.Done w => EnemySystem.Done (update_camera w)
                 | r => r
                 end
        end
    end
  else Some (EnemySystem.Done (update_camera w)).

End WithHost.

End World.

(** ** The player in the air *)

Module Flight.
Import PlayerCharacter.

(** A steady player in the air, [d] ticks into its jump. *)
Definition aloft (bs : option BuildingSystem.t) (d : nat) (p : t) : Prop :=
  Invariant.steady false bs p ∧ isJumping p = true ∧ jumpDuration p = d.

End Flight.

(** ** The way forward *)

Module Track.

(** The places ten steps of [moveSpeed] lead to from (0, 2, 0) at yaw 0:
    the positions [updatePosition] tests for a collision, one per frame,
    while the forward key is held. *)
Definition forward_path : list Vector3 :=
  map (λ k, vec3 0 2 (Nat.iter k (λ z, z + PlayerCharacter.moveSpeed * 1) 0))
      (seq 1 10).

End Track.
(* ===================================================================== *)
(** * Part II: properties                                                 *)
(* ===================================================================== *)

Example floorZ_examples :
  floorZ (-0.5) = Some (-1)%Z ∧ floorZ 1.5 = Some 1%Z ∧
  floorZ (-3) = Some (-3)%Z ∧ floorZ 79.99 = Some 79%Z ∧
  Z2float (-7) = (-7)%float ∧ Math_floor 0.5 = 0 ∧
  axis_index 85 40 = Some (At 2) ∧ axis_index (-1) 40 = Some (At (-1)) ∧
  axis_index nan 40 = Some NaN ∧ axis_index infinity 40 = None.
Proof. vm_compute. repeat split. Qed.

(** ** The window and the radius-3 square *)

Section Window.

Lemma elem_of_span g k : k ∈ span (At g) ↔ (Z.abs (k - g) ≤ 2)%Z.
Proof.
  unfold span. rewrite elem_of_seqZ. lia.
Qed.

Lemma elem_of_window gx gz x z :
  (x, z) ∈ window (At gx) (At gz)
  ↔ (Z.abs (x - gx) ≤ 2)%Z ∧ (Z.abs (z - gz) ≤ 2)%Z.
Proof.
  unfold window. rewrite list_elem_of_bind. split.
  - intros (x' & Hin & Hx'). apply list_elem_of_bind in Hin.
    destruct Hin as (z' & Hin & Hz'). apply list_elem_of_singleton in Hin.
    inversion Hin; subst. split; by apply elem_of_span.
  - intros [Hx Hz]. exists x. split; [|by apply elem_of_span].
    apply list_elem_of_bind. exists z. split; [|by apply elem_of_span].
    by apply list_elem_of_singleton.
Qed.

Lemma beyond3_false g k : beyond3 (At g) k = false ↔ (Z.abs (k - g) ≤ 3)%Z.
Proof. unfold beyond3. rewrite Z.ltb_ge. lia. Qed.

Lemma window_nan_l gz : window NaN gz = [].
Proof. reflexivity. Qed.

End Window.

(** ** InfiniteGround: the streaming invariant *)

Section Ground.
Import InfiniteGround.

Lemma stays_spec gx gz x z :
  stays (At gx) (At gz) (x, z) = true
  ↔ (Z.abs (x - gx) ≤ 3)%Z ∧ (Z.abs (z - gz) ≤ 3)%Z.
Proof.
  unfold stays. rewrite negb_true_iff, orb_false_iff.
  by rewrite !beyond3_false.
Qed.

Lemma ensure_lookup tiles key k :
  ensure tiles key !! k
  = match tiles !! k with
    | Some t => Some t
    | None => if decide (key = k) then Some (createTile k.1 k.2) else None
    end.
Proof.
  unfold ensure. destruct (tiles !! key) as [t|] eqn:Hkey.
  - destruct (tiles !! k) as [t'|] eqn:Hk; [done|].
    case_decide; [congruence|done].
  - rewrite lookup_insert. case_decide; subst.
    + by rewrite Hkey.
    + by destruct (tiles !! k).
Qed.

Lemma generate_lookup cells : ∀ tiles k,
  foldl ensure tiles cells !! k
  = match tiles !! k with
    | Some t => Some t
    | None => if decide (k ∈ cells) then Some (createTile k.1 k.2) else None
    end.
Proof.
  induction cells as [|c cells IH]; intros tiles k; simpl.
  - by destruct (tiles !! k).
  - rewrite IH, ensure_lookup. destruct (tiles !! k) as [t|]; [done|].
    destruct (decide (c = k)) as [->|Hne].
    + rewrite decide_True; [done|]. by left.
    + destruct (decide (k ∈ cells)) as [Hin|Hnin].
      * rewrite decide_True; [done|]. by right.
      * rewrite decide_False; [done|]. rewrite elem_of_cons. naive_solver.
Qed.

Lemma update_at_lookup gx gz tiles k t :
  update_at gx gz tiles !! k = Some t
  ↔ stays gx gz k = true
    ∧ (tiles !! k = Some t
       ∨ (tiles !! k = None ∧ k ∈ window gx gz ∧ t = createTile k.1 k.2)).
Proof.
  unfold update_at. rewrite map_lookup_filter_Some, generate_lookup. simpl.
  destruct (tiles !! k) as [t'|]; [naive_solver|].
  case_decide; naive_solver.
Qed.

End Ground.

(** C5. After [InfiniteGround.update] at a position whose tile cell is
    [(cx, cz)], the active tiles cover the 5x5 window centred on that cell,
    every active key lies within Chebyshev distance 3 of it, and each key
    holds one tile: the one it held before the call, or else the one
    [createTile] makes for that key. *)
Theorem ground_streaming_invariant
    (p : Vector3) (tiles : gmap (Z * Z) InfiniteGround.Tile) (cx cz : Z) :
  axis_index (vx p) InfiniteGround.tileSize = Some (At cx) →
  axis_index (vz p) InfiniteGround.tileSize = Some (At cz) →
  ∃ T, InfiniteGround.update p tiles = Some T
    ∧ (∀ x z, (Z.abs (x - cx) ≤ 2)%Z → (Z.abs (z - cz) ≤ 2)%Z →
              is_Some (T !! (x, z)))
    ∧ (∀ x z, is_Some (T !! (x, z)) →
              (Z.abs (x - cx) ≤ 3)%Z ∧ (Z.abs (z - cz) ≤ 3)%Z)
    ∧ (∀ k t, T !! k = Some t →
              tiles !! k = Some t
              ∨ (tiles !! k = None
                 ∧ t = InfiniteGround.createTile k.1 k.2))
    ∧ (∀ k t1 t2, T !! k = Some t1 → T !! k = Some t2 → t1 = t2).
Proof.
  intros Hx Hz. exists (InfiniteGround.update_at (At cx) (At cz) tiles).
  split; [unfold InfiniteGround.update; by rewrite Hx, Hz|].
  split; [|split; [|split]].
  - intros x z Hwx Hwz.
    destruct (tiles !! (x, z)) as [t|] eqn:Hold.
    + exists t. apply update_at_lookup. split; [apply stays_spec; lia|by left].
    + exists (InfiniteGround.createTile x z). apply update_at_lookup.
      split; [apply stays_spec; lia|]. right.
      split; [done|]. split; [by apply elem_of_window|done].
  - intros x z [t Ht]. apply update_at_lookup in Ht as [Hst _].
    by apply stays_spec.
  - intros k t Ht. apply update_at_lookup in Ht as [_ Ht]. naive_solver.
  - intros k t1 t2 H1 H2. congruence.
Qed.

Lemma ground_streaming_invariant_witness :
  ∃ T, InfiniteGround.update (vec3 85 2 (-1)) ∅ = Some T
    ∧ (∀ x z, (Z.abs (x - 2) ≤ 2)%Z → (Z.abs (z - (-1)) ≤ 2)%Z →
              is_Some (T !! (x, z)))
    ∧ (∀ x z, is_Some (T !! (x, z)) →
              (Z.abs (x - 2) ≤ 3)%Z ∧ (Z.abs (z - (-1)) ≤ 3)%Z)
    ∧ (∀ k t, T !! k = Some t →
              (∅ : gmap (Z * Z) InfiniteGround.Tile) !! k = Some t
              ∨ ((∅ : gmap (Z * Z) InfiniteGround.Tile) !! k = None
                 ∧ t = InfiniteGround.createTile k.1 k.2))
    ∧ (∀ k t1 t2, T !! k = Some t1 → T !! k = Some t2 → t1 = t2).
Proof.
  apply (ground_streaming_invariant (vec3 85 2 (-1)) ∅ 2 (-1));
    vm_compute; reflexivity.
Defined.

(** ** BuildingSystem.checkCollision *)

Section Collision.
Import BuildingSystem Spec.

Lemma tooClose_spec p r d :
  tooClose p r d = (planar_distance p (center d) <? threshold d r).
Proof. reflexivity. Qed.

Lemma tooClose_turned theta p r d : tooClose p r (turned theta d) = tooClose p r d.
Proof. reflexivity. Qed.

Lemma checkCollision_true s p r :
  checkCollision s p r = true
  ↔ ∃ key d, buildings s !! key = Some d ∧ tooClose p r d = true.
Proof.
  unfold checkCollision. rewrite existsb_exists. split.
  - intros ([key d] & Hin & Hd). exists key, d. split; [|done].
    apply elem_of_map_to_list. by apply list_elem_of_In.
  - intros (key & d & Hin & Hd). exists (key, d). split; [|done].
    apply list_elem_of_In. by apply elem_of_map_to_list.
Qed.

Lemma checkCollision_single key d p r :
  checkCollision (with_buildings {[key := d]} new) p r = tooClose p r d.
Proof.
  unfold checkCollision. simpl. rewrite map_to_list_singleton. simpl.
  apply orb_false_r.
Qed.

End Collision.

(** C2. [checkCollision] answers [true] exactly when some active building
    has its centre at planar distance less than half its box width plus the
    radius plus the buffer of its variant (0.5 for variant 1, 0.02 for
    variant 0) from the point. Turning the buildings does not change the
    answer. Against a single building the answer is the comparison itself,
    and for a box of width 20 at the origin and radius 1.5 (threshold
    11.52) the point just inside collides, the point just outside and the
    point at the threshold do not. *)
Theorem checkCollision_cylindrical :
  (∀ s p r,
     BuildingSystem.checkCollision s p r = true
     ↔ ∃ key d, BuildingSystem.buildings s !! key = Some d
         ∧ (Spec.planar_distance p (Spec.center d) <? Spec.threshold d r) = true)
  ∧ Spec.variant_buffer 1 = 0.5 ∧ Spec.variant_buffer 0 = 0.02
  ∧ (∀ theta s p r,
       BuildingSystem.checkCollision
         (BuildingSystem.with_buildings
            (Spec.turned theta <$> BuildingSystem.buildings s) s) p r
       = BuildingSystem.checkCollision s p r)
  ∧ (∀ key d p r,
       BuildingSystem.checkCollision
         (BuildingSystem.with_buildings {[key := d]} BuildingSystem.new) p r
       = (Spec.planar_distance p (Spec.center d) <? Spec.threshold d r))
  ∧ (let s := BuildingSystem.with_buildings
                {[(0, 0)%Z := Spec.block (vec3 0 6.47 0) 20 0]}
                BuildingSystem.new in
     Spec.threshold (Spec.block (vec3 0 6.47 0) 20 0) 1.5 = 11.52
     ∧ BuildingSystem.checkCollision s (vec3 11.519999 2 0) 1.5 = true
     ∧ BuildingSystem.checkCollision s (vec3 11.520001 2 0) 1.5 = false
     ∧ BuildingSystem.checkCollision s (vec3 0 2 (-11.519999)) 1.5 = true
     ∧ BuildingSystem.checkCollision s (vec3 0 2 (-11.520001)) 1.5 = false
     ∧ BuildingSystem.checkCollision s (vec3 11.52 2 0) 1.5 = false).
Proof.
  split; [|split; [|split; [|split; [|split]]]].
  - intros s p r. rewrite checkCollision_true.
    by setoid_rewrite tooClose_spec.
  - reflexivity.
  - reflexivity.
  - intros theta s p r. apply eq_true_iff_eq.
    rewrite !checkCollision_true. simpl. split.
    + intros (key & d & Hd & Hclose). rewrite lookup_fmap in Hd.
      destruct (BuildingSystem.buildings s !! key) as [d0|] eqn:Hkey;
        [|done].
      simpl in Hd. inversion Hd; subst. rewrite tooClose_turned in Hclose.
      by exists key, d0.
    + intros (key & d & Hd & Hclose). exists key, (Spec.turned theta d).
      rewrite lookup_fmap, Hd. by rewrite tooClose_turned.
  - intros key d p r. by rewrite checkCollision_single, tooClose_spec.
  - cbv zeta. rewrite !checkCollision_single. vm_compute. repeat split.
Qed.

(** The height of the queried point does not enter [checkCollision]. *)
Lemma checkCollision_height s x z r h1 h2 :
  BuildingSystem.checkCollision s (vec3 x h1 z) r
  = BuildingSystem.checkCollision s (vec3 x h2 z) r.
Proof. reflexivity. Qed.

(** ** BuildingSystem.update: the processed cells *)

Section Streaming.
Import BuildingSystem.
Context `{host : Host}.

Import Spec.

Lemma window_stays gx gz key : key ∈ window gx gz → stays gx gz key = true.
Proof.
  destruct gx as [|gx]; [by rewrite window_nan_l; intros ?%elem_of_nil|].
  destruct gz as [|gz].
  - unfold window. rewrite list_elem_of_bind.
    intros (x & Hin & _). simpl in Hin. by apply elem_of_nil in Hin.
  - destruct key as [x z]. rewrite elem_of_window. intros [Hx Hz].
    apply stays_spec. lia.
Qed.

Lemma visit_known_id s n key : known s key → visit (s, n) key = (s, n).
Proof.
  intros [Hin|Hsome]; unfold visit.
  - by rewrite (bool_decide_eq_true_2 _ Hin).
  - rewrite (bool_decide_eq_true_2 _ Hsome). by rewrite andb_false_r.
Qed.

(** What one pass of the loop body can do to the state. *)
Lemma visit_cases s n key :
  (known s key ∧ visit (s, n) key = (s, n))
  ∨ ((key ∉ loadedCells s) ∧ buildings s !! key = None
     ∧ ∃ b n', visit (s, n) key
               = ({| buildings := b; buildingModels := buildingModels s;
                     loadedCells := {[key]} ∪ loadedCells s |}, n')
               ∧ (n < n')%nat
               ∧ (b = buildings s ∨ ∃ d, b = <[key := d]> (buildings s))).
Proof.
  unfold visit.
  destruct (bool_decide (key ∈ loadedCells s)) eqn:Hl.
  { left. apply bool_decide_eq_true in Hl. split; [by left|done]. }
  destruct (bool_decide (is_Some (buildings s !! key))) eqn:Hb.
  { left. apply bool_decide_eq_true in Hb. split; [by right|done]. }
  right. apply bool_decide_eq_false in Hl, Hb.
  split; [done|]. split; [by apply eq_None_not_Some|]. simpl.
  destruct (Math_random n <? buildingChance);
    [|exists (buildings s), (S n); auto].
  destruct (0.3 <? _); [|exists (buildings s), (S n); auto].
  unfold createBuilding. simpl.
  destruct (buildingModels s =? 0)%nat;
    [exists (buildings s), (S n); auto|].
  eexists _, _. split; [reflexivity|]. split; [lia|]. right. eauto.
Qed.

Lemma visit_loadedCells sn key :
  loadedCells sn.1 ⊆ loadedCells (visit sn key).1.
Proof.
  destruct sn as [s n].
  destruct (visit_cases s n key) as [[_ ->]|(_ & _ & b & n' & -> & _)];
    simpl; set_solver.
Qed.

Lemma visit_processed sn key k :
  k ∈ loadedCells sn.1 →
  buildings (visit sn key).1 !! k = buildings sn.1 !! k.
Proof.
  destruct sn as [s n]. intros Hk. simpl in Hk.
  destruct (visit_cases s n key)
    as [[_ ->]|(Hnew & _ & b & n' & -> & _ & [->|[d ->]])]; simpl; try done.
  apply lookup_insert_ne. congruence.
Qed.

Lemma visit_known sn key k :
  known sn.1 k ∨ k = key → known (visit sn key).1 k.
Proof.
  destruct sn as [s n]. unfold known.
  destruct (visit_cases s n key)
    as [[Hkey ->]|(Hnew & Hnone & b & n' & -> & _ & Hb)]; simpl.
  - by intros [Hk| ->].
  - intros [[Hk|Hk]| ->]; [left; set_solver| |left; set_solver].
    destruct Hb as [->|[d ->]]; [by right|].
    right. rewrite lookup_insert. by case_decide.
Qed.

Lemma generate_loadedCells cells : ∀ sn,
  loadedCells sn.1 ⊆ loadedCells (foldl visit sn cells).1.
Proof.
  induction cells as [|c cells IH]; intros sn; simpl; [done|].
  etrans; [apply (visit_loadedCells sn c)|apply IH].
Qed.

Lemma generate_processed cells : ∀ sn k,
  k ∈ loadedCells sn.1 →
  buildings (foldl visit sn cells).1 !! k = buildings sn.1 !! k.
Proof.
  induction cells as [|c cells IH]; intros sn k Hk; simpl; [done|].
  rewrite IH by (by apply visit_loadedCells).
  by apply visit_processed.
Qed.

Lemma generate_known cells : ∀ sn k,
  known sn.1 k ∨ k ∈ cells → known (foldl visit sn cells).1 k.
Proof.
  induction cells as [|c cells IH]; intros sn k; simpl.
  - intros [Hk|Hk]; [done|by apply elem_of_nil in Hk].
  - rewrite elem_of_cons. intros Hk. apply IH.
    destruct Hk as [Hk|[->|Hk]]; [| |by right];
      left; apply visit_known; auto.
Qed.

Lemma generate_known_id cells : ∀ s n,
  (∀ k, k ∈ cells → known s k) → foldl visit (s, n) cells = (s, n).
Proof.
  induction cells as [|c cells IH]; intros s n Hall; cbn [foldl]; [done|].
  rewrite visit_known_id by (apply Hall; by left).
  apply IH. intros k Hk. apply Hall. by right.
Qed.

(** The state after [update_at], read off the state after the
    generating loop. *)
Lemma update_at_unfold gx gz sn :
  update_at gx gz sn
  = (with_buildings
       (filter (λ kv, stays gx gz kv.1 = true)
               (buildings (foldl visit sn (window gx gz)).1))
       (foldl visit sn (window gx gz)).1,
     (foldl visit sn (window gx gz)).2).
Proof. unfold update_at. by destruct (foldl visit sn (window gx gz)). Qed.

Lemma update_at_loadedCells gx gz sn :
  loadedCells sn.1 ⊆ loadedCells (update_at gx gz sn).1.
Proof. rewrite update_at_unfold. simpl. apply generate_loadedCells. Qed.

Lemma update_at_processed gx gz sn k :
  k ∈ loadedCells sn.1 →
  buildings (update_at gx gz sn).1 !! k = buildings sn.1 !! k
  ∨ buildings (update_at gx gz sn).1 !! k = None.
Proof.
  intros Hk. rewrite update_at_unfold. simpl.
  destruct (stays gx gz k) eqn:Hst.
  - left. rewrite <- (generate_processed (window gx gz) sn k Hk).
    destruct (buildings (foldl visit sn (window gx gz)).1 !! k) as [d|]
      eqn:Hd.
    + by apply map_lookup_filter_Some.
    + apply map_lookup_filter_None. by left.
  - right. apply map_lookup_filter_None. right. simpl. intros d _.
    by rewrite Hst.
Qed.

Lemma update_at_idempotent gx gz sn :
  update_at gx gz (update_at gx gz sn) = update_at gx gz sn.
Proof.
  rewrite (update_at_unfold gx gz sn).
  set (s1 := (foldl visit sn (window gx gz)).1).
  set (n1 := (foldl visit sn (window gx gz)).2).
  rewrite update_at_unfold, generate_known_id; simpl.
  - unfold with_buildings. simpl. do 2 f_equal.
    apply map_filter_id. intros k d Hd.
    by apply map_lookup_filter_Some in Hd as [_ Hd].
  - intros k Hk.
    destruct (generate_known (window gx gz) sn k (or_intror Hk))
      as [Hl|[d Hd]]; [by left|].
    right. exists d. apply map_lookup_filter_Some. split; [done|].
    by apply window_stays.
Qed.

Lemma updates_processed ps : ∀ s n key,
  Forall streamable ps → key ∈ loadedCells s →
  ∃ s' n', updates ps (s, n) = Some (s', n')
    ∧ loadedCells s ⊆ loadedCells s'
    ∧ (buildings s' !! key = buildings s !! key
       ∨ buildings s' !! key = None).
Proof.
  induction ps as [|p ps IH]; intros s n key Hps Hkey.
  - exists s, n. simpl. auto.
  - apply Forall_cons in Hps as [[[gx Hx] [gz Hz]] Hps]. simpl.
    unfold update. rewrite Hx, Hz. simpl.
    destruct (update_at gx gz (s, n)) as [s1 n1] eqn:Hup.
    pose proof (update_at_loadedCells gx gz (s, n)) as Hsub.
    pose proof (update_at_processed gx gz (s, n) key Hkey) as Hb.
    rewrite Hup in Hsub, Hb. simpl in Hsub, Hb.
    destruct (IH s1 n1 key Hps (Hsub _ Hkey))
      as (s' & n' & Hrun & Hsub' & Hb').
    exists s', n'. split; [done|]. split; [set_solver|].
    destruct Hb' as [Hb'|Hb']; [|by right].
    rewrite Hb'. destruct Hb as [Hb|Hb]; [by left|by right].
Qed.

End Streaming.

(** C3. Once a cell is in the processed set, any further calls of
    [BuildingSystem.update] keep it there (the set only grows), leave the
    cell with the building it has or with none, never with another one, so
    that a cell without a building (skipped, or evicted) stays without one;
    and the loop body of [update] at that cell is the identity afterwards:
    it draws no random number and decides nothing again. *)
Theorem processed_cell_decided_once `{host : Host}
    (ps : list Vector3) (s : BuildingSystem.t) (n : nat) (key : Z * Z) :
  Forall Spec.streamable ps →
  key ∈ BuildingSystem.loadedCells s →
  ∃ s' n', BuildingSystem.updates ps (s, n) = Some (s', n')
    ∧ BuildingSystem.loadedCells s ⊆ BuildingSystem.loadedCells s'
    ∧ key ∈ BuildingSystem.loadedCells s'
    ∧ (BuildingSystem.buildings s' !! key = BuildingSystem.buildings s !! key
       ∨ BuildingSystem.buildings s' !! key = None)
    ∧ (BuildingSystem.buildings s !! key = None →
       BuildingSystem.buildings s' !! key = None)
    ∧ (∀ m, BuildingSystem.visit (s', m) key = (s', m)).
Proof.
  intros Hps Hkey.
  destruct (updates_processed ps s n key Hps Hkey)
    as (s' & n' & Hrun & Hsub & Hb).
  exists s', n'. split; [done|]. split; [done|].
  split; [by apply Hsub|]. split; [done|]. split.
  - intros Hnone. destruct Hb as [Hb|Hb]; congruence.
  - intros m. apply visit_known_id. left. by apply Hsub.
Qed.

Lemma processed_cell_decided_once_witness :
  let s := BuildingSystem.with_loadedCells {[(1, 1)%Z]}
             Reference.loaded_buildings in
  ∃ s' n', BuildingSystem.updates (host := Reference.host)
             [vec3 0 2 0; vec3 200 2 0; vec3 0 2 0] (s, 0%nat)
           = Some (s', n')
    ∧ BuildingSystem.loadedCells s ⊆ BuildingSystem.loadedCells s'
    ∧ (1, 1)%Z ∈ BuildingSystem.loadedCells s'
    ∧ (BuildingSystem.buildings s' !! (1, 1)%Z
       = BuildingSystem.buildings s !! (1, 1)%Z
       ∨ BuildingSystem.buildings s' !! (1, 1)%Z = None)
    ∧ (BuildingSystem.buildings s !! (1, 1)%Z = None →
       BuildingSystem.buildings s' !! (1, 1)%Z = None)
    ∧ (∀ m, BuildingSystem.visit (host := Reference.host) (s', m) (1, 1)%Z
            = (s', m)).
Proof.
  apply (processed_cell_decided_once (host := Reference.host)
           [vec3 0 2 0; vec3 200 2 0; vec3 0 2 0]
           (BuildingSystem.with_loadedCells {[(1, 1)%Z]}
              Reference.loaded_buildings) 0 (1, 1)%Z).
  - repeat constructor; vm_compute; by eexists.
  - simpl. by apply elem_of_singleton.
Defined.

(** C4. A second call of [BuildingSystem.update] at the same position
    changes nothing: the building map, the processed cells and the number
    of random draws are those the first call left. *)
Theorem update_twice_same `{host : Host}
    (p : Vector3) (sn : BuildingSystem.t * nat) (gx gz : axis) :
  axis_index (vx p) BuildingSystem.gridSize = Some gx →
  axis_index (vz p) BuildingSystem.gridSize = Some gz →
  ∃ sn1, BuildingSystem.update p sn = Some sn1
    ∧ BuildingSystem.update p sn1 = Some sn1
    ∧ BuildingSystem.updates [p; p] sn = Some sn1.
Proof.
  intros Hx Hz. exists (BuildingSystem.update_at gx gz sn).
  assert (Hstep : ∀ sn0, BuildingSystem.update p sn0
                         = Some (BuildingSystem.update_at gx gz sn0)).
  { intros sn0. unfold BuildingSystem.update. by rewrite Hx, Hz. }
  split; [apply Hstep|].
  assert (Hagain : BuildingSystem.update p (BuildingSystem.update_at gx gz sn)
                   = Some (BuildingSystem.update_at gx gz sn)).
  { rewrite Hstep. f_equal. apply update_at_idempotent. }
  split; [done|]. simpl. rewrite Hstep. simpl. by rewrite Hagain.
Qed.

Lemma update_twice_same_witness :
  ∃ sn1, BuildingSystem.update (host := Reference.host) (vec3 0 2 0)
           (Reference.loaded_buildings, 0%nat) = Some sn1
    ∧ BuildingSystem.update (host := Reference.host) (vec3 0 2 0) sn1
      = Some sn1
    ∧ BuildingSystem.updates (host := Reference.host)
        [vec3 0 2 0; vec3 0 2 0] (Reference.loaded_buildings, 0%nat)
      = Some sn1.
Proof.
  apply (update_twice_same (host := Reference.host) (vec3 0 2 0)
           (Reference.loaded_buildings, 0%nat) (At 0) (At 0));
    vm_compute; reflexivity.
Defined.

(** ** The reference host at work *)

(** The first [update] at the spawn point with loaded models: all 25 cells
    of the window are processed, the cell of the origin gets no building,
    19 of the others do, and 120 random numbers are drawn (one per cell
    and five per building, none for the building refused at the origin
    cell). *)
Example first_update_at_spawn :
  ∃ s n, BuildingSystem.update (host := Reference.host) (vec3 0 2 0)
           (Reference.loaded_buildings, 0%nat) = Some (s, n)
    ∧ size (BuildingSystem.loadedCells s) = 25%nat
    ∧ size (BuildingSystem.buildings s) = 19%nat
    ∧ BuildingSystem.buildings s !! (0, 0)%Z = None
    ∧ n = 120%nat.
Proof. eexists _, _. split; [vm_compute; reflexivity|]. by vm_compute. Qed.

Example reference_trigonometry :
  Reference.sin 0 = 0 ∧ Reference.cos 0 = 1
  ∧ Reference.sin (Math_PI / 2) = 1
  ∧ Reference.cos (Math_PI / 2) = 6.123233995736766e-17
  ∧ Reference.sin (Math_PI / 6) = 0.49999999999999994
  ∧ Reference.cos Math_PI = (-1)%float.
Proof. vm_compute. repeat split. Qed.

(** ** PlayerCharacter: jump and the guards on the model *)

Section Player.
Import PlayerCharacter.
Context `{host : Host}.
Variable buildingSystem : option BuildingSystem.t.

Lemma setAnimation_current name p :
  currentAction p = Some name →
  setAnimation buildingSystem name p = Returns p.
Proof.
  intros Hcur. unfold setAnimation.
  destruct (negb (has (animations p) name) || _); [done|].
  by rewrite bool_decide_eq_true_2.
Qed.

(** Entering an animation that stops the character. *)
Lemma setAnimation_still name p :
  name = Idle ∨ name = Jump →
  has (animations p) name = true → is_Some (currentAction p) →
  currentAction p ≠ Some name →
  setAnimation buildingSystem name p
  = Returns (set_currentAction (Some name) (set_isMoving false p)).
Proof.
  intros Hname Hhas Hcur Hne. unfold setAnimation.
  rewrite Hhas, (bool_decide_eq_true_2 _ Hcur),
    (bool_decide_eq_false_2 _ Hne). simpl.
  by destruct Hname as [-> | ->].
Qed.

Lemma jump_airborne p : isJumping p = true → jump buildingSystem p = Returns p.
Proof. intros Hj. unfold jump. by rewrite Hj. Qed.

(** Without the action asked for, or without a current action,
    [setAnimation] returns at once. *)
Lemma setAnimation_declined name p :
  has (animations p) name = false ∨ currentAction p = None →
  setAnimation buildingSystem name p = Returns p.
Proof.
  intros [Hhas|Hcur]; unfold setAnimation.
  - by rewrite Hhas.
  - rewrite Hcur, (bool_decide_eq_false_2 (is_Some None))
      by (intros [? ?]; discriminate).
    by rewrite orb_true_r.
Qed.

End Player.

(** C6 as amended. [jump ()] on the ground, whatever the state of the
    player otherwise, returns with [isJumping] set, the jump velocity at
    (0, 0.19, 0) and the jump counter at 0, leaving position, yaw and
    model alone; the jump action becomes the current one exactly when it
    is loaded and some action is current, else the current action stays
    what it was. [jump ()] in the air, and so a second [jump ()] after the
    first, returns the state as it found it. *)
Theorem jump_on_ground `{host : Host}
    (bs : option BuildingSystem.t) (p : PlayerCharacter.t) :
  PlayerCharacter.isJumping p = false →
  ∃ q, PlayerCharacter.jump bs p = Returns q
    ∧ PlayerCharacter.isJumping q = true
    ∧ PlayerCharacter.jumpVelocity q = vec3 0 0.19 0
    ∧ PlayerCharacter.jumpDuration q = 0%nat
    ∧ PlayerCharacter.currentAction q
      = (if PlayerCharacter.has (PlayerCharacter.animations p)
              PlayerCharacter.Jump
            && bool_decide (is_Some (PlayerCharacter.currentAction p))
         then Some PlayerCharacter.Jump
         else PlayerCharacter.currentAction p)
    ∧ PlayerCharacter.position q = PlayerCharacter.position p
    ∧ PlayerCharacter.rotation_y q = PlayerCharacter.rotation_y p
    ∧ PlayerCharacter.model q = PlayerCharacter.model p
    ∧ PlayerCharacter.jump bs q = Returns q
    ∧ (∀ a, PlayerCharacter.isJumping a = true →
            PlayerCharacter.jump bs a = Returns a).
Proof.
  intros Hground. unfold PlayerCharacter.jump at 1.
  rewrite Hground. cbn [negb].
  destruct (PlayerCharacter.has (PlayerCharacter.animations p)
              PlayerCharacter.Jump) eqn:Hclip;
    [destruct (PlayerCharacter.currentAction p) as [current|] eqn:Hcur|].
  - rewrite (bool_decide_eq_true_2 (is_Some (Some current)))
      by (by eexists).
    cbn [andb].
    destruct (decide (current = PlayerCharacter.Jump)) as [->|Hother].
    + rewrite setAnimation_current by exact Hcur. cbn [and_then].
      eexists. split; [reflexivity|]. cbn.
      repeat split; auto using jump_airborne.
    + rewrite setAnimation_still;
        [|by right|exact Hclip|cbn; rewrite Hcur; by eexists
         |cbn; rewrite Hcur; congruence].
      cbn [and_then]. eexists. split; [reflexivity|]. cbn.
      repeat split; auto using jump_airborne.
  - rewrite (bool_decide_eq_false_2 (is_Some None))
      by (intros [? ?]; discriminate).
    rewrite andb_false_r.
    rewrite setAnimation_declined by (by right). cbn [and_then].
    eexists. split; [reflexivity|]. cbn.
    repeat split; auto using jump_airborne.
  - cbn [andb]. rewrite setAnimation_declined by (by left).
    cbn [and_then]. eexists. split; [reflexivity|]. cbn.
    repeat split; auto using jump_airborne.
Qed.

Lemma jump_on_ground_witness :
  ∃ q, PlayerCharacter.jump (host := Reference.host)
         (Some BuildingSystem.new) Reference.loaded_player
       = Returns q
    ∧ PlayerCharacter.isJumping q = true
    ∧ PlayerCharacter.jumpVelocity q = vec3 0 0.19 0
    ∧ PlayerCharacter.jumpDuration q = 0%nat
    ∧ PlayerCharacter.currentAction q
      = (if PlayerCharacter.has
              (PlayerCharacter.animations Reference.loaded_player)
              PlayerCharacter.Jump
            && bool_decide
                 (is_Some
                    (PlayerCharacter.currentAction Reference.loaded_player))
         then Some PlayerCharacter.Jump
         else PlayerCharacter.currentAction Reference.loaded_player)
    ∧ PlayerCharacter.position q
      = PlayerCharacter.position Reference.loaded_player
    ∧ PlayerCharacter.rotation_y q
      = PlayerCharacter.rotation_y Reference.loaded_player
    ∧ PlayerCharacter.model q = PlayerCharacter.model Reference.loaded_player
    ∧ PlayerCharacter.jump (host := Reference.host)
        (Some BuildingSystem.new) q = Returns q
    ∧ (∀ a, PlayerCharacter.isJumping a = true →
            PlayerCharacter.jump (host := Reference.host)
              (Some BuildingSystem.new) a = Returns a).
Proof.
  apply (jump_on_ground (host := Reference.host)
           (Some BuildingSystem.new) Reference.loaded_player).
  reflexivity.
Defined.

(** C6 as stated fails where [setAnimation] declines to switch: a
    character that has not been loaded, or one whose jump file carried no
    clip, is airborne after [jump ()] with the animation it had before. *)
Lemma jump_without_clip_keeps_animation :
  (∃ q, PlayerCharacter.jump (host := Reference.host)
          (Some BuildingSystem.new) PlayerCharacter.new
        = Returns q
     ∧ PlayerCharacter.isJumping PlayerCharacter.new = false
     ∧ PlayerCharacter.isJumping q = true
     ∧ PlayerCharacter.currentAction q = None)
  ∧ (let p := PlayerCharacter.load
                {| PlayerCharacter.has_idle := true;
                   PlayerCharacter.has_run := true;
                   PlayerCharacter.has_walk := true;
                   PlayerCharacter.has_jump := false |}
                PlayerCharacter.new in
     ∃ q, PlayerCharacter.jump (host := Reference.host)
            (Some BuildingSystem.new) p = Returns q
       ∧ PlayerCharacter.isJumping p = false
       ∧ PlayerCharacter.isJumping q = true
       ∧ PlayerCharacter.currentAction q = Some PlayerCharacter.Idle
       ∧ PlayerCharacter.currentAction q ≠ Some PlayerCharacter.Jump).
Proof.
  split.
  - eexists. split; [reflexivity|]. by repeat split.
  - eexists. split; [reflexivity|]. by repeat split.
Qed.

(** C7 as amended. While the model is not loaded, [move] and [rotate]
    return at once and change nothing; [update] changes nothing as long as
    no jump has been started (there is no mixer before the model); and the
    animation loop calls neither the input controller nor the player. *)
Theorem not_loaded_is_left_alone `{host : Host}
    (bs : option BuildingSystem.t) (c : InputController.t)
    (p : PlayerCharacter.t) (direction deltaTime : float) :
  PlayerCharacter.model p = None →
  PlayerCharacter.move bs direction p = Returns p
  ∧ PlayerCharacter.rotate direction p = Returns p
  ∧ (PlayerCharacter.mixer p = None → PlayerCharacter.isJumping p = false →
     PlayerCharacter.update bs deltaTime p = Returns p)
  ∧ Scene3D.animate bs deltaTime (c, p) = Returns (c, p).
Proof.
  intros Hmodel. split; [|split; [|split]].
  - unfold PlayerCharacter.move. rewrite Hmodel.
    rewrite (bool_decide_eq_false_2 (is_Some None)); [done|by intros [? ?]].
  - unfold PlayerCharacter.rotate. by rewrite Hmodel.
  - intros Hmixer Hground.
    unfold PlayerCharacter.update, PlayerCharacter.advance_mixer.
    by rewrite Hmixer, Hground.
  - unfold Scene3D.animate. simpl. rewrite Hmodel.
    rewrite (bool_decide_eq_false_2 (is_Some None)); [done|by intros [? ?]].
Qed.

Lemma not_loaded_is_left_alone_witness :
  PlayerCharacter.move (host := Reference.host) (Some BuildingSystem.new) 1
    PlayerCharacter.new = Returns PlayerCharacter.new
  ∧ PlayerCharacter.rotate 1 PlayerCharacter.new = Returns PlayerCharacter.new
  ∧ (PlayerCharacter.mixer PlayerCharacter.new = None →
     PlayerCharacter.isJumping PlayerCharacter.new = false →
     PlayerCharacter.update (host := Reference.host) (Some BuildingSystem.new)
       0.016 PlayerCharacter.new = Returns PlayerCharacter.new)
  ∧ Scene3D.animate (host := Reference.host) (Some BuildingSystem.new) 0.016
      (InputController.new, PlayerCharacter.new)
    = Returns (InputController.new, PlayerCharacter.new).
Proof.
  apply (not_loaded_is_left_alone (host := Reference.host)
           (Some BuildingSystem.new) InputController.new PlayerCharacter.new
           1 0.016).
  reflexivity.
Defined.

(** C7 as stated fails for [jump] and [update]: [jump ()] has no guard on
    the model and makes the unloaded character airborne, and [update] on
    that character raises a [TypeError] at [this.model.position], after it
    has moved [this.position]. *)
Lemma jump_before_load_changes_state :
  PlayerCharacter.model PlayerCharacter.new = None
  ∧ ∃ q, PlayerCharacter.jump (host := Reference.host)
           (Some BuildingSystem.new) PlayerCharacter.new = Returns q
      ∧ q ≠ PlayerCharacter.new
      ∧ PlayerCharacter.isJumping q = true
      ∧ PlayerCharacter.jumpVelocity q = vec3 0 0.19 0
      ∧ PlayerCharacter.model q = None
      ∧ ∃ r, PlayerCharacter.update (host := Reference.host)
               (Some BuildingSystem.new) 0.016 q = Throws r
          ∧ PlayerCharacter.position r ≠ PlayerCharacter.position q.
Proof.
  split; [reflexivity|]. eexists. split; [reflexivity|].
  split; [discriminate|]. do 3 (split; [reflexivity|]).
  eexists. split; [vm_compute; reflexivity|].
  vm_compute. by intros [=].
Qed.

(** ** PlayerCharacter.update: the jump *)

Section Jump.
Import PlayerCharacter Spec.
Context `{host : Host}.
Variable buildingSystem : option BuildingSystem.t.

Lemma same_jump_refl p : same_jump p p.
Proof. by repeat split. Qed.

Lemma same_jump_trans p q r : same_jump p q → same_jump q r → same_jump p r.
Proof.
  intros (? & ? & ? & ?) (? & ? & ? & ?). repeat split; congruence.
Qed.

Lemma updatePosition_loaded p :
  is_Some (model p) →
  ∃ q, updatePosition buildingSystem p = Returns q
    ∧ same_jump p q ∧ is_Some (model q)
    ∧ (model_at_height p → model_at_height q).
Proof.
  intros [m Hm]. unfold updatePosition.
  destruct (negb (collides _ _ _)).
  - unfold model_position_copy. simpl. rewrite Hm. eexists.
    split; [reflexivity|]. simpl. split; [by repeat split|].
    split; [by eexists|]. intros _. eexists. by split.
  - exists p. split; [done|]. split; [apply same_jump_refl|].
    split; [by eexists|done].
Qed.

Lemma setAnimation_loaded name p :
  is_Some (model p) →
  ∃ q, setAnimation buildingSystem name p = Returns q
    ∧ same_jump p q ∧ is_Some (model q)
    ∧ (model_at_height p → model_at_height q).
Proof.
  intros Hm. unfold setAnimation.
  destruct (negb (has (animations p) name) || _);
    [exists p; auto using same_jump_refl|].
  destruct (bool_decide (currentAction p = Some name));
    [exists p; auto using same_jump_refl|].
  set (p' := set_isMoving _ p).
  assert (Hp' : same_jump p p' ∧ is_Some (model p')
                ∧ (model_at_height p → model_at_height p')) by done.
  destruct Hp' as (Hsame & Hm' & Hheight).
  destruct (isMoving p' && neqb (pendingMove p') 0).
  - destruct (updatePosition_loaded p' Hm') as (q & -> & Hq & Hmq & Hhq).
    simpl. eexists. split; [reflexivity|].
    split; [by apply (same_jump_trans p p')|]. split; [done|]. auto.
  - simpl. eexists. split; [reflexivity|]. auto.
Qed.

Lemma land_loaded p :
  is_Some (model p) →
  ∃ q, land buildingSystem p = Returns q
    ∧ isJumping q = false ∧ jumpDuration q = 0%nat
    ∧ jumpVelocity q = jumpVelocity p
    ∧ vy (position q) = landingHeight
    ∧ model_at_height q.
Proof.
  intros [m Hm]. unfold land, model_position_set_y. simpl. rewrite Hm. simpl.
  match goal with |- ∃ x, setAnimation _ ?n ?a = _ ∧ _ =>
    destruct (setAnimation_loaded n a) as (q & Hq & Hsame & _ & Hheight);
      [by eexists|]
  end.
  exists q. split; [done|]. destruct Hsame as (Hj & Hd & Hv & Hy).
  simpl in *. repeat split; try done.
  apply Hheight. eexists. by split.
Qed.

(** The state at the landing check, for a loaded character: the new
    position taken, or the jump ended by the collision. *)
Lemma jump_step_loaded p m :
  model p = Some m →
  ∃ p1, jump_step buildingSystem p = Returns p1
    ∧ is_Some (model p1)
    ∧ jumpVelocity p1
      = set_y (jumpVelocity p)
          (if collides buildingSystem (jump_target (jump_advance p)) radius
           then - (vy (jumpVelocity p) - gravity) * 0.5
           else vy (jumpVelocity p) - gravity)
    ∧ if collides buildingSystem (jump_target (jump_advance p)) radius
      then isJumping p1 = false ∧ jumpDuration p1 = 0%nat
           ∧ vy (position p1) = landingHeight
      else isJumping p1 = isJumping p
           ∧ jumpDuration p1 = S (jumpDuration p)
           ∧ position p1 = jump_target (jump_advance p).
Proof.
  intros Hm. unfold jump_step.
  destruct (collides _ _ _) eqn:Hhit; simpl.
  - unfold model_position_set_y. simpl. rewrite Hm. simpl.
    match goal with |- ∃ x, setAnimation _ ?n ?a = _ ∧ _ =>
      destruct (setAnimation_loaded n a) as (q & Hq & Hsame & Hmq & _);
        [by eexists|]
    end.
    exists q. split; [done|]. split; [done|].
    destruct Hsame as (Hj & Hd & Hv & Hy). simpl in *. by repeat split.
  - unfold model_position_copy. simpl. rewrite Hm. eexists.
    split; [reflexivity|]. simpl. split; [by eexists|]. by repeat split.
Qed.

Lemma advance_mixer_fields dt p :
  model (advance_mixer dt p) = model p
  ∧ isJumping (advance_mixer dt p) = isJumping p
  ∧ jumpDuration (advance_mixer dt p) = jumpDuration p
  ∧ jumpVelocity (advance_mixer dt p) = jumpVelocity p
  ∧ position (advance_mixer dt p) = position p
  ∧ rotation_y (advance_mixer dt p) = rotation_y p.
Proof. unfold advance_mixer. by destruct (mixer p). Qed.

End Jump.

(** ** Methods that return: the loaded character under input *)

Section Keeps.
Import PlayerCharacter Spec.
Context `{host : Host}.
Variable buildingSystem : option BuildingSystem.t.

Lemma and_then_returns {A} (P : A → Prop) (o : outcome A) g :
  (∃ b, o = Returns b ∧ P b) → keeps P g →
  ∃ c, o >>> g = Returns c ∧ P c.
Proof. intros (b & -> & Hb) Hg. simpl. by apply Hg. Qed.

Lemma keeps_when {A} (P : A → Prop) (b : bool) f :
  keeps P f → keeps P (InputController.when b f).
Proof.
  intros Hf a Ha. unfold InputController.when.
  destruct b; [by apply Hf|by exists a].
Qed.

Lemma keeps_on_player (P : t → Prop) f :
  keeps P f →
  keeps (λ w : InputController.t * t, P w.2) (InputController.on_player f).
Proof.
  intros Hf [c p] Hp. simpl in Hp. destruct (Hf p Hp) as (q & Hq & HPq).
  exists (c, q). unfold InputController.on_player. simpl. by rewrite Hq.
Qed.

Lemma keeps_updatePosition : keeps within_jump (updatePosition buildingSystem).
Proof.
  intros p [Hm Hd].
  destruct (updatePosition_loaded buildingSystem p Hm)
    as (q & Hq & (_ & Hdq & _) & Hmq & _).
  exists q. split; [done|]. split; [done|]. by rewrite Hdq.
Qed.

Lemma keeps_setAnimation name :
  keeps within_jump (setAnimation buildingSystem name).
Proof.
  intros p [Hm Hd].
  destruct (setAnimation_loaded buildingSystem name p Hm)
    as (q & Hq & (_ & Hdq & _) & Hmq & _).
  exists q. split; [done|]. split; [done|]. by rewrite Hdq.
Qed.

Lemma keeps_move direction : keeps within_jump (move buildingSystem direction).
Proof.
  intros p [Hm Hd]. unfold move. rewrite (bool_decide_eq_true_2 _ Hm). simpl.
  destruct (isMoving _); [by apply keeps_updatePosition|].
  eexists. by split.
Qed.

Lemma keeps_rotate direction : keeps within_jump (rotate direction).
Proof.
  intros p [[m Hm] Hd]. unfold rotate. rewrite Hm. eexists.
  split; [reflexivity|]. split; [by eexists|done].
Qed.

Lemma keeps_jump : keeps within_jump (jump buildingSystem).
Proof.
  intros p [Hm Hd]. unfold jump. destruct (negb (isJumping p)); [|by exists p].
  apply and_then_returns.
  - apply keeps_setAnimation. split; [done|]. simpl. unfold maxJumpDuration. lia.
  - intros q Hq. eexists. split; [reflexivity|done].
Qed.

Lemma keeps_update deltaTime :
  keeps within_jump (update buildingSystem deltaTime).
Proof.
  intros p [[m Hm] Hd]. unfold update.
  destruct (advance_mixer_fields deltaTime p) as (Hm' & Hj' & Hd' & _).
  rewrite Hm in Hm'.
  destruct (isJumping (advance_mixer deltaTime p));
    [|eexists; split; [reflexivity|]; split; [by eexists|by rewrite Hd']].
  destruct (jump_step_loaded buildingSystem _ m Hm')
    as (p1 & -> & Hm1 & _ & _). simpl.
  destruct (landing_due p1) eqn:Hdue.
  - destruct (land_loaded buildingSystem p1 Hm1)
      as (q & -> & _ & Hdq & _ & _ & (mq & Hmq & _)).
    eexists. split; [reflexivity|]. split; [by eexists|].
    rewrite Hdq. unfold maxJumpDuration. lia.
  - eexists. split; [reflexivity|]. split; [done|].
    unfold landing_due in Hdue. apply orb_false_iff in Hdue as [_ Hdue].
    by apply Nat.leb_gt in Hdue.
Qed.

Lemma keeps_input_update :
  keeps (λ w : InputController.t * t, within_jump w.2)
        (InputController.update buildingSystem).
Proof.
  intros w Hw. unfold InputController.update.
  repeat apply and_then_returns.
  - by apply (keeps_when _ _ _ (keeps_on_player _ _ (keeps_move 1))).
  - apply keeps_when, (keeps_on_player _ _ (keeps_move (-1))).
  - apply keeps_when, (keeps_on_player _ _ (keeps_rotate 1)).
  - apply keeps_when, (keeps_on_player _ _ (keeps_rotate (-1))).
  - intros w' Hw'. apply keeps_when; [|done]. intros w'' Hw''.
    apply and_then_returns;
      [by apply (keeps_on_player _ _ keeps_jump)|].
    intros w3 Hw3. eexists. by split.
  - intros w' Hw'. apply keeps_when; [|done].
    apply (keeps_on_player _ _ (keeps_setAnimation _)).
Qed.

Lemma animate_jumpDuration deltaTime w :
  (jumpDuration w.2 < maxJumpDuration)%nat →
  (jumpDuration (state_of (Scene3D.animate buildingSystem deltaTime w)).2
   < maxJumpDuration)%nat.
Proof.
  intros Hd. unfold Scene3D.animate.
  destruct (bool_decide (is_Some (model w.2))) eqn:Hm; [|done].
  apply bool_decide_eq_true in Hm.
  assert (Hret : ∃ w', InputController.update buildingSystem w
                       >>> InputController.on_player
                             (update buildingSystem deltaTime)
                       = Returns w' ∧ within_jump w'.2).
  { apply and_then_returns.
    - by apply keeps_input_update.
    - apply (keeps_on_player _ _ (keeps_update _)). }
  destruct Hret as (w' & -> & _ & Hd'). done.
Qed.

Lemma frames_jumpDuration deltaTimes : ∀ w,
  (jumpDuration w.2 < maxJumpDuration)%nat →
  (jumpDuration (Scene3D.frames buildingSystem deltaTimes w).2
   < maxJumpDuration)%nat.
Proof.
  unfold Scene3D.frames.
  induction deltaTimes as [|dt dts IH]; intros w Hw; simpl; [done|].
  by apply IH, animate_jumpDuration.
Qed.

End Keeps.

(** C1 as amended. On every tick of a loaded, airborne character the jump
    ends exactly when, at the landing check, the height is at most
    [landingHeight] or the counter has reached [maxJumpDuration] (a
    collision has by then put the height at [landingHeight]). On the tick
    that ends the jump the height of player and model is exactly
    [landingHeight] = 2 and the counter is back at 0; the jump velocity is
    not reset: it stays as the tick computed it, lowered by the gravity,
    and after a collision reversed and halved. The counter is at most one
    more than before within the tick, is below 90 after it, and stays
    below 90 over any sequence of frames. *)
Theorem jump_ends_on_landing `{host : Host}
    (bs : option BuildingSystem.t) (deltaTime : float)
    (p : PlayerCharacter.t) :
  is_Some (PlayerCharacter.model p) →
  PlayerCharacter.isJumping p = true →
  ∃ p1 q,
    PlayerCharacter.jump_step bs (PlayerCharacter.advance_mixer deltaTime p)
    = Returns p1
    ∧ PlayerCharacter.update bs deltaTime p = Returns q
    ∧ (PlayerCharacter.isJumping q = false
       ↔ (vy (PlayerCharacter.position p1) <=? PlayerCharacter.landingHeight)
         = true
         ∨ (PlayerCharacter.maxJumpDuration
            ≤ PlayerCharacter.jumpDuration p1)%nat)
    ∧ (PlayerCharacter.isJumping q = true → q = p1)
    ∧ (PlayerCharacter.isJumping q = false →
       vy (PlayerCharacter.position q) = PlayerCharacter.landingHeight
       ∧ Spec.model_at_height q
       ∧ PlayerCharacter.jumpDuration q = 0%nat)
    ∧ PlayerCharacter.jumpVelocity q = PlayerCharacter.jumpVelocity p1
    ∧ (vy (PlayerCharacter.jumpVelocity p1)
       = vy (PlayerCharacter.jumpVelocity p) - PlayerCharacter.gravity
       ∨ vy (PlayerCharacter.jumpVelocity p1)
         = - (vy (PlayerCharacter.jumpVelocity p) - PlayerCharacter.gravity)
           * 0.5)
    ∧ PlayerCharacter.landingHeight = 2
    ∧ PlayerCharacter.maxJumpDuration = 90%nat
    ∧ (PlayerCharacter.jumpDuration p1
       ≤ S (PlayerCharacter.jumpDuration p))%nat
    ∧ (PlayerCharacter.jumpDuration q < 90)%nat
    ∧ (∀ deltaTimes c,
         (PlayerCharacter.jumpDuration p < 90)%nat →
         (PlayerCharacter.jumpDuration
            (Scene3D.frames bs deltaTimes (c, p)).2 < 90)%nat).
Proof.
  intros [m Hm] Hair.
  destruct (advance_mixer_fields deltaTime p)
    as (Hm' & Hj' & Hd' & Hv' & _).
  rewrite Hm in Hm'. rewrite Hair in Hj'.
  destruct (jump_step_loaded bs _ m Hm') as (p1 & Hp1 & Hm1 & Hv1 & Hcase).
  assert (Hvel : vy (PlayerCharacter.jumpVelocity p1)
                 = vy (PlayerCharacter.jumpVelocity p)
                   - PlayerCharacter.gravity
                 ∨ vy (PlayerCharacter.jumpVelocity p1)
                   = - (vy (PlayerCharacter.jumpVelocity p)
                        - PlayerCharacter.gravity) * 0.5).
  { rewrite Hv1, Hv'. simpl. destruct (PlayerCharacter.collides _ _ _); auto. }
  assert (Hcount : (PlayerCharacter.jumpDuration p1
                    ≤ S (PlayerCharacter.jumpDuration p))%nat).
  { destruct (PlayerCharacter.collides _ _ _).
    - destruct Hcase as (_ & -> & _). lia.
    - destruct Hcase as (_ & -> & _). lia. }
  assert (Hdue : PlayerCharacter.landing_due p1 = false →
                 PlayerCharacter.isJumping p1 = true
                 ∧ (PlayerCharacter.jumpDuration p1 < 90)%nat).
  { unfold PlayerCharacter.landing_due. intros [Hy Hn]%orb_false_iff.
    apply Nat.leb_gt in Hn. split; [|exact Hn].
    destruct (PlayerCharacter.collides _ _ _).
    - destruct Hcase as (_ & _ & Hy1). rewrite Hy1 in Hy. discriminate Hy.
    - destruct Hcase as (-> & _). by rewrite Hj'. }
  exists p1. unfold PlayerCharacter.update. rewrite Hj', Hp1. simpl.
  destruct (PlayerCharacter.landing_due p1) eqn:Hland.
  - destruct (land_loaded bs p1 Hm1)
      as (q & -> & Hjq & Hdq & Hvq & Hyq & Hhq).
    exists q. split; [done|]. split; [done|]. split.
    { split; [|done]. intros _. unfold PlayerCharacter.landing_due in Hland.
      apply orb_true_iff in Hland as [Hy|Hn]; [by left|right].
      by apply Nat.leb_le in Hn. }
    split; [by rewrite Hjq|]. split; [done|]. split; [done|].
    split; [done|]. split; [done|]. split; [done|]. split; [done|].
    split; [rewrite Hdq; lia|].
    intros dts c Hd. by apply (frames_jumpDuration bs dts (c, p)).
  - destruct (Hdue eq_refl) as [Hj1 Hd1].
    exists p1. split; [done|]. split; [done|]. split.
    { rewrite Hj1. split; [done|].
      unfold PlayerCharacter.landing_due in Hland.
      apply orb_false_iff in Hland as [Hy Hn]. apply Nat.leb_gt in Hn.
      intros [Hy'|Hn']; [congruence|].
      unfold PlayerCharacter.maxJumpDuration in *. lia. }
    split; [done|]. split; [by rewrite Hj1|]. split; [done|].
    split; [done|]. split; [done|]. split; [done|]. split; [done|].
    split; [done|].
    intros dts c Hd. by apply (frames_jumpDuration bs dts (c, p)).
Qed.

Lemma jump_ends_on_landing_witness :
  let bs := Some BuildingSystem.new in
  let p := Reference.descending 2.05 (-0.182) 62 in
  (is_Some (PlayerCharacter.model p) ∧ PlayerCharacter.isJumping p = true)
  ∧ ∃ p1 q,
    PlayerCharacter.jump_step (host := Reference.host) bs
      (PlayerCharacter.advance_mixer 0.016 p) = Returns p1
    ∧ PlayerCharacter.update (host := Reference.host) bs 0.016 p = Returns q
    ∧ (PlayerCharacter.isJumping q = false
       ↔ (vy (PlayerCharacter.position p1) <=? PlayerCharacter.landingHeight)
         = true
         ∨ (PlayerCharacter.maxJumpDuration
            ≤ PlayerCharacter.jumpDuration p1)%nat)
    ∧ (PlayerCharacter.isJumping q = true → q = p1)
    ∧ (PlayerCharacter.isJumping q = false →
       vy (PlayerCharacter.position q) = PlayerCharacter.landingHeight
       ∧ Spec.model_at_height q
       ∧ PlayerCharacter.jumpDuration q = 0%nat)
    ∧ PlayerCharacter.jumpVelocity q = PlayerCharacter.jumpVelocity p1
    ∧ (vy (PlayerCharacter.jumpVelocity p1)
       = vy (PlayerCharacter.jumpVelocity p) - PlayerCharacter.gravity
       ∨ vy (PlayerCharacter.jumpVelocity p1)
         = - (vy (PlayerCharacter.jumpVelocity p) - PlayerCharacter.gravity)
           * 0.5)
    ∧ PlayerCharacter.landingHeight = 2
    ∧ PlayerCharacter.maxJumpDuration = 90%nat
    ∧ (PlayerCharacter.jumpDuration p1
       ≤ S (PlayerCharacter.jumpDuration p))%nat
    ∧ (PlayerCharacter.jumpDuration q < 90)%nat
    ∧ (∀ deltaTimes c,
         (PlayerCharacter.jumpDuration p < 90)%nat →
         (PlayerCharacter.jumpDuration
            (Scene3D.frames (host := Reference.host) bs deltaTimes (c, p)).2
          < 90)%nat).
Proof.
  intros bs p.
  assert (Hm : is_Some (PlayerCharacter.model p))
    by (vm_compute; by eexists).
  assert (Hj : PlayerCharacter.isJumping p = true)
    by (vm_compute; reflexivity).
  split; [by split|].
  exact (jump_ends_on_landing (host := Reference.host) bs 0.016 p Hm Hj).
Defined.

(** C1 as stated fails in its clause on the velocity. The loaded
    character in the air at height 2.05, falling at 0.182 per tick, lands
    in the next [update]: height 2, counter 0, not jumping; its jump
    velocity is then -0.188, not zero. The same happens on the run from
    [jump ()] on the ground: still in the air after 62 ticks, landed by
    the 63rd with the velocity at about -0.188. *)
Lemma landing_keeps_velocity :
  (PlayerCharacter.isJumping (Reference.descending 2.05 (-0.182) 62) = true
   ∧ ∃ q, PlayerCharacter.update (host := Reference.host)
            (Some BuildingSystem.new) 0.016
            (Reference.descending 2.05 (-0.182) 62)
          = Returns q
       ∧ PlayerCharacter.isJumping q = false
       ∧ vy (PlayerCharacter.position q) = 2
       ∧ PlayerCharacter.jumpDuration q = 0%nat
       ∧ PlayerCharacter.jumpVelocity q = vec3 0 (-0.188) 0
       ∧ (vy (PlayerCharacter.jumpVelocity q) =? 0) = false)
  ∧ (PlayerCharacter.isJumping (Reference.after_jump 62) = true
     ∧ PlayerCharacter.isJumping (Reference.after_jump 63) = false
     ∧ vy (PlayerCharacter.position (Reference.after_jump 63)) = 2
     ∧ PlayerCharacter.jumpVelocity (Reference.after_jump 63)
       = vec3 0 (-0.18800000000000019) 0).
Proof.
  split.
  - split; [reflexivity|].
    eexists. split; [vm_compute; reflexivity|]. vm_compute. by repeat split.
  - vm_compute. by repeat split.
Qed.

(** ** Jumping against a building *)

Lemma collides_height bs point h r :
  PlayerCharacter.collides bs (set_y point h) r
  = PlayerCharacter.collides bs point r.
Proof. by destruct bs. Qed.

(** C10. [checkCollision] does not read the height of the point it is
    asked about. So whatever the altitude of a jumping character, a
    building within reach of the spot the jump would move to, at any
    height, ends the jump in that tick: the character is grounded at
    [landingHeight] with the counter at 0. *)
Theorem collision_ignores_height `{host : Host} :
  (∀ s x z r h1 h2,
     BuildingSystem.checkCollision s (vec3 x h1 z) r
     = BuildingSystem.checkCollision s (vec3 x h2 z) r)
  ∧ (∀ bs deltaTime p h,
       is_Some (PlayerCharacter.model p) →
       PlayerCharacter.isJumping p = true →
       PlayerCharacter.collides bs
         (set_y (PlayerCharacter.jump_target
                   (PlayerCharacter.jump_advance
                      (PlayerCharacter.advance_mixer deltaTime p))) h)
         PlayerCharacter.radius = true →
       ∃ q, PlayerCharacter.update bs deltaTime p = Returns q
         ∧ PlayerCharacter.isJumping q = false
         ∧ vy (PlayerCharacter.position q) = PlayerCharacter.landingHeight
         ∧ PlayerCharacter.jumpDuration q = 0%nat).
Proof.
  split; [intros; apply checkCollision_height|].
  intros bs deltaTime p h [m Hm] Hair Hhit.
  rewrite collides_height in Hhit.
  destruct (advance_mixer_fields deltaTime p) as (Hm' & Hj' & _).
  rewrite Hm in Hm'. rewrite Hair in Hj'.
  destruct (jump_step_loaded bs _ m Hm') as (p1 & Hp1 & Hm1 & _ & Hcase).
  rewrite Hhit in Hcase. destruct Hcase as (_ & _ & Hy1).
  unfold PlayerCharacter.update. rewrite Hj', Hp1. simpl.
  assert (Hdue : PlayerCharacter.landing_due p1 = true).
  { unfold PlayerCharacter.landing_due. by rewrite Hy1. }
  rewrite Hdue.
  destruct (land_loaded bs p1 Hm1) as (q & -> & Hjq & Hdq & _ & Hyq & _).
  by exists q.
Qed.

Lemma collision_ignores_height_witness :
  let bs := Some (BuildingSystem.with_buildings
                    {[(0, 1)%Z := Spec.block (vec3 0 6.47 27) 20 0]}
                    BuildingSystem.new) in
  let p := Reference.descending 100 (-0.182) 62 in
  (is_Some (PlayerCharacter.model p)
   ∧ PlayerCharacter.isJumping p = true
   ∧ PlayerCharacter.collides bs
       (set_y (PlayerCharacter.jump_target (host := Reference.host)
                 (PlayerCharacter.jump_advance
                    (PlayerCharacter.advance_mixer 0.016 p))) 0)
       PlayerCharacter.radius = true)
  ∧ ∃ q, PlayerCharacter.update (host := Reference.host) bs 0.016 p
         = Returns q
      ∧ PlayerCharacter.isJumping q = false
      ∧ vy (PlayerCharacter.position q) = PlayerCharacter.landingHeight
      ∧ PlayerCharacter.jumpDuration q = 0%nat.
Proof.
  intros bs p.
  assert (Hm : is_Some (PlayerCharacter.model p))
    by (vm_compute; by eexists).
  assert (Hj : PlayerCharacter.isJumping p = true)
    by (vm_compute; reflexivity).
  assert (Hhit : PlayerCharacter.collides bs
                   (set_y (PlayerCharacter.jump_target (host := Reference.host)
                             (PlayerCharacter.jump_advance
                                (PlayerCharacter.advance_mixer 0.016 p))) 0)
                   PlayerCharacter.radius = true).
  { unfold bs. cbn [PlayerCharacter.collides].
    rewrite checkCollision_single. vm_compute. reflexivity. }
  split; [by repeat split|].
  exact (proj2 (collision_ignores_height (host := Reference.host))
           bs 0.016 p 0 Hm Hj Hhit).
Defined.

(** ** CameraController.findSafeCameraPosition *)

(** C9. When the ray test finds every one of the five offsets obstructed,
    [findSafeCameraPosition] returns [maxOffset], which is (0, 5, 12); the
    smoothing of [update] starts from that offset. *)
Theorem all_obstructed_selects_maxOffset `{host : Host}
    (bs : option BuildingSystem.t) (target : Object3D) :
  Forall (λ offset,
            CameraController.checkCameraCollision bs target
              (add (set_y (obj_position target) CameraController.baseHeight)
                   offset) = true)
         CameraController.positions →
  CameraController.findSafeCameraPosition bs target
  = CameraController.maxOffset
  ∧ CameraController.maxOffset = vec3 0 5 12
  ∧ List.length CameraController.positions = 5%nat
  ∧ (∀ c, CameraController.currentOffset
            (CameraController.update bs target c)
          = lerp (CameraController.currentOffset c) (vec3 0 5 12) 0.1).
Proof.
  intros Hall.
  assert (Hsafe : CameraController.findSafeCameraPosition bs target
                  = CameraController.maxOffset).
  { unfold CameraController.findSafeCameraPosition.
    unfold CameraController.positions in *.
    repeat match goal with
           | Hc : Forall _ (_ :: _) |- _ =>
               apply Forall_cons in Hc as [? Hc]
           end.
    cbn [List.find].
    repeat match goal with
           | Ho : CameraController.checkCameraCollision _ _ _ = true |- _ =>
               rewrite Ho; clear Ho
           end.
    reflexivity. }
  split; [done|]. split; [done|]. split; [done|].
  intros c. unfold CameraController.update. simpl. by rewrite Hsafe.
Qed.

Lemma all_obstructed_selects_maxOffset_witness :
  let bs := Some (BuildingSystem.with_buildings
                    {[(0, 0)%Z := Spec.block (vec3 0 3 3) 2 0]}
                    BuildingSystem.new) in
  let target := {| obj_position := vec3 0 2 0; obj_rotation_y := 0 |} in
  CameraController.findSafeCameraPosition (host := Reference.host) bs target
  = CameraController.maxOffset
  ∧ CameraController.maxOffset = vec3 0 5 12
  ∧ List.length CameraController.positions = 5%nat
  ∧ (∀ c, CameraController.currentOffset
            (CameraController.update (host := Reference.host) bs target c)
          = lerp (CameraController.currentOffset c) (vec3 0 5 12) 0.1).
Proof.
  intros bs target.
  apply (all_obstructed_selects_maxOffset (host := Reference.host) bs target).
  unfold CameraController.positions, CameraController.checkCameraCollision, bs.
  cbn [BuildingSystem.buildings BuildingSystem.with_buildings].
  rewrite map_to_list_singleton.
  repeat constructor; vm_compute; reflexivity.
Defined.

(** ** Running forward *)

Section Forward.
Import PlayerCharacter Spec.
Context `{host : Host}.
Variable buildingSystem : option BuildingSystem.t.
Hypothesis exact : exact_at_right_angles host.

Lemma forward_step z :
  setFromSpherical moveSpeed (Math_PI / 2) 0
  = vec3 0 (Math_cos (Math_PI / 2) * moveSpeed) moveSpeed
  ∧ set_y (add (vec3 0 2 z)
             (multiplyScalar
                (vec3 0 (Math_cos (Math_PI / 2) * moveSpeed) moveSpeed) 1))
          2
    = vec3 0 2 (z + moveSpeed * 1).
Proof.
  destruct exact as (Hs0 & Hc0 & Hs90). split.
  - unfold setFromSpherical. rewrite Hs0, Hc0, Hs90. reflexivity.
  - reflexivity.
Qed.

(** A step is taken when the place it leads to is free. *)
Lemma updatePosition_running z time :
  collides buildingSystem (vec3 0 2 (z + moveSpeed * 1)) radius = false →
  updatePosition buildingSystem (running z time)
  = Returns (running (z + moveSpeed * 1) time).
Proof.
  intros Hfree.
  unfold updatePosition. cbn [pendingMove position rotation_y running].
  replace (0 <? 1) with true by reflexivity.
  destruct (forward_step z) as [-> Hnew]. cbn [vy]. rewrite Hnew, Hfree.
  reflexivity.
Qed.

Lemma move_running z time :
  collides buildingSystem (vec3 0 2 (z + moveSpeed * 1)) radius = false →
  move buildingSystem 1 (running z time)
  = Returns (running (z + moveSpeed * 1) time).
Proof. intros Hfree. unfold move. simpl. by apply updatePosition_running. Qed.

Lemma animate_running deltaTime z time :
  collides buildingSystem (vec3 0 2 (z + moveSpeed * 1)) radius = false →
  Scene3D.animate buildingSystem deltaTime (forward_held, running z time)
  = Returns (forward_held,
             running (z + moveSpeed * 1) (time + deltaTime * (fps / 60))).
Proof.
  intros Hfree.
  unfold Scene3D.animate, InputController.update, InputController.when,
    InputController.on_player.
  cbn [fst snd model running InputController.keys forward_held
       InputController.onKeyDown InputController.new
       InputController.forward InputController.backward
       InputController.left InputController.right InputController.jump].
  rewrite bool_decide_eq_true_2 by (by eexists).
  rewrite move_running by exact Hfree. cbn [within and_then fst snd andb].
  rewrite setAnimation_current by reflexivity.
  reflexivity.
Qed.

(** The first frame takes the loaded character from idle to running, and
    moves it at once. *)
Lemma animate_first deltaTime :
  collides buildingSystem (vec3 0 2 (0 + moveSpeed * 1)) radius = false →
  Scene3D.animate buildingSystem deltaTime
    (forward_held, Reference.loaded_player)
  = Returns (forward_held,
             running (0 + moveSpeed * 1) (0 + deltaTime * (fps / 60))).
Proof.
  intros Hfree.
  unfold Scene3D.animate, InputController.update, InputController.when,
    InputController.on_player.
  cbn [fst snd InputController.keys forward_held
       InputController.onKeyDown InputController.new
       InputController.forward InputController.backward
       InputController.left InputController.right InputController.jump].
  rewrite bool_decide_eq_true_2 by (by eexists).
  replace (move buildingSystem 1 Reference.loaded_player)
    with (Returns (set_pendingMove 1 Reference.loaded_player))
    by reflexivity.
  cbn [within and_then fst snd andb].
  replace (isJumping (set_pendingMove 1 Reference.loaded_player))
    with false by reflexivity.
  cbn [negb].
  replace (setAnimation buildingSystem Run
             (set_pendingMove 1 Reference.loaded_player))
    with (updatePosition buildingSystem
            (set_currentAction (Some Idle) (running 0 0))
          >>> λ p, Returns (set_currentAction (Some Run) p))
    by reflexivity.
  unfold updatePosition. cbn [pendingMove position rotation_y running
                              set_currentAction].
  replace (0 <? 1) with true by reflexivity.
  destruct (forward_step 0) as [-> Hnew]. cbn [vy]. rewrite Hnew, Hfree.
  reflexivity.
Qed.

(** Frames of running, as long as the places the steps lead to are
    free. *)
Lemma frames_running deltaTimes : ∀ z time,
  (∀ k, (1 ≤ k ≤ List.length deltaTimes)%nat →
     collides buildingSystem
       (vec3 0 2 (Nat.iter k (λ z, z + moveSpeed * 1) z)) radius = false) →
  ∃ time',
    Scene3D.frames buildingSystem deltaTimes (forward_held, running z time)
    = (forward_held,
       running (Nat.iter (List.length deltaTimes)
                         (λ z, z + moveSpeed * 1) z) time').
Proof.
  unfold Scene3D.frames.
  induction deltaTimes as [|dt dts IH]; intros z time Hfree; cbn [foldl].
  - by eexists.
  - rewrite animate_running
      by (apply (Hfree 1%nat); cbn [List.length]; lia).
    cbn [state_of].
    destruct (IH (z + moveSpeed * 1) (time + dt * (fps / 60))) as [t' ->].
    { intros k Hk. pose proof (Hfree (S k)) as Hnext.
      rewrite Nat.iter_succ_r in Hnext. apply Hnext.
      cbn [List.length]. lia. }
    exists t'. cbn [List.length]. by rewrite Nat.iter_succ_r.
Qed.

End Forward.

(** C8 as amended. With sine and cosine exact at 0 and pi/2 and no
    building in the way, that is none within reach of the ten places the
    steps lead to, ten frames with the forward key held take the loaded
    character from (0, 2, 0) at yaw 0 to z = 1.4999999999999998, the sum
    of ten steps of [moveSpeed] = 0.15 in the positive z direction, which
    is within 1e-15 of +1.5; x stays 0, the height stays 2, and the
    current animation is the run. The character ends at the last place of
    the path. Buildings elsewhere do not matter. *)
Theorem forward_ten_frames `{host : Host}
    (bs : option BuildingSystem.t) (deltaTimes : list float) :
  Spec.exact_at_right_angles host →
  Forall (λ point,
            PlayerCharacter.collides bs point PlayerCharacter.radius = false)
         Track.forward_path →
  List.length deltaTimes = 10%nat →
  let w := Scene3D.frames bs deltaTimes
             (Spec.forward_held, Reference.loaded_player) in
  PlayerCharacter.position Reference.loaded_player = vec3 0 2 0
  ∧ PlayerCharacter.rotation_y Reference.loaded_player = 0
  ∧ PlayerCharacter.moveSpeed = 0.15
  ∧ PlayerCharacter.position w.2 = vec3 0 2 1.4999999999999998
  ∧ (Math_abs (vz (PlayerCharacter.position w.2) - 1.5) <? 1e-15) = true
  ∧ PlayerCharacter.currentAction w.2 = Some PlayerCharacter.Run
  ∧ Track.forward_path
    = [vec3 0 2 0.15; vec3 0 2 0.3; vec3 0 2 0.44999999999999996;
       vec3 0 2 0.6; vec3 0 2 0.75; vec3 0 2 0.9; vec3 0 2 1.05;
       vec3 0 2 1.2; vec3 0 2 1.3499999999999999;
       vec3 0 2 1.4999999999999998]
  ∧ last Track.forward_path = Some (PlayerCharacter.position w.2).
Proof.
  intros Hexact Hpath Hlen w. do 3 (split; [reflexivity|]).
  assert (Hfree : ∀ k z, (1 ≤ k ≤ 10)%nat →
            z = Nat.iter k (λ z, z + PlayerCharacter.moveSpeed * 1) 0 →
            PlayerCharacter.collides bs (vec3 0 2 z) PlayerCharacter.radius
            = false).
  { intros k z Hk ->. rewrite Forall_forall in Hpath. apply Hpath.
    unfold Track.forward_path. apply list_elem_of_fmap.
    exists k. split; [done|]. apply elem_of_seq. lia. }
  destruct deltaTimes as [|dt dts]; [discriminate Hlen|].
  injection Hlen as Hlen.
  assert (Hw : ∃ time, w = (Spec.forward_held,
                            Spec.running 1.4999999999999998 time)).
  { unfold w, Scene3D.frames. cbn [foldl].
    rewrite (animate_first bs Hexact)
      by (apply (Hfree 1%nat); [lia|reflexivity]).
    cbn [state_of].
    destruct (frames_running bs Hexact dts
                (0 + PlayerCharacter.moveSpeed * 1)
                (0 + dt * (PlayerCharacter.fps / 60))) as [time Hrun].
    { intros k Hk. apply (Hfree (S k)); [lia|].
      by rewrite Nat.iter_succ_r. }
    unfold Scene3D.frames in Hrun. rewrite Hrun, Hlen.
    exists time. reflexivity. }
  destruct Hw as [time ->]. by repeat split.
Qed.

Lemma forward_ten_frames_witness :
  let bs := Some (BuildingSystem.with_buildings
                    {[(0, 0)%Z := Spec.block (vec3 5 6.47 1) 4 0]}
                    BuildingSystem.new) in
  let w := Scene3D.frames (host := Reference.host) bs (replicate 10 0.016)
             (Spec.forward_held, Reference.loaded_player) in
  (Spec.exact_at_right_angles Reference.host
   ∧ Forall (λ point,
               PlayerCharacter.collides bs point PlayerCharacter.radius
               = false)
            Track.forward_path
   ∧ PlayerCharacter.collides bs (vec3 3 2 1) PlayerCharacter.radius = true
   ∧ List.length (replicate 10 (0.016 : float)) = 10%nat)
  ∧ PlayerCharacter.position Reference.loaded_player = vec3 0 2 0
  ∧ PlayerCharacter.rotation_y Reference.loaded_player = 0
  ∧ PlayerCharacter.moveSpeed = 0.15
  ∧ PlayerCharacter.position w.2 = vec3 0 2 1.4999999999999998
  ∧ (Math_abs (vz (PlayerCharacter.position w.2) - 1.5) <? 1e-15) = true
  ∧ PlayerCharacter.currentAction w.2 = Some PlayerCharacter.Run
  ∧ Track.forward_path
    = [vec3 0 2 0.15; vec3 0 2 0.3; vec3 0 2 0.44999999999999996;
       vec3 0 2 0.6; vec3 0 2 0.75; vec3 0 2 0.9; vec3 0 2 1.05;
       vec3 0 2 1.2; vec3 0 2 1.3499999999999999;
       vec3 0 2 1.4999999999999998]
  ∧ last Track.forward_path = Some (PlayerCharacter.position w.2).
Proof.
  intros bs w.
  assert (Hexact : Spec.exact_at_right_angles Reference.host)
    by (vm_compute; by repeat split).
  assert (Hhit : ∀ point,
            PlayerCharacter.collides bs point PlayerCharacter.radius
            = BuildingSystem.tooClose point PlayerCharacter.radius
                (Spec.block (vec3 5 6.47 1) 4 0)).
  { intros point. unfold bs. cbn [PlayerCharacter.collides].
    apply checkCollision_single. }
  assert (Hpath : Forall (λ point,
                     PlayerCharacter.collides bs point PlayerCharacter.radius
                     = false)
                    Track.forward_path).
  { apply Forall_forall. intros point Hin. rewrite Hhit.
    revert point Hin. apply Forall_forall.
    unfold Track.forward_path. cbn [map seq].
    repeat constructor; vm_compute; reflexivity. }
  assert (Hlen : List.length (replicate 10 (0.016 : float)) = 10%nat)
    by reflexivity.
  split.
  - split; [exact Hexact|]. split; [exact Hpath|]. split; [|exact Hlen].
    rewrite Hhit. vm_compute. reflexivity.
  - exact (forward_ten_frames (host := Reference.host) bs
             (replicate 10 0.016) Hexact Hpath Hlen).
Defined.

(** C8 as stated fails in the sign: the forward direction of yaw 0 is the
    positive z axis. On the reference host, ten frames with the forward key
    held and no building end at z = 1.4999999999999998, which is 3 away
    from -1.5; the animation is the run. *)
Lemma forward_is_positive_z :
  let w := Scene3D.frames (host := Reference.host) (Some BuildingSystem.new)
             (replicate 10 0.016)
             (Spec.forward_held, Reference.loaded_player) in
  PlayerCharacter.position w.2 = vec3 0 2 1.4999999999999998
  ∧ (Math_abs (vz (PlayerCharacter.position w.2) - (-1.5)) <? 1) = false
  ∧ (0 <? vz (PlayerCharacter.position w.2)) = true
  ∧ PlayerCharacter.currentAction w.2 = Some PlayerCharacter.Run.
Proof. vm_compute. by repeat split. Qed.

(* ===================================================================== *)
(** * Part III: further properties of the code                            *)
(* ===================================================================== *)

(** ** The loaded player between frames *)

Section Steady.
Import PlayerCharacter Invariant.
Context `{host : Host}.
Variable bs : option BuildingSystem.t.

(** What [updatePosition] does to a mirrored player: the step is taken,
    to a place that is clear, or nothing changes. *)
Lemma updatePosition_effect p :
  mirrored p →
  ∃ q, updatePosition bs p = Returns q
    ∧ mirrored q ∧ Spec.same_jump p q ∧ (clear bs p → clear bs q)
    ∧ isMoving q = isMoving p ∧ currentAction q = currentAction p
    ∧ animations q = animations p ∧ rotation_y q = rotation_y p
    ∧ pendingMove q = pendingMove p.
Proof.
  intros Hmir. unfold updatePosition.
  destruct (collides bs _ radius) eqn:Hhit; simpl.
  - exists p. by repeat split.
  - unfold model_position_copy. simpl. rewrite Hmir. eexists.
    split; [reflexivity|]. by repeat split.
Qed.

(** What [setAnimation] does to a mirrored player. *)
Lemma setAnimation_effect name p :
  mirrored p →
  ∃ q, setAnimation bs name p = Returns q
    ∧ mirrored q ∧ Spec.same_jump p q ∧ (clear bs p → clear bs q)
    ∧ animations q = animations p ∧ rotation_y q = rotation_y p
    ∧ pendingMove q = pendingMove p
    ∧ (gait_matches p → gait_matches q)
    ∧ (if has (animations p) name
          && bool_decide (is_Some (currentAction p))
       then currentAction q = Some name
       else currentAction q = currentAction p ∧ isMoving q = isMoving p).
Proof.
  intros Hmir. unfold setAnimation.
  destruct (has (animations p) name) eqn:Hhas; cbn [negb orb andb];
    [|exists p; by repeat split].
  destruct (bool_decide (is_Some (currentAction p))) eqn:Hcur;
    cbn [negb orb andb]; [|exists p; by repeat split].
  destruct (bool_decide (currentAction p = Some name)) eqn:Hsame.
  { apply bool_decide_eq_true in Hsame. exists p. by repeat split. }
  set (p' := set_isMoving _ p).
  assert (Hgait : isMoving p' = is_gait (Some name)) by (by destruct name).
  assert (Hmir' : mirrored p') by done.
  destruct (isMoving p' && neqb (pendingMove p') 0).
  - destruct (updatePosition_effect p' Hmir')
      as (q & -> & Hq & Hsame' & Hclr & Hmov & Hact & Hani & Hrot & Hpm).
    cbn [and_then]. eexists. split; [reflexivity|].
    split; [done|]. split; [done|]. split; [done|]. split; [done|].
    split; [done|]. split; [done|]. split; [|done].
    intros _. unfold gait_matches. simpl. by rewrite Hmov.
  - cbn [and_then]. eexists. split; [reflexivity|]. repeat split; try done.
Qed.

Lemma move_effect direction p :
  mirrored p →
  ∃ q, move bs direction p = Returns q
    ∧ mirrored q ∧ Spec.same_jump p q ∧ (clear bs p → clear bs q)
    ∧ isMoving q = isMoving p ∧ currentAction q = currentAction p
    ∧ animations q = animations p ∧ rotation_y q = rotation_y p
    ∧ pendingMove q = direction.
Proof.
  intros Hmir. unfold move. rewrite Hmir.
  rewrite bool_decide_eq_true_2 by (by eexists). simpl.
  destruct (isMoving p) eqn:Hmov.
  - destruct (updatePosition_effect (set_pendingMove direction p) Hmir)
      as (q & -> & Hq & Hsame' & Hclr & Hmov' & Hact & Hani & Hrot & Hpm).
    exists q. split; [done|]. repeat split; try done; try apply Hsame'.
    by rewrite Hmov'.
  - eexists. split; [reflexivity|]. by repeat split.
Qed.

Lemma rotate_effect direction p :
  mirrored p →
  ∃ q, rotate direction p = Returns q
    ∧ mirrored q ∧ Spec.same_jump p q ∧ position q = position p
    ∧ isMoving q = isMoving p ∧ currentAction q = currentAction p
    ∧ animations q = animations p
    ∧ rotation_y q = rotation_y p + direction * rotateSpeed
    ∧ pendingMove q = pendingMove p.
Proof.
  intros Hmir. unfold rotate. rewrite Hmir. eexists.
  split; [reflexivity|]. by repeat split.
Qed.

(** [jump ()] on the ground starts the jump where the player stands;
    in the air it does nothing. *)
Lemma jump_effect p :
  mirrored p →
  ∃ q, jump bs p = Returns q
    ∧ mirrored q ∧ position q = position p ∧ rotation_y q = rotation_y p
    ∧ animations q = animations p
    ∧ (gait_matches p → gait_matches q)
    ∧ if isJumping p then q = p
      else isJumping q = true ∧ jumpDuration q = 0%nat
           ∧ jumpVelocity q = vec3 0 jumpSpeed 0.
Proof.
  intros Hmir. unfold jump. destruct (isJumping p) eqn:Hj; simpl.
  { exists p. by repeat split. }
  set (p' := set_jumpDuration 0 (set_isJumping true p)).
  destruct (setAnimation_effect Jump p' Hmir)
    as (q & Hq & Hmq & (Hjq & Hdq & Hvq & Hyq) & _ & Hani & Hrot & _
        & Hgait & Hcur).
  rewrite Hq. simpl. eexists. split; [reflexivity|]. simpl.
  assert (Hpos : position q = position p).
  { unfold setAnimation in Hq.
    destruct (negb (has (animations p') Jump) || _); [by injection Hq as <-|].
    destruct (bool_decide (currentAction p' = Some Jump));
      [by injection Hq as <-|].
    simpl in Hq. by injection Hq as <-. }
  split; [exact Hmq|]. split; [exact Hpos|]. split; [exact Hrot|].
  split; [exact Hani|]. split; [exact Hgait|].
  split; [exact Hjq|]. split; [exact Hdq|]. reflexivity.
Qed.

Lemma clear_height p h :
  clear bs p → clear bs (set_position (set_y (position p) h) p).
Proof. unfold clear. simpl. by rewrite collides_height. Qed.

Lemma land_effect p :
  mirrored p →
  ∃ q, land bs p = Returns q
    ∧ mirrored q ∧ isJumping q = false ∧ jumpDuration q = 0%nat
    ∧ vy (position q) = landingHeight
    ∧ jumpVelocity q = jumpVelocity p
    ∧ (clear bs p → clear bs q) ∧ (gait_matches p → gait_matches q).
Proof.
  intros Hmir. unfold land, model_position_set_y. simpl. rewrite Hmir.
  cbn [and_then obj_position obj_rotation_y].
  match goal with |- ∃ x, setAnimation _ ?n ?a = _ ∧ _ =>
    destruct (setAnimation_effect n a)
      as (q & Hq & Hmq & (Hjq & Hdq & Hvq & Hyq) & Hclr & _ & _ & _
          & Hgait & _); [reflexivity|]
  end.
  exists q. split; [exact Hq|]. split; [exact Hmq|].
  split; [exact Hjq|]. split; [exact Hdq|]. split; [exact Hyq|].
  split; [exact Hvq|]. split; [|exact Hgait].
  intros Hc. apply Hclr. by apply (clear_height p landingHeight).
Qed.

Lemma jump_step_effect p :
  mirrored p →
  ∃ p1, jump_step bs p = Returns p1
    ∧ mirrored p1
    ∧ (gait_matches p → gait_matches p1)
    ∧ (clear bs p → clear bs p1)
    ∧ if collides bs (jump_target (jump_advance p)) radius
      then isJumping p1 = false ∧ jumpDuration p1 = 0%nat
           ∧ vy (position p1) = landingHeight
      else isJumping p1 = isJumping p
           ∧ jumpDuration p1 = S (jumpDuration p)
           ∧ position p1 = jump_target (jump_advance p)
           ∧ clear bs p1.
Proof.
  intros Hmir. unfold jump_step.
  destruct (collides _ _ _) eqn:Hhit; cbn [negb].
  - unfold model_position_set_y. simpl. rewrite Hmir.
    cbn [and_then obj_position obj_rotation_y].
    match goal with |- ∃ x, setAnimation _ ?n ?a = _ ∧ _ =>
      destruct (setAnimation_effect n a)
        as (q & Hq & Hmq & (Hjq & Hdq & Hvq & Hyq) & Hclr & _ & _ & _
            & Hgait & _); [reflexivity|]
    end.
    exists q. split; [exact Hq|]. split; [exact Hmq|].
    split; [exact Hgait|]. split; [|by repeat split].
    intros Hc. apply Hclr. by apply (clear_height p landingHeight).
  - unfold model_position_copy. simpl. rewrite Hmir. eexists.
    split; [reflexivity|]. by repeat split.
Qed.

Lemma advance_mixer_steady strict deltaTime p :
  steady strict bs p → steady strict bs (advance_mixer deltaTime p).
Proof. unfold advance_mixer. by destruct (mixer p). Qed.

Lemma keeps_steady_update strict deltaTime :
  Spec.keeps (steady strict bs) (update bs deltaTime).
Proof.
  intros p0 Hp0. unfold update.
  pose proof (advance_mixer_steady strict deltaTime p0 Hp0) as Hp.
  set (p := advance_mixer deltaTime p0) in *. clearbody p.
  destruct Hp as (Hmir & Hrest & Hgait & Hjd & Hclr).
  destruct (isJumping p) eqn:Hair;
    [|exists p;
      exact (conj eq_refl
               (conj Hmir (conj Hrest (conj Hgait (conj Hjd Hclr)))))].
  destruct (jump_step_effect p Hmir) as (p1 & -> & Hm1 & Hg1 & Hc1 & Hcase).
  cbn [and_then].
  assert (Hc1' : strict = true → clear bs p1).
  { intros Hs. destruct (collides _ _ _); [by apply Hc1, Hclr|].
    by destruct Hcase as (_ & _ & _ & ?). }
  destruct (landing_due p1) eqn:Hdue.
  - destruct (land_effect p1 Hm1)
      as (q & -> & Hmq & Hjq & Hdq & Hyq & _ & Hcq & Hgq).
    exists q. split; [done|]. split; [done|]. split; [by intros _|].
    split; [by apply Hgq, Hg1|]. split; [rewrite Hdq; unfold maxJumpDuration; lia|].
    intros Hs. by apply Hcq, Hc1'.
  - exists p1. split; [done|].
    unfold landing_due in Hdue. apply orb_false_iff in Hdue as [Hy Hn].
    apply Nat.leb_gt in Hn.
    assert (Hj1 : isJumping p1 = true).
    { destruct (collides _ _ _).
      - destruct Hcase as (_ & _ & Hy1). rewrite Hy1 in Hy. discriminate Hy.
      - destruct Hcase as (-> & _). done. }
    split; [done|]. split; [intros Hf; congruence|].
    split; [by apply Hg1|]. by split.
Qed.

Lemma keeps_steady_updatePosition strict :
  Spec.keeps (steady strict bs) (updatePosition bs).
Proof.
  intros p (Hmir & Hrest & Hgait & Hjd & Hclr).
  destruct (updatePosition_effect p Hmir)
    as (q & Hq & Hmq & (Hjq & Hdq & Hvq & Hyq) & Hcq & Hmov & Hact & _).
  exists q. split; [done|]. split; [done|].
  split; [intros Hg; rewrite Hyq, Hdq; apply Hrest; congruence|].
  split; [unfold gait_matches; by rewrite Hmov, Hact|].
  split; [by rewrite Hdq|]. intros Hs. by apply Hcq, Hclr.
Qed.

Lemma keeps_steady_setAnimation strict name :
  Spec.keeps (steady strict bs) (setAnimation bs name).
Proof.
  intros p (Hmir & Hrest & Hgait & Hjd & Hclr).
  destruct (setAnimation_effect name p Hmir)
    as (q & Hq & Hmq & (Hjq & Hdq & Hvq & Hyq) & Hcq & _ & _ & _ & Hgq & _).
  exists q. split; [done|]. split; [done|].
  split; [intros Hg; rewrite Hyq, Hdq; apply Hrest; congruence|].
  split; [by apply Hgq|].
  split; [by rewrite Hdq|]. intros Hs. by apply Hcq, Hclr.
Qed.

Lemma keeps_steady_move strict direction :
  Spec.keeps (steady strict bs) (move bs direction).
Proof.
  intros p (Hmir & Hrest & Hgait & Hjd & Hclr).
  destruct (move_effect direction p Hmir)
    as (q & Hq & Hmq & (Hjq & Hdq & Hvq & Hyq) & Hcq & Hmov & Hact & _).
  exists q. split; [done|]. split; [done|].
  split; [intros Hg; rewrite Hyq, Hdq; apply Hrest; congruence|].
  split; [unfold gait_matches; by rewrite Hmov, Hact|].
  split; [by rewrite Hdq|]. intros Hs. by apply Hcq, Hclr.
Qed.

Lemma keeps_steady_rotate strict direction :
  Spec.keeps (steady strict bs) (rotate direction).
Proof.
  intros p (Hmir & Hrest & Hgait & Hjd & Hclr).
  destruct (rotate_effect direction p Hmir)
    as (q & Hq & Hmq & (Hjq & Hdq & Hvq & Hyq) & Hpos & Hmov & Hact & _).
  exists q. split; [done|]. split; [done|].
  split; [intros Hg; rewrite Hyq, Hdq; apply Hrest; congruence|].
  split; [unfold gait_matches; by rewrite Hmov, Hact|].
  split; [by rewrite Hdq|]. intros Hs. unfold clear. rewrite Hpos.
  by apply Hclr.
Qed.

Lemma keeps_steady_jump strict :
  Spec.keeps (steady strict bs) (jump bs).
Proof.
  intros p (Hmir & Hrest & Hgait & Hjd & Hclr).
  destruct (jump_effect p Hmir)
    as (q & Hq & Hmq & Hpos & _ & _ & Hgq & Hcase).
  exists q. split; [done|].
  destruct (isJumping p);
    [subst q;
     exact (conj Hmir (conj Hrest (conj Hgait (conj Hjd Hclr))))|].
  destruct Hcase as (Hjq & Hdq & _).
  split; [done|]. split; [intros Hg; congruence|]. split; [by apply Hgq|].
  split; [rewrite Hdq; unfold maxJumpDuration; lia|].
  intros Hs. unfold clear. rewrite Hpos. by apply Hclr.
Qed.

(** The input controller and a frame, on the steady player. *)
Lemma keeps_steady_input strict :
  Spec.keeps (λ w : InputController.t * t, steady strict bs w.2)
             (InputController.update bs).
Proof.
  intros w Hw. unfold InputController.update.
  repeat apply and_then_returns.
  - by apply (keeps_when _ _ _
                (keeps_on_player _ _ (keeps_steady_move strict 1))).
  - apply keeps_when, (keeps_on_player _ _ (keeps_steady_move strict (-1))).
  - apply keeps_when, (keeps_on_player _ _ (keeps_steady_rotate strict 1)).
  - apply keeps_when, (keeps_on_player _ _ (keeps_steady_rotate strict (-1))).
  - intros w' Hw'. apply keeps_when; [|done]. intros w'' Hw''.
    apply and_then_returns;
      [by apply (keeps_on_player _ _ (keeps_steady_jump strict))|].
    intros w3 Hw3. eexists. by split.
  - intros w' Hw'. apply keeps_when; [|done].
    apply (keeps_on_player _ _ (keeps_steady_setAnimation strict _)).
Qed.

Lemma keeps_steady_animate strict deltaTime :
  Spec.keeps (λ w : InputController.t * t, steady strict bs w.2)
             (Scene3D.animate bs deltaTime).
Proof.
  intros w Hw. unfold Scene3D.animate.
  destruct Hw as (Hmir & Hrest). rewrite bool_decide_eq_true_2
    by (rewrite Hmir; by eexists).
  apply and_then_returns; [by apply keeps_steady_input|].
  apply (keeps_on_player _ _ (keeps_steady_update strict _)).
Qed.

End Steady.

(** ** Sessions of the loaded player *)

Section Sessions.
Import PlayerCharacter Invariant.
Context `{host : Host}.

Lemma steady_any strict bs bs' p : steady strict bs p → steady false bs' p.
Proof.
  intros (H1 & H2 & H3 & H4 & _).
  exact (conj H1 (conj H2 (conj H3 (conj H4
           (λ H, False_ind _ (Bool.diff_false_true H)))))).
Qed.

Lemma load_steady clips bs : steady false bs (load clips new).
Proof.
  assert (Hlt : (0 < maxJumpDuration)%nat) by (unfold maxJumpDuration; lia).
  unfold load. destruct (has_idle clips);
    (split; [reflexivity|]; split; [by intros _|]; split; [reflexivity|];
     split; [exact Hlt|discriminate]).
Qed.

Lemma handle_steady strict bs e w :
  (strict = true → Session.frames_see bs e) →
  steady strict bs w.2 →
  steady strict bs (Session.handle e w).2
  ∧ ∀ bs' deltaTime, e = Session.Frame bs' deltaTime →
      ∃ w', Scene3D.animate bs' deltaTime w = Returns w'.
Proof.
  intros Hsee Hw.
  destruct e as [code|code|bs' deltaTime]; cbn [Session.handle snd];
    [split; [done|discriminate]..|].
  destruct strict.
  - assert (Hbs : bs' = bs) by (by apply Hsee). subst bs'.
    destruct (keeps_steady_animate bs true deltaTime w Hw) as (w' & Hret & Hw').
    rewrite Hret. split; [done|].
    intros bs'' dt' [= <- <-]. by exists w'.
  - destruct (keeps_steady_animate bs' false deltaTime w
                (steady_any false bs bs' _ Hw)) as (w' & Hret & Hw').
    rewrite Hret. split; [by apply (steady_any false bs' bs)|].
    intros bs'' dt' [= <- <-]. by exists w'.
Qed.

Lemma run_steady strict bs events : ∀ w,
  (strict = true → Forall (Session.frames_see bs) events) →
  steady strict bs w.2 →
  steady strict bs (Session.run events w).2.
Proof.
  unfold Session.run.
  induction events as [|e events IH]; intros w Hsee Hw; cbn [foldl]; [done|].
  apply IH.
  - intros Hs. by apply Forall_cons in Hsee as [_ ?].
  - apply handle_steady; [|done].
    intros Hs. by apply Forall_cons in Hsee as [? _].
Qed.

End Sessions.

(** X1. Once the character is loaded, no frame raises an exception: after
    any events, [animate] returns, whatever building system it finds. *)
Theorem loaded_frames_return `{host : Host}
    (clips : PlayerCharacter.Animations) (events : list Session.Event)
    (c : InputController.t) (bs : option BuildingSystem.t)
    (deltaTime : float) :
  ∃ w, Scene3D.animate bs deltaTime
         (Session.run events
            (c, PlayerCharacter.load clips PlayerCharacter.new))
       = Returns w
    ∧ is_Some (PlayerCharacter.model w.2).
Proof.
  pose proof (run_steady false bs events
                (c, PlayerCharacter.load clips PlayerCharacter.new)
                (λ H, False_ind _ (Bool.diff_false_true H))
                (load_steady clips bs)) as Hrun.
  destruct (keeps_steady_animate bs false deltaTime _ Hrun)
    as (w & Hret & Hmir & _).
  exists w. split; [done|]. rewrite Hmir. by eexists.
Qed.

(** X2. In every state of a session the model of the loaded character
    stands at the player's position and has the player's yaw. *)
Theorem model_follows_player `{host : Host}
    (clips : PlayerCharacter.Animations) (events : list Session.Event)
    (c : InputController.t) :
  let p := (Session.run events
              (c, PlayerCharacter.load clips PlayerCharacter.new)).2 in
  PlayerCharacter.model p
  = Some {| obj_position := PlayerCharacter.position p;
            obj_rotation_y := PlayerCharacter.rotation_y p |}.
Proof.
  intros p.
  by destruct (run_steady false None events
                 (c, PlayerCharacter.load clips PlayerCharacter.new)
                 (λ H, False_ind _ (Bool.diff_false_true H))
                 (load_steady clips None)) as (Hmir & _).
Qed.

(** X3. In every state of a session in which the loaded character is not
    jumping, its height is exactly [landingHeight] = 2 and the jump counter
    is 0. *)
Theorem grounded_at_landing_height `{host : Host}
    (clips : PlayerCharacter.Animations) (events : list Session.Event)
    (c : InputController.t) :
  let p := (Session.run events
              (c, PlayerCharacter.load clips PlayerCharacter.new)).2 in
  PlayerCharacter.isJumping p = false →
  vy (PlayerCharacter.position p) = 2
  ∧ PlayerCharacter.jumpDuration p = 0%nat.
Proof.
  intros p.
  by destruct (run_steady false None events
                 (c, PlayerCharacter.load clips PlayerCharacter.new)
                 (λ H, False_ind _ (Bool.diff_false_true H))
                 (load_steady clips None)) as (_ & Hrest & _).
Qed.

Lemma grounded_at_landing_height_witness :
  let p := (Session.run (host := Reference.host)
              [Session.KeyDown InputController.KeyW;
               Session.Frame (Some BuildingSystem.new) 0.016;
               Session.KeyDown InputController.KeyA;
               Session.Frame (Some BuildingSystem.new) 0.016]
              (InputController.new, Reference.loaded_player)).2 in
  PlayerCharacter.isJumping p = false
  ∧ vy (PlayerCharacter.position p) = 2
  ∧ PlayerCharacter.jumpDuration p = 0%nat.
Proof.
  intros p.
  assert (Hp : PlayerCharacter.isJumping p = false)
    by (vm_compute; reflexivity).
  split; [exact Hp|].
  exact (grounded_at_landing_height (host := Reference.host)
           {| PlayerCharacter.has_idle := true; PlayerCharacter.has_run := true;
              PlayerCharacter.has_walk := true;
              PlayerCharacter.has_jump := true |}
           [Session.KeyDown InputController.KeyW;
            Session.Frame (Some BuildingSystem.new) 0.016;
            Session.KeyDown InputController.KeyA;
            Session.Frame (Some BuildingSystem.new) 0.016]
           InputController.new Hp).
Defined.

(** X4. In every state of a session [isMoving] is set exactly when the
    current animation of the loaded character is the run or the walk. *)
Theorem moving_flag_matches_animation `{host : Host}
    (clips : PlayerCharacter.Animations) (events : list Session.Event)
    (c : InputController.t) :
  let p := (Session.run events
              (c, PlayerCharacter.load clips PlayerCharacter.new)).2 in
  PlayerCharacter.isMoving p = true
  ↔ PlayerCharacter.currentAction p = Some PlayerCharacter.Run
    ∨ PlayerCharacter.currentAction p = Some PlayerCharacter.Walk.
Proof.
  intros p.
  destruct (run_steady false None events
              (c, PlayerCharacter.load clips PlayerCharacter.new)
              (λ H, False_ind _ (Bool.diff_false_true H))
              (load_steady clips None)) as (_ & _ & Hgait & _).
  fold p in Hgait. unfold Invariant.gait_matches in Hgait. rewrite Hgait.
  destruct (PlayerCharacter.currentAction p) as [[]|]; simpl;
    naive_solver.
Qed.

(** X5. If the loaded character starts clear of the buildings and every
    frame of the session finds the same buildings, the character is clear
    of them in every state of the session: no move and no jump takes it
    within reach of a building. *)
Theorem player_stays_clear `{host : Host}
    (bs : option BuildingSystem.t) (clips : PlayerCharacter.Animations)
    (events : list Session.Event) (c : InputController.t) :
  Forall (Session.frames_see bs) events →
  PlayerCharacter.collides bs (vec3 0 2 0) PlayerCharacter.radius = false →
  PlayerCharacter.collides bs
    (PlayerCharacter.position
       (Session.run events
          (c, PlayerCharacter.load clips PlayerCharacter.new)).2)
    PlayerCharacter.radius = false.
Proof.
  intros Hsee Hclear.
  assert (Hstart : Invariant.steady true bs
                     (PlayerCharacter.load clips PlayerCharacter.new)).
  { destruct (load_steady clips bs) as (H1 & H2 & H3 & H4 & _).
    refine (conj H1 (conj H2 (conj H3 (conj H4 (λ _, _))))).
    unfold Invariant.clear, PlayerCharacter.load.
    by destruct (PlayerCharacter.has_idle clips). }
  destruct (run_steady true bs events
              (c, PlayerCharacter.load clips PlayerCharacter.new)
              (λ _, Hsee) Hstart) as (_ & _ & _ & _ & Hclr).
  by apply Hclr.
Qed.

Lemma player_stays_clear_witness :
  let bs := Some (BuildingSystem.with_buildings
                    {[(0, 1)%Z := Spec.block (vec3 0 6.47 30) 20 0]}
                    BuildingSystem.new) in
  let events := Session.KeyDown InputController.KeyW
                :: replicate 200 (Session.Frame bs 0.016) in
  PlayerCharacter.collides bs
    (PlayerCharacter.position
       (Session.run (host := Reference.host) events
          (InputController.new, Reference.loaded_player)).2)
    PlayerCharacter.radius = false.
Proof.
  intros bs events.
  apply (player_stays_clear (host := Reference.host) bs
           {| PlayerCharacter.has_idle := true; PlayerCharacter.has_run := true;
              PlayerCharacter.has_walk := true;
              PlayerCharacter.has_jump := true |}
           events InputController.new).
  - unfold events. constructor; [exact I|].
    apply Forall_replicate. reflexivity.
  - unfold bs. cbn [PlayerCharacter.collides].
    rewrite checkCollision_single. vm_compute. reflexivity.
Defined.

(** On the reference host, 200 frames of running at a building 30 units
    ahead stop the character short of it. *)
Example running_into_a_building :
  let bs := Some (BuildingSystem.with_buildings
                    {[(0, 1)%Z := Spec.block (vec3 0 6.47 30) 20 0]}
                    BuildingSystem.new) in
  let p := (Session.run (host := Reference.host)
              (Session.KeyDown InputController.KeyW
               :: replicate 200 (Session.Frame bs 0.016))
              (InputController.new, Reference.loaded_player)).2 in
  (vz (PlayerCharacter.position p) <? 18.48) = true
  ∧ (18.3 <? vz (PlayerCharacter.position p)) = true.
Proof. vm_compute. by split. Qed.

(** ** InputController *)

Section Input.
Import PlayerCharacter Invariant.
Context `{host : Host}.
Variable bs : option BuildingSystem.t.

Lemma steered_refl p : mirrored p → steered p p.
Proof. intros Hmir. split; [done|]. split; [apply same_jump_refl|done]. Qed.

Lemma steered_trans p q r : steered p q → steered q r → steered p r.
Proof.
  intros (_ & Hs1 & Ha1 & Hm1 & Hn1) (Hmir & Hs2 & Ha2 & Hm2 & Hn2).
  split; [done|]. split; [by apply (same_jump_trans p q r)|].
  repeat split; congruence.
Qed.

Lemma and_then_step {A} (P Q : A → Prop) (o : outcome A) g :
  (∃ b, o = Returns b ∧ P b) →
  (∀ a, P a → ∃ c, g a = Returns c ∧ Q c) →
  ∃ c, o >>> g = Returns c ∧ Q c.
Proof. intros (b & -> & Hb) Hg. simpl. by apply Hg. Qed.

(** A steering method of the player, run from the controller when its key
    is down. *)
Lemma steering_stage (held : bool) f (w0 w : InputController.t * t) :
  (∀ p, mirrored p → ∃ q, f p = Returns q ∧ steered p q) →
  w.1 = w0.1 ∧ steered w0.2 w.2 →
  ∃ w', InputController.when held (InputController.on_player f) w
        = Returns w'
    ∧ w'.1 = w0.1 ∧ steered w0.2 w'.2.
Proof.
  intros Hf [Hc Hs]. unfold InputController.when, InputController.on_player.
  destruct held; [|by exists w].
  destruct (Hf w.2) as (q & -> & Hq); [apply Hs|].
  exists (w.1, q). split; [done|]. split; [done|].
  by apply (steered_trans _ w.2).
Qed.

Lemma move_steers direction p :
  mirrored p → ∃ q, move bs direction p = Returns q ∧ steered p q.
Proof.
  intros Hmir.
  destruct (move_effect bs direction p Hmir)
    as (q & Hq & Hmq & Hsame & _ & Hmov & Hact & Hani & _).
  exists q.
  exact (conj Hq (conj Hmq (conj Hsame (conj Hact (conj Hmov Hani))))).
Qed.

Lemma rotate_steers direction p :
  mirrored p → ∃ q, rotate direction p = Returns q ∧ steered p q.
Proof.
  intros Hmir.
  destruct (rotate_effect direction p Hmir)
    as (q & Hq & Hmq & Hsame & _ & Hmov & Hact & Hani & _).
  exists q.
  exact (conj Hq (conj Hmq (conj Hsame (conj Hact (conj Hmov Hani))))).
Qed.

(** [InputController.update] on a mirrored player, stage by stage: the
    steering, then the jump if it fires, then the animation if the player
    is on the ground. *)
Lemma input_update_effect w :
  mirrored w.2 →
  ∃ w4 w5 w',
    InputController.update bs w = Returns w'
    ∧ (w4.1 = w.1 ∧ steered w.2 w4.2)
    ∧ (if fires w.1 w.2
       then jump bs w4.2 = Returns w5.2
            ∧ w5.1 = InputController.set_jumpPressed false w.1
       else w5 = w4)
    ∧ w'.1 = w5.1
    ∧ (if isJumping w5.2 then w' = w5
       else setAnimation bs (asked w.1) w5.2 = Returns w'.2).
Proof.
  intros Hmir. unfold InputController.update.
  assert (Hsteer : ∃ w4,
    InputController.when (InputController.forward (InputController.keys w.1))
      (InputController.on_player (move bs 1)) w
    >>> InputController.when
          (InputController.backward (InputController.keys w.1))
          (InputController.on_player (move bs (-1)))
    >>> InputController.when (InputController.left (InputController.keys w.1))
          (InputController.on_player (rotate 1))
    >>> InputController.when
          (InputController.right (InputController.keys w.1))
          (InputController.on_player (rotate (-1)))
    = Returns w4 ∧ w4.1 = w.1 ∧ steered w.2 w4.2).
  { repeat apply and_then_returns.
    - apply steering_stage; [apply move_steers|].
      split; [done|by apply steered_refl].
    - intros a Ha. by apply steering_stage; [apply move_steers|].
    - intros a Ha. by apply steering_stage; [apply rotate_steers|].
    - intros a Ha. by apply steering_stage; [apply rotate_steers|]. }
  destruct Hsteer as (w4 & -> & Hc4 & Hs4). cbn [and_then].
  exists w4.
  assert (Hfire : InputController.jump (InputController.keys w.1)
                  && InputController.jumpPressed w4.1
                  && negb (isJumping w4.2) = fires w.1 w.2).
  { unfold fires. rewrite Hc4. by destruct Hs4 as (_ & (-> & _) & _). }
  rewrite Hfire. unfold InputController.when at 1.
  destruct (fires w.1 w.2) eqn:Hf.
  - destruct (jump_effect bs w4.2) as (q & Hq & _ & _ & _ & _ & _ & Hcase);
      [apply Hs4|].
    assert (Hground : isJumping w4.2 = false).
    { unfold fires in Hf. destruct Hs4 as (_ & (-> & _) & _).
      apply andb_true_iff in Hf as [_ Hf]. by apply negb_true_iff in Hf. }
    rewrite Hground in Hcase. destruct Hcase as (Hjq & _).
    unfold InputController.on_player at 1. rewrite Hq. cbn [within and_then].
    exists (InputController.set_jumpPressed false w.1, q).
    cbn [fst snd]. unfold InputController.when.
    cbn [fst snd]. rewrite Hjq. cbn [negb].
    eexists. rewrite Hc4. split; [reflexivity|].
    split; [by split|]. split; [by split|]. by split.
  - cbn [and_then]. exists w4.
    unfold InputController.when, InputController.on_player.
    destruct (isJumping w4.2); cbn [negb].
    + exists w4. split; [reflexivity|]. split; [by split|]. by split.
    + destruct (setAnimation_effect bs (asked w.1) w4.2) as (r & Hr & _);
        [apply Hs4|].
      unfold asked in Hr. rewrite Hr. cbn [within].
      exists (w4.1, r). split; [reflexivity|]. split; [by split|]. by split.
Qed.

End Input.

(** X6. [InputController.update] starts a jump exactly when the jump key
    is down, the latch [jumpPressed] is set and the player is on the
    ground, and starting it clears the latch; otherwise the latch and the
    airborne flag stay as they were. The keys are never changed. *)
Theorem jump_fires_on_armed_latch `{host : Host}
    (bs : option BuildingSystem.t)
    (w : InputController.t * PlayerCharacter.t) :
  Invariant.mirrored w.2 →
  ∃ w', InputController.update bs w = Returns w'
    ∧ PlayerCharacter.isJumping w'.2
      = PlayerCharacter.isJumping w.2 || Invariant.fires w.1 w.2
    ∧ InputController.jumpPressed w'.1
      = InputController.jumpPressed w.1 && negb (Invariant.fires w.1 w.2)
    ∧ InputController.keys w'.1 = InputController.keys w.1.
Proof.
  intros Hmir.
  destruct (input_update_effect bs w Hmir)
    as (w4 & w5 & w' & Hret & [Hc4 Hs4] & Hjump & Hc' & Hanim).
  exists w'. split; [done|].
  destruct Hs4 as (Hm4 & (Hj4 & _) & _).
  destruct (Invariant.fires w.1 w.2) eqn:Hf.
  - destruct Hjump as [Hq Hc5].
    destruct (jump_effect bs w4.2 Hm4) as (q & Hq' & _ & _ & _ & _ & _ & Hcase).
    assert (q = w5.2) by congruence. subst q.
    assert (Hground : PlayerCharacter.isJumping w4.2 = false).
    { unfold Invariant.fires in Hf. rewrite Hj4.
      apply andb_true_iff in Hf as [_ Hf]. by apply negb_true_iff in Hf. }
    rewrite Hground in Hcase. destruct Hcase as (Hj5 & _).
    rewrite Hj5 in Hanim. subst w'.
    rewrite Hj5, Hc5, orb_true_r, andb_false_r. by repeat split.
  - subst w5. rewrite orb_false_r, andb_true_r, Hc', Hc4.
    split; [|done].
    destruct (PlayerCharacter.isJumping w4.2) eqn:Hair;
      [subst w'; congruence|].
    destruct (setAnimation_effect bs (Invariant.asked w.1) w4.2 Hm4)
      as (r & Hr & _ & (Hjr & _) & _).
    assert (r = w'.2) by congruence. subst r. congruence.
Qed.

Lemma jump_fires_on_armed_latch_witness :
  let w := (InputController.onKeyDown InputController.Space
              InputController.new, Reference.loaded_player) in
  ∃ w', InputController.update (host := Reference.host)
          (Some BuildingSystem.new) w = Returns w'
    ∧ PlayerCharacter.isJumping w'.2
      = PlayerCharacter.isJumping w.2 || Invariant.fires w.1 w.2
    ∧ InputController.jumpPressed w'.1
      = InputController.jumpPressed w.1 && negb (Invariant.fires w.1 w.2)
    ∧ InputController.keys w'.1 = InputController.keys w.1.
Proof.
  intros w.
  apply (jump_fires_on_armed_latch (host := Reference.host)
           (Some BuildingSystem.new) w).
  reflexivity.
Defined.

(** X7. While the player is in the air, [InputController.update] may move
    and turn it, but leaves the jump as it is: the player stays airborne
    with the same jump velocity, counter and height, the current animation
    is not changed, and the controller, latch included, is untouched. *)
Theorem airborne_input_only_steers `{host : Host}
    (bs : option BuildingSystem.t)
    (w : InputController.t * PlayerCharacter.t) :
  Invariant.mirrored w.2 →
  PlayerCharacter.isJumping w.2 = true →
  ∃ w', InputController.update bs w = Returns w'
    ∧ w'.1 = w.1
    ∧ PlayerCharacter.isJumping w'.2 = true
    ∧ PlayerCharacter.jumpVelocity w'.2 = PlayerCharacter.jumpVelocity w.2
    ∧ PlayerCharacter.jumpDuration w'.2 = PlayerCharacter.jumpDuration w.2
    ∧ vy (PlayerCharacter.position w'.2) = vy (PlayerCharacter.position w.2)
    ∧ PlayerCharacter.currentAction w'.2 = PlayerCharacter.currentAction w.2
    ∧ PlayerCharacter.isMoving w'.2 = PlayerCharacter.isMoving w.2.
Proof.
  intros Hmir Hair.
  destruct (input_update_effect bs w Hmir)
    as (w4 & w5 & w' & Hret & [Hc4 Hs4] & Hjump & Hc' & Hanim).
  assert (Hf : Invariant.fires w.1 w.2 = false).
  { unfold Invariant.fires. rewrite Hair. apply andb_false_r. }
  rewrite Hf in Hjump. subst w5.
  destruct Hs4 as (Hm4 & (Hj4 & Hd4 & Hv4 & Hy4) & Ha4 & Hmov4 & _).
  rewrite Hj4, Hair in Hanim. subst w'.
  exists w4. split; [done|]. split; [done|]. split; [congruence|].
  by repeat split.
Qed.

Lemma airborne_input_only_steers_witness :
  let w := (InputController.onKeyDown InputController.Space
              (InputController.onKeyDown InputController.KeyA
                 Spec.forward_held),
            Reference.descending 3 0.1 20) in
  ∃ w', InputController.update (host := Reference.host)
          (Some BuildingSystem.new) w = Returns w'
    ∧ w'.1 = w.1
    ∧ PlayerCharacter.isJumping w'.2 = true
    ∧ PlayerCharacter.jumpVelocity w'.2 = PlayerCharacter.jumpVelocity w.2
    ∧ PlayerCharacter.jumpDuration w'.2 = PlayerCharacter.jumpDuration w.2
    ∧ vy (PlayerCharacter.position w'.2) = vy (PlayerCharacter.position w.2)
    ∧ PlayerCharacter.currentAction w'.2 = PlayerCharacter.currentAction w.2
    ∧ PlayerCharacter.isMoving w'.2 = PlayerCharacter.isMoving w.2.
Proof.
  intros w.
  apply (airborne_input_only_steers (host := Reference.host)
           (Some BuildingSystem.new) w); reflexivity.
Defined.

(** X8. On the ground, in a frame in which no jump starts, the animation
    after [InputController.update] is the one the held keys ask for, the
    run before the walk before the idle, provided that animation is loaded
    and some animation is current. *)
Theorem grounded_animation_follows_keys `{host : Host}
    (bs : option BuildingSystem.t)
    (w : InputController.t * PlayerCharacter.t) :
  Invariant.mirrored w.2 →
  PlayerCharacter.isJumping w.2 = false →
  Invariant.fires w.1 w.2 = false →
  PlayerCharacter.has (PlayerCharacter.animations w.2) (Invariant.asked w.1)
  = true →
  is_Some (PlayerCharacter.currentAction w.2) →
  ∃ w', InputController.update bs w = Returns w'
    ∧ PlayerCharacter.currentAction w'.2
      = Some (if InputController.forward (InputController.keys w.1)
              then PlayerCharacter.Run
              else if InputController.backward (InputController.keys w.1)
                   then PlayerCharacter.Walk
                   else PlayerCharacter.Idle)
    ∧ PlayerCharacter.isJumping w'.2 = false.
Proof.
  intros Hmir Hground Hf Hhas Hcur.
  destruct (input_update_effect bs w Hmir)
    as (w4 & w5 & w' & Hret & [Hc4 Hs4] & Hjump & Hc' & Hanim).
  rewrite Hf in Hjump. subst w5.
  destruct Hs4 as (Hm4 & (Hj4 & _) & Ha4 & _ & Hn4).
  rewrite Hj4, Hground in Hanim.
  destruct (setAnimation_effect bs (Invariant.asked w.1) w4.2 Hm4)
    as (r & Hr & _ & (Hjr & _) & _ & _ & _ & _ & _ & Hact).
  assert (r = w'.2) by congruence. subst r.
  rewrite Hn4, Ha4, Hhas, (bool_decide_eq_true_2 _ Hcur) in Hact.
  exists w'. split; [done|]. split; [exact Hact|]. congruence.
Qed.

Lemma grounded_animation_follows_keys_witness :
  let w := (InputController.onKeyDown InputController.KeyS
              Spec.forward_held, Reference.loaded_player) in
  ∃ w', InputController.update (host := Reference.host)
          (Some BuildingSystem.new) w = Returns w'
    ∧ PlayerCharacter.currentAction w'.2
      = Some (if InputController.forward (InputController.keys w.1)
              then PlayerCharacter.Run
              else if InputController.backward (InputController.keys w.1)
                   then PlayerCharacter.Walk
                   else PlayerCharacter.Idle)
    ∧ PlayerCharacter.isJumping w'.2 = false.
Proof.
  intros w.
  apply (grounded_animation_follows_keys (host := Reference.host)
           (Some BuildingSystem.new) w); try reflexivity.
  by eexists.
Defined.

(** X9. Key events: a repeated key-down changes nothing more than the
    first; a key-up undoes the key-down of the same key, whatever happened
    in between to the latch; and a key-down of the jump key always sets the
    latch, also when the key is already down. *)
Theorem key_events_compose (code : InputController.KeyCode)
    (c : InputController.t) :
  InputController.onKeyDown code (InputController.onKeyDown code c)
  = InputController.onKeyDown code c
  ∧ InputController.onKeyUp code (InputController.onKeyDown code c)
    = InputController.onKeyUp code c
  ∧ InputController.onKeyUp code (InputController.onKeyUp code c)
    = InputController.onKeyUp code c
  ∧ InputController.jumpPressed
      (InputController.onKeyDown InputController.Space c) = true
  ∧ InputController.jumpPressed
      (InputController.onKeyUp InputController.Space c) = false.
Proof.
  destruct c as [[f b l r j] latch].
  destruct code; simpl; repeat split; try done; by destruct latch.
Qed.

(** ** Grids of cells *)

Section Grids.
Import Streaming.

Lemma window_grid gx gz : window (At gx) (At gz) = grid (gx - 2) (gz - 2) 5.
Proof. reflexivity. Qed.

Lemma elem_of_grid a b n x z :
  (x, z) ∈ grid a b n ↔ (a ≤ x < a + n)%Z ∧ (b ≤ z < b + n)%Z.
Proof.
  unfold grid. rewrite list_elem_of_bind. split.
  - intros (x' & Hin & Hx'). apply list_elem_of_bind in Hin.
    destruct Hin as (z' & Hin & Hz'). apply list_elem_of_singleton in Hin.
    inversion Hin; subst. apply elem_of_seqZ in Hx', Hz'. lia.
  - intros [Hx Hz]. exists x. split; [|apply elem_of_seqZ; lia].
    apply list_elem_of_bind. exists z. split; [|apply elem_of_seqZ; lia].
    by apply list_elem_of_singleton.
Qed.

Lemma NoDup_grid a b n : NoDup (grid a b n).
Proof.
  unfold grid. apply NoDup_bind; [| |apply NoDup_seqZ].
  - intros x1 x2 [x z] _ _ H1 H2.
    apply list_elem_of_bind in H1 as (z1 & H1 & _).
    apply list_elem_of_bind in H2 as (z2 & H2 & _).
    apply list_elem_of_singleton in H1, H2. congruence.
  - intros x _. apply NoDup_bind; [| |apply NoDup_seqZ].
    + intros z1 z2 y _ _ H1 H2.
      apply list_elem_of_singleton in H1, H2. congruence.
    + intros z _. apply NoDup_singleton.
Qed.

Lemma length_bind_const {A B} (f : A → list B) k (l : list A) :
  (∀ x, List.length (f x) = k) → List.length (l ≫= f) = (List.length l * k)%nat.
Proof.
  intros Hf. induction l as [|x l IH]; csimpl; [done|].
  rewrite length_app, Hf, IH. lia.
Qed.

Lemma length_grid a b n :
  List.length (grid a b n) = (Z.to_nat n * Z.to_nat n)%nat.
Proof.
  unfold grid.
  rewrite (length_bind_const _ (Z.to_nat n)), length_seqZ; [done|].
  intros x. rewrite (length_bind_const _ 1%nat), length_seqZ; [lia|done].
Qed.

(** A set of cells within Chebyshev distance 3 of a cell has at most 49
    elements; one that covers the window has at least 25. *)
Lemma size_within3 (X : gset (Z * Z)) gx gz :
  (∀ x z, (x, z) ∈ X → (Z.abs (x - gx) ≤ 3)%Z ∧ (Z.abs (z - gz) ≤ 3)%Z) →
  size X ≤ 49.
Proof.
  intros Hin.
  assert (Hsub : X ⊆ list_to_set (grid (gx - 3) (gz - 3) 7)).
  { intros [x z] Hk. apply elem_of_list_to_set, elem_of_grid.
    destruct (Hin x z Hk). lia. }
  apply subseteq_size in Hsub.
  rewrite size_list_to_set, length_grid in Hsub by apply NoDup_grid.
  exact Hsub.
Qed.

Lemma size_covers_window (X : gset (Z * Z)) gx gz :
  (∀ x z, (Z.abs (x - gx) ≤ 2)%Z → (Z.abs (z - gz) ≤ 2)%Z → (x, z) ∈ X) →
  25 ≤ size X.
Proof.
  intros Hin.
  assert (Hsub : list_to_set (grid (gx - 2) (gz - 2) 5) ⊆ X).
  { intros [x z] Hk. apply elem_of_list_to_set, elem_of_grid in Hk.
    apply Hin; lia. }
  apply subseteq_size in Hsub.
  rewrite size_list_to_set, length_grid in Hsub by apply NoDup_grid.
  exact Hsub.
Qed.

End Grids.

(** ** InfiniteGround: further properties *)

Section GroundMore.
Import InfiniteGround Streaming.

Lemma update_at_made gx gz tiles :
  (∀ k t, tiles !! k = Some t → t = createTile k.1 k.2) →
  ∀ k t, update_at gx gz tiles !! k = Some t → t = createTile k.1 k.2.
Proof.
  intros Hmade k t Ht. apply update_at_lookup in Ht as [_ [Ht|(_ & _ & Ht)]];
    [by apply Hmade|done].
Qed.

Lemma update_at_twice gx gz tiles :
  update_at gx gz (update_at gx gz tiles) = update_at gx gz tiles.
Proof.
  apply map_eq. intros k. apply option_eq. intros t.
  rewrite (update_at_lookup gx gz (update_at gx gz tiles)). split.
  - intros [_ [Ht|(Hnone & Hwin & ->)]]; [done|].
    exfalso. pose proof (window_stays gx gz k Hwin) as Hst.
    destruct (tiles !! k) as [t'|] eqn:Hk.
    + assert (update_at gx gz tiles !! k = Some t') as Hsome
        by (apply update_at_lookup; auto).
      congruence.
    + assert (update_at gx gz tiles !! k = Some (createTile k.1 k.2))
        as Hsome by (apply update_at_lookup; auto).
      congruence.
  - intros Ht. split; [|by left].
    by apply update_at_lookup in Ht as [Hst _].
Qed.

End GroundMore.

(** X10. After [InfiniteGround.update] the number of active tiles is
    between 25 and 49: the window is covered and nothing beyond distance 3
    is kept, however many tiles there were before. *)
Theorem ground_tiles_bounded
    (p : Vector3) (tiles : gmap (Z * Z) InfiniteGround.Tile) (cx cz : Z) :
  axis_index (vx p) InfiniteGround.tileSize = Some (At cx) →
  axis_index (vz p) InfiniteGround.tileSize = Some (At cz) →
  ∃ T, InfiniteGround.update p tiles = Some T ∧ 25 ≤ size T ≤ 49.
Proof.
  intros Hx Hz. exists (InfiniteGround.update_at (At cx) (At cz) tiles).
  split; [unfold InfiniteGround.update; by rewrite Hx, Hz|].
  rewrite <- size_dom. split.
  - apply (size_covers_window _ cx cz). intros x z Hwx Hwz.
    apply elem_of_dom.
    destruct (tiles !! (x, z)) as [t|] eqn:Hold.
    + exists t. apply update_at_lookup. split; [apply stays_spec; lia|by left].
    + exists (InfiniteGround.createTile x z). apply update_at_lookup.
      split; [apply stays_spec; lia|]. right.
      split; [done|]. split; [by apply elem_of_window|done].
  - apply (size_within3 _ cx cz). intros x z [t Ht]%elem_of_dom.
    apply update_at_lookup in Ht as [Hst _]. by apply stays_spec.
Qed.

Lemma ground_tiles_bounded_witness :
  ∃ T, InfiniteGround.update (vec3 (-130) 2 47)
         (InfiniteGround.update_at (At 40) (At 40) ∅) = Some T
    ∧ 25 ≤ size T ≤ 49.
Proof.
  apply (ground_tiles_bounded (vec3 (-130) 2 47)
           (InfiniteGround.update_at (At 40) (At 40) ∅) (-4) 1);
    vm_compute; reflexivity.
Defined.

(** X11. Over any run of [InfiniteGround.update] from the empty map, the
    tile under a key is the one [createTile] makes for that key: a tile
    that was evicted and comes back is the same tile again. *)
Theorem ground_tiles_made_for_key (ps : list Vector3) :
  Forall Streaming.tileable ps →
  ∃ T, Streaming.ground_updates ps ∅ = Some T
    ∧ ∀ x z t, T !! (x, z) = Some t → t = InfiniteGround.createTile x z.
Proof.
  intros Hps.
  assert (Hgen : ∀ tiles : gmap (Z * Z) InfiniteGround.Tile,
    (∀ k t, tiles !! k = Some t → t = InfiniteGround.createTile k.1 k.2) →
    ∃ T, Streaming.ground_updates ps tiles = Some T
      ∧ ∀ k t, T !! k = Some t → t = InfiniteGround.createTile k.1 k.2).
  { induction ps as [|p ps IH]; intros tiles Hmade; [by exists tiles|].
    apply Forall_cons in Hps as [[[gx Hx] [gz Hz]] Hps]. simpl.
    unfold InfiniteGround.update. rewrite Hx, Hz. simpl.
    apply IH; [done|]. by apply update_at_made. }
  destruct (Hgen ∅) as (T & HT & Hmade); [by intros k t; rewrite lookup_empty|].
  exists T. split; [done|]. intros x z t Ht. by apply (Hmade (x, z)).
Qed.

Lemma ground_tiles_made_for_key_witness :
  ∃ T, Streaming.ground_updates [vec3 0 2 0; vec3 500 2 0; vec3 10 2 (-3)] ∅
       = Some T
    ∧ ∀ x z t, T !! (x, z) = Some t → t = InfiniteGround.createTile x z.
Proof.
  apply (ground_tiles_made_for_key [vec3 0 2 0; vec3 500 2 0; vec3 10 2 (-3)]).
  repeat constructor; vm_compute; by eexists.
Defined.

(** X12. Moving to a neighbouring tile cell removes no tile of the window
    the player leaves: after [update] at a cell and then at a cell at most
    one step away, every tile of the first window is still the tile it
    was. *)
Theorem ground_step_keeps_window
    (p p' : Vector3) (tiles : gmap (Z * Z) InfiniteGround.Tile)
    (cx cz cx' cz' : Z) :
  axis_index (vx p) InfiniteGround.tileSize = Some (At cx) →
  axis_index (vz p) InfiniteGround.tileSize = Some (At cz) →
  axis_index (vx p') InfiniteGround.tileSize = Some (At cx') →
  axis_index (vz p') InfiniteGround.tileSize = Some (At cz') →
  (Z.abs (cx' - cx) ≤ 1)%Z → (Z.abs (cz' - cz) ≤ 1)%Z →
  ∃ T1 T2, InfiniteGround.update p tiles = Some T1
    ∧ InfiniteGround.update p' T1 = Some T2
    ∧ ∀ x z, (Z.abs (x - cx) ≤ 2)%Z → (Z.abs (z - cz) ≤ 2)%Z →
        is_Some (T1 !! (x, z)) ∧ T2 !! (x, z) = T1 !! (x, z).
Proof.
  intros Hx Hz Hx' Hz' Hdx Hdz.
  exists (InfiniteGround.update_at (At cx) (At cz) tiles),
         (InfiniteGround.update_at (At cx') (At cz')
            (InfiniteGround.update_at (At cx) (At cz) tiles)).
  split; [unfold InfiniteGround.update; by rewrite Hx, Hz|].
  split; [unfold InfiniteGround.update; by rewrite Hx', Hz'|].
  intros x z Hwx Hwz.
  assert (Hsome : is_Some (InfiniteGround.update_at (At cx) (At cz) tiles
                           !! (x, z))).
  { destruct (tiles !! (x, z)) as [t|] eqn:Hold.
    - exists t. apply update_at_lookup. split; [apply stays_spec; lia|by left].
    - exists (InfiniteGround.createTile x z). apply update_at_lookup.
      split; [apply stays_spec; lia|]. right.
      split; [done|]. split; [by apply elem_of_window|done]. }
  split; [done|]. destruct Hsome as [t Ht]. rewrite Ht.
  apply update_at_lookup. split; [apply stays_spec; lia|by left].
Qed.

Lemma ground_step_keeps_window_witness :
  ∃ T1 T2, InfiniteGround.update (vec3 39 2 0) ∅ = Some T1
    ∧ InfiniteGround.update (vec3 41 2 (-1)) T1 = Some T2
    ∧ ∀ x z, (Z.abs (x - 0) ≤ 2)%Z → (Z.abs (z - 0) ≤ 2)%Z →
        is_Some (T1 !! (x, z)) ∧ T2 !! (x, z) = T1 !! (x, z).
Proof.
  apply (ground_step_keeps_window (vec3 39 2 0) (vec3 41 2 (-1)) ∅ 0 0 1 (-1));
    vm_compute; (reflexivity || by intros).
Defined.

(** X13. A second [InfiniteGround.update] at the same position changes
    nothing. *)
Theorem ground_update_twice_same
    (p : Vector3) (tiles : gmap (Z * Z) InfiniteGround.Tile) (gx gz : axis) :
  axis_index (vx p) InfiniteGround.tileSize = Some gx →
  axis_index (vz p) InfiniteGround.tileSize = Some gz →
  ∃ T, InfiniteGround.update p tiles = Some T
    ∧ InfiniteGround.update p T = Some T.
Proof.
  intros Hx Hz. exists (InfiniteGround.update_at gx gz tiles).
  unfold InfiniteGround.update. rewrite Hx, Hz. simpl.
  split; [done|]. f_equal. apply update_at_twice.
Qed.

Lemma ground_update_twice_same_witness :
  ∃ T, InfiniteGround.update (vec3 85 2 nan)
         (InfiniteGround.update_at (At 0) (At 0) ∅) = Some T
    ∧ InfiniteGround.update (vec3 85 2 nan) T = Some T.
Proof.
  apply (ground_update_twice_same (vec3 85 2 nan)
           (InfiniteGround.update_at (At 0) (At 0) ∅) (At 2) NaN);
    vm_compute; reflexivity.
Defined.

(** ** BuildingSystem.update: further properties *)

Section StreamingMore.
Import BuildingSystem Spec Streaming.
Context `{host : Host}.

Lemma visit_keeps_entries s n key k d :
  buildings s !! k = Some d → buildings (visit (s, n) key).1 !! k = Some d.
Proof.
  intros Hk.
  destruct (visit_cases s n key)
    as [[_ ->]|(_ & Hnone & b & n' & -> & _ & [->|[d' ->]])]; simpl; try done.
  rewrite lookup_insert_ne; [done|]. congruence.
Qed.

Lemma generate_keeps_entries cells : ∀ sn k d,
  buildings sn.1 !! k = Some d →
  buildings (foldl visit sn cells).1 !! k = Some d.
Proof.
  induction cells as [|c cells IH]; intros [s n] k d Hk; cbn [foldl]; [done|].
  apply IH. by apply visit_keeps_entries.
Qed.

Lemma visit_buildingModels s n key :
  buildingModels (visit (s, n) key).1 = buildingModels s.
Proof.
  by destruct (visit_cases s n key)
    as [[_ ->]|(_ & _ & b & n' & -> & _)].
Qed.

Lemma generate_buildingModels cells : ∀ sn,
  buildingModels (foldl visit sn cells).1 = buildingModels sn.1.
Proof.
  induction cells as [|c cells IH]; intros [s n]; cbn [foldl]; [done|].
  rewrite IH. apply visit_buildingModels.
Qed.

Lemma visit_active_processed s n key :
  active_processed s → active_processed (visit (s, n) key).1.
Proof.
  intros Hs.
  destruct (visit_cases s n key)
    as [[_ ->]|(_ & _ & b & n' & -> & _ & Hb)]; [done|].
  intros k Hk. simpl in *.
  destruct Hb as [->|[d ->]]; [apply elem_of_union_r; by apply Hs|].
  destruct (decide (key = k)) as [->|Hne]; [set_solver|].
  rewrite lookup_insert_ne in Hk by done. apply elem_of_union_r. by apply Hs.
Qed.

Lemma generate_active_processed cells : ∀ sn,
  active_processed sn.1 → active_processed (foldl visit sn cells).1.
Proof.
  induction cells as [|c cells IH]; intros [s n] Hs; cbn [foldl]; [done|].
  by apply IH, visit_active_processed.
Qed.

Lemma update_at_active_processed gx gz sn :
  active_processed sn.1 → active_processed (update_at gx gz sn).1.
Proof.
  intros Hs. rewrite update_at_unfold. intros k [d Hk]. simpl in *.
  apply map_lookup_filter_Some in Hk as [Hk _].
  apply (generate_active_processed (window gx gz) sn Hs). by exists d.
Qed.

(** The cell of the origin is at distance 0 from the origin, which is not
    more than 0.3: the loop body never sets a building there. *)
Lemma visit_origin s n key :
  buildings (visit (s, n) key).1 !! (0, 0)%Z = buildings s !! (0, 0)%Z.
Proof.
  destruct (decide (key = (0, 0)%Z)) as [->|Hne].
  - unfold visit. destruct (negb _ && negb _); [|done]. simpl.
    by destruct (Math_random n <? buildingChance).
  - destruct (visit_cases s n key)
      as [[_ ->]|(_ & _ & b & n' & -> & _ & [->|[d ->]])]; simpl; try done.
    by apply lookup_insert_ne.
Qed.

Lemma generate_origin cells : ∀ sn,
  buildings (foldl visit sn cells).1 !! (0, 0)%Z = buildings sn.1 !! (0, 0)%Z.
Proof.
  induction cells as [|c cells IH]; intros [s n]; cbn [foldl]; [done|].
  rewrite IH. apply visit_origin.
Qed.

Lemma update_at_origin gx gz sn :
  buildings sn.1 !! (0, 0)%Z = None →
  buildings (update_at gx gz sn).1 !! (0, 0)%Z = None.
Proof.
  intros Hnone. rewrite update_at_unfold. simpl.
  apply map_lookup_filter_None. left. by rewrite generate_origin.
Qed.

(** Without building models the loop body sets no building. *)
Lemma visit_without_models s n key :
  buildingModels s = 0%nat → buildings (visit (s, n) key).1 = buildings s.
Proof.
  intros Hnone. unfold visit. destruct (negb _ && negb _); [|done]. simpl.
  destruct (Math_random n <? buildingChance); [|done].
  destruct (0.3 <? _); [|done].
  unfold createBuilding. simpl. by rewrite Hnone.
Qed.

Lemma generate_without_models cells : ∀ sn,
  buildingModels sn.1 = 0%nat →
  buildings (foldl visit sn cells).1 = buildings sn.1.
Proof.
  induction cells as [|c cells IH]; intros [s n] Hnone; cbn [foldl]; [done|].
  rewrite IH by (by rewrite visit_buildingModels).
  by apply visit_without_models.
Qed.

(** Every update of a run returns, and the invariant [P] it keeps holds
    at the end. *)
Lemma updates_keep (P : t → Prop) :
  (∀ gx gz sn, P sn.1 → P (update_at gx gz sn).1) →
  ∀ ps s n, Forall streamable ps → P s →
    ∃ s' n', updates ps (s, n) = Some (s', n') ∧ P s'.
Proof.
  intros Hstep ps. induction ps as [|p ps IH]; intros s n Hps Hs.
  - by exists s, n.
  - apply Forall_cons in Hps as [[[gx Hx] [gz Hz]] Hps]. simpl.
    unfold update. rewrite Hx, Hz. simpl.
    destruct (update_at gx gz (s, n)) as [s1 n1] eqn:Hup.
    apply IH; [done|]. specialize (Hstep gx gz (s, n) Hs).
    by rewrite Hup in Hstep.
Qed.

Lemma update_at_buildings_lookup gx gz sn k d :
  buildings (update_at gx gz sn).1 !! k = Some d
  ↔ buildings (foldl visit sn (window gx gz)).1 !! k = Some d
    ∧ stays gx gz k = true.
Proof.
  rewrite update_at_unfold. cbn [fst buildings with_buildings].
  by rewrite map_lookup_filter_Some.
Qed.

Lemma update_at_loadedCells_eq gx gz sn :
  loadedCells (update_at gx gz sn).1
  = loadedCells (foldl visit sn (window gx gz)).1.
Proof. by rewrite update_at_unfold. Qed.

Lemma update_returns p sn gx gz :
  axis_index (vx p) gridSize = Some gx →
  axis_index (vz p) gridSize = Some gz →
  update p sn = Some (update_at gx gz sn).
Proof. intros Hx Hz. unfold update. by rewrite Hx, Hz. Qed.

End StreamingMore.

(** X14. Every active building is in a processed cell: this holds of the
    new building system and after any run of [update]. *)
Theorem active_buildings_are_processed `{host : Host}
    (ps : list Vector3) (models n : nat) :
  Forall Spec.streamable ps →
  ∃ s' n',
    BuildingSystem.updates ps
      ({| BuildingSystem.buildings := ∅;
          BuildingSystem.buildingModels := models;
          BuildingSystem.loadedCells := ∅ |}, n) = Some (s', n')
    ∧ ∀ key, is_Some (BuildingSystem.buildings s' !! key) →
             key ∈ BuildingSystem.loadedCells s'.
Proof.
  intros Hps.
  apply (updates_keep Streaming.active_processed
           update_at_active_processed); [done|].
  intros key [d Hd]. simpl in Hd. by rewrite lookup_empty in Hd.
Qed.

Lemma active_buildings_are_processed_witness :
  ∃ s' n',
    BuildingSystem.updates (host := Reference.host)
      [vec3 0 2 0; vec3 30 2 (-70)]
      ({| BuildingSystem.buildings := ∅;
          BuildingSystem.buildingModels := 2;
          BuildingSystem.loadedCells := ∅ |}, 7%nat) = Some (s', n')
    ∧ ∀ key, is_Some (BuildingSystem.buildings s' !! key) →
             key ∈ BuildingSystem.loadedCells s'.
Proof.
  apply (active_buildings_are_processed (host := Reference.host)
           [vec3 0 2 0; vec3 30 2 (-70)] 2 7).
  repeat constructor; vm_compute; by eexists.
Defined.

(** X15. No building is ever placed in the grid cell of the origin: if the
    cell (0, 0) holds none, it holds none after any run of [update],
    whatever the random draws. *)
Theorem origin_cell_stays_empty `{host : Host}
    (ps : list Vector3) (s : BuildingSystem.t) (n : nat) :
  Forall Spec.streamable ps →
  BuildingSystem.buildings s !! (0, 0)%Z = None →
  ∃ s' n', BuildingSystem.updates ps (s, n) = Some (s', n')
    ∧ BuildingSystem.buildings s' !! (0, 0)%Z = None.
Proof.
  intros Hps Hnone.
  by apply (updates_keep
              (λ s, BuildingSystem.buildings s !! (0, 0)%Z = None)
              update_at_origin).
Qed.

Lemma origin_cell_stays_empty_witness :
  ∃ s' n', BuildingSystem.updates (host := Reference.host)
             [vec3 0 2 0; vec3 3 2 24; vec3 (-1) 2 0]
             (Reference.loaded_buildings, 0%nat) = Some (s', n')
    ∧ BuildingSystem.buildings s' !! (0, 0)%Z = None.
Proof.
  apply (origin_cell_stays_empty (host := Reference.host)
           [vec3 0 2 0; vec3 3 2 24; vec3 (-1) 2 0]
           Reference.loaded_buildings 0).
  - repeat constructor; vm_compute; by eexists.
  - reflexivity.
Defined.

(** X16. Cells that [update] visits while the building models are not yet
    loaded are processed without a building, and stay empty for good: the
    call creates no building, and after the models have arrived no later
    [update] puts a building into such a cell. *)
Theorem cells_seen_before_models_stay_empty `{host : Host}
    (p : Vector3) (ps : list Vector3) (s : BuildingSystem.t) (n : nat)
    (gx gz x z : Z) :
  BuildingSystem.buildingModels s = 0%nat →
  axis_index (vx p) BuildingSystem.gridSize = Some (At gx) →
  axis_index (vz p) BuildingSystem.gridSize = Some (At gz) →
  (Z.abs (x - gx) ≤ 2)%Z → (Z.abs (z - gz) ≤ 2)%Z →
  BuildingSystem.buildings s !! (x, z) = None →
  Forall Spec.streamable ps →
  ∃ s1 n1 s2 n2,
    BuildingSystem.update p (s, n) = Some (s1, n1)
    ∧ (x, z) ∈ BuildingSystem.loadedCells s1
    ∧ (∀ k d, BuildingSystem.buildings s1 !! k = Some d →
              BuildingSystem.buildings s !! k = Some d)
    ∧ BuildingSystem.updates ps (Streaming.loadBuildingModel true s1, n1)
      = Some (s2, n2)
    ∧ BuildingSystem.buildings s2 !! (x, z) = None.
Proof.
  intros Hmodels Hx Hz Hwx Hwz Hnone Hps.
  pose proof (generate_without_models (window (At gx) (At gz)) (s, n) Hmodels)
    as Hsame.
  cbn [fst] in Hsame.
  pose proof (update_returns p (s, n) _ _ Hx Hz) as Hret.
  pose proof (update_at_loadedCells_eq (At gx) (At gz) (s, n)) as Hcells.
  pose proof (update_at_buildings_lookup (At gx) (At gz) (s, n)) as Hlook.
  destruct (BuildingSystem.update_at (At gx) (At gz) (s, n)) as [s1 n1].
  cbn [fst] in Hcells, Hlook.
  assert (Hin : (x, z) ∈ BuildingSystem.loadedCells s1).
  { rewrite Hcells.
    destruct (generate_known (window (At gx) (At gz)) (s, n) (x, z))
      as [Hl|[d Hd]]; [right; by apply elem_of_window|done|].
    rewrite Hsame in Hd. congruence. }
  assert (Hsub : ∀ k d, BuildingSystem.buildings s1 !! k = Some d →
                        BuildingSystem.buildings s !! k = Some d).
  { intros k d Hd. apply Hlook in Hd as [Hd _]. by rewrite Hsame in Hd. }
  destruct (updates_processed ps (Streaming.loadBuildingModel true s1) n1
              (x, z) Hps Hin) as (s2 & n2 & Hrun & _ & Hb).
  exists s1, n1, s2, n2.
  split; [done|]. split; [done|]. split; [done|]. split; [done|].
  assert (Hnone1 : BuildingSystem.buildings s1 !! (x, z) = None).
  { destruct (BuildingSystem.buildings s1 !! (x, z)) as [d|] eqn:Hd; [|done].
    apply Hsub in Hd. congruence. }
  cbn [Streaming.loadBuildingModel BuildingSystem.buildings] in Hb.
  destruct Hb as [Hb|Hb]; congruence.
Qed.

Lemma cells_seen_before_models_stay_empty_witness :
  ∃ s1 n1 s2 n2,
    BuildingSystem.update (host := Reference.host) (vec3 0 2 0)
      (BuildingSystem.new, 0%nat) = Some (s1, n1)
    ∧ (1, 2)%Z ∈ BuildingSystem.loadedCells s1
    ∧ (∀ k d, BuildingSystem.buildings s1 !! k = Some d →
              BuildingSystem.buildings BuildingSystem.new !! k = Some d)
    ∧ BuildingSystem.updates (host := Reference.host)
        [vec3 0 2 0; vec3 30 2 30]
        (Streaming.loadBuildingModel true s1, n1) = Some (s2, n2)
    ∧ BuildingSystem.buildings s2 !! (1, 2)%Z = None.
Proof.
  apply (cells_seen_before_models_stay_empty (host := Reference.host)
           (vec3 0 2 0) [vec3 0 2 0; vec3 30 2 30] BuildingSystem.new 0
           0 0 1 2).
  - reflexivity.
  - vm_compute; reflexivity.
  - vm_compute; reflexivity.
  - lia.
  - lia.
  - reflexivity.
  - repeat constructor; vm_compute; by eexists.
Defined.

(** X17. [BuildingSystem.update] evicts exactly beyond distance 3: after
    it every active building is within Chebyshev distance 3 of the
    player's cell, so there are at most 49; and a building that was active
    within that distance is still there, unchanged. *)
Theorem building_eviction_exact `{host : Host}
    (p : Vector3) (s : BuildingSystem.t) (n : nat) (gx gz : Z) :
  axis_index (vx p) BuildingSystem.gridSize = Some (At gx) →
  axis_index (vz p) BuildingSystem.gridSize = Some (At gz) →
  ∃ s' n', BuildingSystem.update p (s, n) = Some (s', n')
    ∧ (∀ x z, is_Some (BuildingSystem.buildings s' !! (x, z)) →
              (Z.abs (x - gx) ≤ 3)%Z ∧ (Z.abs (z - gz) ≤ 3)%Z)
    ∧ (∀ x z d, (Z.abs (x - gx) ≤ 3)%Z → (Z.abs (z - gz) ≤ 3)%Z →
                BuildingSystem.buildings s !! (x, z) = Some d →
                BuildingSystem.buildings s' !! (x, z) = Some d)
    ∧ size (BuildingSystem.buildings s') ≤ 49.
Proof.
  intros Hx Hz.
  pose proof (update_returns p (s, n) _ _ Hx Hz) as Hret.
  pose proof (update_at_buildings_lookup (At gx) (At gz) (s, n)) as Hlook.
  destruct (BuildingSystem.update_at (At gx) (At gz) (s, n)) as [s1 n1].
  cbn [fst] in Hlook.
  exists s1, n1. split; [done|].
  assert (Hnear : ∀ x z, is_Some (BuildingSystem.buildings s1 !! (x, z)) →
                         (Z.abs (x - gx) ≤ 3)%Z ∧ (Z.abs (z - gz) ≤ 3)%Z).
  { intros x z [d Hd]. apply Hlook in Hd as [_ Hst]. by apply stays_spec. }
  split; [done|]. split.
  - intros x z d Hnx Hnz Hd. apply Hlook. split; [|apply stays_spec; lia].
    by apply (generate_keeps_entries _ (s, n)).
  - rewrite <- size_dom. apply (size_within3 _ gx gz).
    intros x z Hk%elem_of_dom. by apply Hnear.
Qed.

Lemma building_eviction_exact_witness :
  ∃ s' n', BuildingSystem.update (host := Reference.host) (vec3 110 2 (-60))
             (BuildingSystem.with_buildings
                {[(4, 0)%Z := Spec.block (vec3 105 6.47 10) 20 0]}
                Reference.loaded_buildings, 0%nat) = Some (s', n')
    ∧ (∀ x z, is_Some (BuildingSystem.buildings s' !! (x, z)) →
              (Z.abs (x - 4) ≤ 3)%Z ∧ (Z.abs (z - (-3)) ≤ 3)%Z)
    ∧ (∀ x z d, (Z.abs (x - 4) ≤ 3)%Z → (Z.abs (z - (-3)) ≤ 3)%Z →
                BuildingSystem.buildings
                  (BuildingSystem.with_buildings
                     {[(4, 0)%Z := Spec.block (vec3 105 6.47 10) 20 0]}
                     Reference.loaded_buildings) !! (x, z) = Some d →
                BuildingSystem.buildings s' !! (x, z) = Some d)
    ∧ size (BuildingSystem.buildings s') ≤ 49.
Proof.
  apply (building_eviction_exact (host := Reference.host) (vec3 110 2 (-60))
           (BuildingSystem.with_buildings
              {[(4, 0)%Z := Spec.block (vec3 105 6.47 10) 20 0]}
              Reference.loaded_buildings) 0 4 (-3));
    vm_compute; reflexivity.
Defined.

(** ** CameraController: the choice of the offset *)

Section Camera.
Import CameraController.
Context `{host : Host}.

(** [List.find] returns the first element that passes the test. *)
Lemma find_first {A} (f : A → bool) (l : list A) x :
  List.find f l = Some x →
  f x = true
  ∧ ∃ before after, l = before ++ x :: after
      ∧ Forall (λ y, f y = false) before.
Proof.
  induction l as [|a l IH]; [discriminate|]. simpl.
  destruct (f a) eqn:Ha.
  - intros [= ->]. split; [done|]. by exists [], l.
  - intros Hx. destruct (IH Hx) as (Hfx & before & after & -> & Hall).
    split; [done|]. exists (a :: before), after. split; [done|].
    by constructor.
Qed.

Lemma find_nothing {A} (f : A → bool) (l : list A) :
  List.find f l = None → Forall (λ y, f y = false) l.
Proof.
  induction l as [|a l IH]; [by constructor|]. simpl.
  destruct (f a) eqn:Ha; [discriminate|]. intros Hx. constructor; auto.
Qed.

Lemma no_buildings_no_obstruction bs target point :
  bs = None ∨ (∃ s, bs = Some s ∧ BuildingSystem.buildings s = ∅) →
  checkCameraCollision bs target point = false.
Proof.
  intros [->|(s & -> & Hs)]; [done|]. unfold checkCameraCollision.
  by rewrite Hs, map_to_list_empty.
Qed.

End Camera.

(** X18. [findSafeCameraPosition] returns the first of its five offsets
    whose ray test finds no obstruction, every offset before it being
    obstructed; only when all five are obstructed does it return
    [maxOffset]. In both cases the result is one of the five offsets. *)
Theorem camera_offset_first_unobstructed `{host : Host}
    (bs : option BuildingSystem.t) (target : Object3D) :
  let obstructed := λ offset,
    CameraController.checkCameraCollision bs target
      (add (set_y (obj_position target) CameraController.baseHeight) offset) in
  let chosen := CameraController.findSafeCameraPosition bs target in
  chosen ∈ CameraController.positions
  ∧ ((obstructed chosen = false
      ∧ ∃ before after,
          CameraController.positions = before ++ chosen :: after
          ∧ Forall (λ offset, obstructed offset = true) before)
     ∨ (Forall (λ offset, obstructed offset = true)
               CameraController.positions
        ∧ chosen = CameraController.maxOffset)).
Proof.
  intros obstructed chosen. unfold chosen.
  unfold CameraController.findSafeCameraPosition.
  destruct (List.find _ CameraController.positions) as [offset|] eqn:Hfind.
  - apply find_first in Hfind as (Hfree & before & after & Hpos & Hall).
    split.
    + rewrite Hpos. apply elem_of_app. right. by left.
    + left. split; [by apply negb_true_iff in Hfree|].
      exists before, after. split; [done|].
      eapply Forall_impl; [exact Hall|]. intros o Ho. simpl in Ho.
      by apply negb_false_iff in Ho.
  - apply find_nothing in Hfind. split.
    + unfold CameraController.positions, CameraController.maxOffset.
      do 2 right. by left.
    + right. split; [|done].
      eapply Forall_impl; [exact Hfind|]. intros o Ho. simpl in Ho.
      by apply negb_false_iff in Ho.
Qed.

(** X19. Without a building system, or with no active building, the camera
    finds nothing in its way: the offset chosen is the nominal (0, 3, 8),
    and [update] places the camera without regard to the height of the
    target, so a jump does not move it. *)
Theorem camera_unobstructed_without_buildings `{host : Host}
    (bs : option BuildingSystem.t) :
  bs = None ∨ (∃ s, bs = Some s ∧ BuildingSystem.buildings s = ∅) →
  (∀ target, CameraController.findSafeCameraPosition bs target = vec3 0 3 8)
  ∧ (∀ x z y1 y2 yaw c,
       CameraController.update bs
         {| obj_position := vec3 x y1 z; obj_rotation_y := yaw |} c
       = CameraController.update bs
           {| obj_position := vec3 x y2 z; obj_rotation_y := yaw |} c).
Proof.
  intros Hbs.
  assert (Hsafe : ∀ target,
            CameraController.findSafeCameraPosition bs target = vec3 0 3 8).
  { intros target. unfold CameraController.findSafeCameraPosition.
    unfold CameraController.positions. cbn [List.find].
    by rewrite (no_buildings_no_obstruction bs target _ Hbs). }
  split; [done|]. intros x z y1 y2 yaw c.
  unfold CameraController.update. by rewrite !Hsafe.
Qed.

Lemma camera_unobstructed_without_buildings_witness :
  (∀ target,
     CameraController.findSafeCameraPosition (host := Reference.host)
       (Some BuildingSystem.new) target = vec3 0 3 8)
  ∧ (∀ x z y1 y2 yaw c,
       CameraController.update (host := Reference.host)
         (Some BuildingSystem.new)
         {| obj_position := vec3 x y1 z; obj_rotation_y := yaw |} c
       = CameraController.update (host := Reference.host)
           (Some BuildingSystem.new)
           {| obj_position := vec3 x y2 z; obj_rotation_y := yaw |} c).
Proof.
  apply (camera_unobstructed_without_buildings (host := Reference.host)
           (Some BuildingSystem.new)).
  right. by exists BuildingSystem.new.
Defined.

(** ** The player without an idle clip *)

Section Sessions_of.
Import PlayerCharacter.
Context `{host : Host}.
Variable P : t → Prop.
Variable bs : option BuildingSystem.t.
Hypothesis P_loaded : ∀ p, P p → is_Some (model p).
Hypothesis P_move : ∀ d, Spec.keeps P (move bs d).
Hypothesis P_rotate : ∀ d, Spec.keeps P (rotate d).
Hypothesis P_jump : Spec.keeps P (jump bs).
Hypothesis P_setAnimation : ∀ name, Spec.keeps P (setAnimation bs name).

(** What the methods called by the controller keep, its [update]
    keeps. *)
Lemma keeps_input_of :
  Spec.keeps (λ w : InputController.t * t, P w.2)
             (InputController.update bs).
Proof.
  intros w Hw. unfold InputController.update.
  repeat apply and_then_returns.
  - by apply (keeps_when _ _ _ (keeps_on_player _ _ (P_move 1))).
  - apply keeps_when, (keeps_on_player _ _ (P_move (-1))).
  - apply keeps_when, (keeps_on_player _ _ (P_rotate 1)).
  - apply keeps_when, (keeps_on_player _ _ (P_rotate (-1))).
  - intros w' Hw'. apply keeps_when; [|done]. intros w'' Hw''.
    apply and_then_returns; [by apply (keeps_on_player _ _ P_jump)|].
    intros w3 Hw3. eexists. by split.
  - intros w' Hw'. apply keeps_when; [|done].
    apply (keeps_on_player _ _ (P_setAnimation _)).
Qed.

Hypothesis P_update : ∀ deltaTime, Spec.keeps P (update bs deltaTime).

(** What every method of the player keeps, a frame keeps. *)
Lemma keeps_animate_of deltaTime :
  Spec.keeps (λ w : InputController.t * t, P w.2)
             (Scene3D.animate bs deltaTime).
Proof.
  intros w Hw. unfold Scene3D.animate.
  rewrite bool_decide_eq_true_2 by (by apply P_loaded).
  apply and_then_returns;
    [by apply keeps_input_of|apply (keeps_on_player _ _ (P_update _))].
Qed.

End Sessions_of.

Section StandingPlayer.
Import PlayerCharacter Invariant Standing.
Context `{host : Host}.

Lemma setAnimation_none bs name p :
  currentAction p = None → setAnimation bs name p = Returns p.
Proof.
  intros Hnone. unfold setAnimation. rewrite Hnone.
  rewrite (bool_decide_eq_false_2 (is_Some None))
    by (intros [? ?]; discriminate).
  by rewrite orb_true_r.
Qed.

Lemma standing_move bs d : Spec.keeps standing (move bs d).
Proof.
  intros p (Hmir & Hact & Hmov). unfold move.
  rewrite bool_decide_eq_true_2 by (rewrite Hmir; by eexists).
  cbn [negb set_pendingMove isMoving]. rewrite Hmov.
  eexists. split; [reflexivity|]. exact (conj Hmir (conj Hact Hmov)).
Qed.

Lemma standing_rotate d : Spec.keeps standing (rotate d).
Proof.
  intros p (Hmir & Hact & Hmov). unfold rotate. rewrite Hmir.
  eexists. split; [reflexivity|].
  exact (conj eq_refl (conj Hact Hmov)).
Qed.

Lemma standing_setAnimation bs name :
  Spec.keeps standing (setAnimation bs name).
Proof.
  intros p Hp. exists p. split; [|done].
  apply setAnimation_none, Hp.
Qed.

Lemma standing_jump bs : Spec.keeps standing (jump bs).
Proof.
  intros p (Hmir & Hact & Hmov). unfold jump.
  destruct (isJumping p); cbn [negb].
  - eexists. split; [reflexivity|]. exact (conj Hmir (conj Hact Hmov)).
  - rewrite setAnimation_none by exact Hact. cbn [and_then].
    eexists. split; [reflexivity|]. exact (conj Hmir (conj Hact Hmov)).
Qed.

Lemma standing_land bs p :
  standing p → ∃ q, land bs p = Returns q ∧ standing q.
Proof.
  intros (Hmir & Hact & Hmov). unfold land, model_position_set_y.
  cbn [model set_position]. rewrite Hmir. cbn [and_then].
  rewrite setAnimation_none by exact Hact.
  eexists. split; [reflexivity|].
  exact (conj eq_refl (conj Hact Hmov)).
Qed.

Lemma standing_update bs deltaTime :
  Spec.keeps standing (update bs deltaTime).
Proof.
  intros p (Hmir & Hact & Hmov). unfold update.
  assert (Hadv : standing (advance_mixer deltaTime p)).
  { unfold advance_mixer. destruct (mixer p);
      exact (conj Hmir (conj Hact Hmov)). }
  set (p1 := advance_mixer deltaTime p) in *. clearbody p1.
  clear Hmir Hact Hmov p. destruct Hadv as (Hmir & Hact & Hmov).
  destruct (isJumping p1); [|by exists p1].
  assert (Hstep : ∃ q, jump_step bs p1 = Returns q ∧ standing q).
  { unfold jump_step.
    destruct (negb (collides bs (jump_target (jump_advance p1)) radius)).
    - unfold model_position_copy. cbn [model set_position jump_advance
        set_jumpVelocity set_jumpDuration]. rewrite Hmir.
      eexists. split; [reflexivity|].
      exact (conj eq_refl (conj Hact Hmov)).
    - unfold model_position_set_y.
      cbn [model set_position jump_advance set_jumpVelocity
           set_jumpDuration set_isJumping]. rewrite Hmir. cbn [and_then].
      rewrite setAnimation_none by exact Hact.
      eexists. split; [reflexivity|].
      exact (conj eq_refl (conj Hact Hmov)). }
  destruct Hstep as (q & -> & Hq). cbn [and_then].
  destruct (landing_due q); [by apply standing_land|by exists q].
Qed.

Lemma standing_handle e w :
  standing w.2 → standing (Session.handle e w).2.
Proof.
  intros Hw. destruct e as [code|code|bs deltaTime];
    cbn [Session.handle snd]; [done..|].
  destruct (keeps_animate_of standing bs
              (λ p Hp, ltac:(destruct Hp as [Hm _]; rewrite Hm; by eexists))
              (standing_move bs) standing_rotate (standing_jump bs)
              (standing_setAnimation bs) (standing_update bs)
              deltaTime w Hw) as (w' & -> & Hw').
  exact Hw'.
Qed.

End StandingPlayer.

(** X20. A player whose idle file carries no animation clip never gets a
    current action: whatever keys are pressed, over any sequence of key
    events and frames, no animation becomes current and the player is never
    marked as moving, so [move] never displaces it. *)
Theorem player_without_idle_clip_stands `{host : Host}
    (clips : PlayerCharacter.Animations) (events : list Session.Event)
    (c : InputController.t) :
  PlayerCharacter.has_idle clips = false →
  let p := (Session.run events
              (c, PlayerCharacter.load clips PlayerCharacter.new)).2 in
  PlayerCharacter.currentAction p = None
  ∧ PlayerCharacter.isMoving p = false
  ∧ ∀ bs direction,
      PlayerCharacter.move bs direction p
      = Returns (PlayerCharacter.set_pendingMove direction p).
Proof.
  intros Hidle.
  assert (Hrun : ∀ events w, Standing.standing w.2 →
            Standing.standing (Session.run events w).2).
  { unfold Session.run. clear events.
    induction events as [|e events IH]; intros w Hw; cbn [foldl]; [done|].
    by apply IH, standing_handle. }
  intros p.
  assert (Hp : Standing.standing p).
  { apply Hrun. cbn [snd]. unfold PlayerCharacter.load. rewrite Hidle.
    by repeat split. }
  destruct Hp as (Hmir & Hact & Hmov). split; [done|]. split; [done|].
  intros bs direction. unfold PlayerCharacter.move.
  rewrite bool_decide_eq_true_2 by (rewrite Hmir; by eexists).
  cbn [negb PlayerCharacter.set_pendingMove PlayerCharacter.isMoving].
  by rewrite Hmov.
Qed.

Lemma player_without_idle_clip_stands_witness :
  let clips := {| PlayerCharacter.has_idle := false;
                  PlayerCharacter.has_run := true;
                  PlayerCharacter.has_walk := true;
                  PlayerCharacter.has_jump := true |} in
  let p := (Session.run (host := Reference.host)
              [Session.KeyDown InputController.KeyW;
               Session.Frame None 0.016]
              (InputController.new,
               PlayerCharacter.load clips PlayerCharacter.new)).2 in
  PlayerCharacter.currentAction p = None
  ∧ PlayerCharacter.isMoving p = false
  ∧ ∀ bs direction,
      PlayerCharacter.move (host := Reference.host) bs direction p
      = Returns (PlayerCharacter.set_pendingMove direction p).
Proof.
  intros clips.
  exact (player_without_idle_clip_stands (host := Reference.host) clips
           [Session.KeyDown InputController.KeyW; Session.Frame None 0.016]
           InputController.new eq_refl).
Defined.

(** ** SnowSystem *)

Section Snow.
Import SnowSystem.
Context `{host : Host} `{clock : Clock}.

Lemma fall_above playerPosition i q reads :
  (vy (fall playerPosition i q reads).1 <? 0) = false.
Proof.
  unfold fall. destruct reads as [n m].
  destruct (fround (vy q - 0.02) <? 0) eqn:Hy; cbn; [reflexivity|exact Hy].
Qed.

Lemma fall_from_above playerPosition qs : ∀ i reads,
  List.length (fall_from playerPosition i qs reads).1 = List.length qs
  ∧ Forall (λ q, (vy q <? 0) = false)
           (fall_from playerPosition i qs reads).1.
Proof.
  induction qs as [|q qs IH]; intros i reads; cbn [fall_from].
  - split; [done|constructor].
  - pose proof (fall_above playerPosition (Z2float i) q reads) as Hq.
    destruct (fall playerPosition (Z2float i) q reads) as [q' reads'].
    destruct (IH (i + 3)%Z reads') as [Hlen Hall].
    destruct (fall_from playerPosition (i + 3) qs reads') as [qs' reads''].
    cbn [fst List.length] in *. split; [by rewrite Hlen|by constructor].
Qed.

End Snow.

(** X21. [SnowSystem.update] keeps the number of particles, and after it
    no particle is below the ground: the height it stores for a particle
    is never less than 0, whatever the heights were and wherever the
    player is. *)
Theorem snow_never_below_ground `{host : Host} `{clock : Clock}
    (playerPosition : Vector3) (s : SnowSystem.t) (reads : nat * nat)
    (qs : list Vector3) :
  SnowSystem.particles s = Some qs →
  ∃ qs',
    SnowSystem.particles (SnowSystem.update playerPosition s reads).1
    = Some qs'
    ∧ List.length qs' = List.length qs
    ∧ Forall (λ q, (vy q <? 0) = false) qs'.
Proof.
  intros Hqs. unfold SnowSystem.update. rewrite Hqs.
  pose proof (fall_from_above playerPosition qs 0 reads) as Hfall.
  destruct (SnowSystem.fall_from playerPosition 0 qs reads) as [qs' reads'].
  by exists qs'.
Qed.

Lemma snow_never_below_ground_witness :
  let s := {| SnowSystem.particles :=
                Some [vec3 1 0.01 1; vec3 0 30 0; vec3 (-4) (-7) 2] |} in
  ∃ qs',
    SnowSystem.particles
      (SnowSystem.update (host := Reference.host) (clock := Reference2.clock)
         (vec3 10 2 10) s (0%nat, 0%nat)).1
    = Some qs'
    ∧ List.length qs'
      = List.length [vec3 1 0.01 1; vec3 0 30 0; vec3 (-4) (-7) 2]
    ∧ Forall (λ q, (vy q <? 0) = false) qs'.
Proof.
  intros s.
  exact (snow_never_below_ground (host := Reference.host)
           (clock := Reference2.clock) (vec3 10 2 10) s (0%nat, 0%nat)
           [vec3 1 0.01 1; vec3 0 30 0; vec3 (-4) (-7) 2] eq_refl).
Defined.

(** ** EnemySystem *)

Section Enemies.
Import EnemySystem.
Context `{host : Host} `{atan2 : Atan2}.

Lemma with_enemies_same s : with_enemies (enemies s ++ []) s = s.
Proof. destruct s. unfold with_enemies. cbn. by rewrite app_nil_r. Qed.

Lemma maintain_spins s :
  enemyModel s = false → (List.length (enemies s) < maxEnemies)%nat →
  ∀ fuel n, maintain fuel (s, n) = Spinning.
Proof.
  intros Hmodel Hlen. apply Nat.ltb_lt in Hlen.
  induction fuel as [|fuel IH]; intros n; cbn [maintain]; rewrite Hlen;
    [done|].
  unfold findRandomSpawnPosition, createEnemy. rewrite Hmodel.
  cbn [negb]. apply IH.
Qed.

Lemma maintain_fills fuel : ∀ s n,
  enemyModel s = true → walk s = true →
  (maxEnemies - List.length (enemies s) ≤ fuel)%nat →
  ∃ l n',
    maintain fuel (s, n) = Done (with_enemies (enemies s ++ l) s, n')
    ∧ List.length (enemies s ++ l)
      = Nat.max (List.length (enemies s)) maxEnemies
    ∧ Forall fresh l.
Proof.
  induction fuel as [|fuel IH]; intros s n Hmodel Hwalk Hfuel;
    cbn [maintain];
    destruct (List.length (enemies s) <? maxEnemies)%nat eqn:Hlen.
  - apply Nat.ltb_lt in Hlen. unfold maxEnemies in *. lia.
  - apply Nat.ltb_ge in Hlen. exists [], n.
    rewrite with_enemies_same, app_nil_r. split; [done|].
    split; [unfold maxEnemies in *; lia|constructor].
  - apply Nat.ltb_lt in Hlen.
    unfold findRandomSpawnPosition, createEnemy.
    rewrite Hmodel, Hwalk. cbn [negb].
    match goal with
    | |- ∃ l n', maintain _ (with_enemies (_ ++ [?e]) _, ?m) = _ ∧ _ =>
        set (enemy := e);
        destruct (IH (with_enemies (enemies s ++ [enemy]) s) m)
          as (l & n' & Hrun & Hl & Hfresh)
    end; [done|done|
          cbn; rewrite length_app; cbn; unfold maxEnemies in *; lia|].
    exists (enemy :: l), n'. rewrite Hrun. cbn in Hl |- *.
    rewrite <- !app_assoc in *. cbn in Hl |- *. split; [done|].
    split; [rewrite Hl; rewrite !length_app; cbn;
            unfold maxEnemies in *; lia|].
    constructor; [by split|done].
  - apply Nat.ltb_ge in Hlen. exists [], n.
    rewrite with_enemies_same, app_nil_r. split; [done|].
    split; [unfold maxEnemies in *; lia|constructor].
Qed.

Lemma updateEnemyBehavior_spawnPosition deltaTime e n :
  spawnPosition (updateEnemyBehavior deltaTime (e, n)).1 = spawnPosition e.
Proof.
  unfold updateEnemyBehavior.
  destruct ((wanderInterval e <=? wanderTimer e)
            || negb (bool_decide (is_Some (targetPosition e))));
    destruct (targetPosition e) as [target|]; cbn;
    try done;
    match goal with
    | |- context [if ?c then _ else _] => by destruct c
    end.
Qed.

Lemma updateEnemyBehavior_tethered deltaTime e n :
  tethered e → tethered (updateEnemyBehavior deltaTime (e, n)).1.
Proof.
  intros He. unfold updateEnemyBehavior.
  destruct ((wanderInterval e <=? wanderTimer e)
            || negb (bool_decide (is_Some (targetPosition e))));
    destruct (targetPosition e) as [target|]; cbn;
    try exact He;
    match goal with
    | |- context [if ?c then _ else _] =>
        destruct c eqn:Hc; [right; exact Hc|exact He]
    end.
Qed.

Lemma behave_spec deltaTime l : ∀ n,
  map spawnPosition (behave deltaTime l n).1 = map spawnPosition l
  ∧ (Forall tethered l → Forall tethered (behave deltaTime l n).1).
Proof.
  induction l as [|e l IH]; intros n; cbn [behave]; [done|].
  pose proof (updateEnemyBehavior_spawnPosition deltaTime e n) as Hs.
  pose proof (updateEnemyBehavior_tethered deltaTime e n) as Ht.
  destruct (updateEnemyBehavior deltaTime (e, n)) as [e' n1].
  destruct (IH n1) as [Hmap Hall].
  destruct (behave deltaTime l n1) as [l' n2]. cbn [fst map] in *.
  split; [by rewrite Hs, Hmap|].
  intros Hl. apply Forall_cons in Hl as [He Hl].
  constructor; [by apply Ht|by apply Hall].
Qed.

Lemma fresh_tethered e : fresh e → tethered e.
Proof. intros [He _]. by left. Qed.

(** [update] with the model and its clip stored. *)
Lemma update_loaded s fuel deltaTime n :
  enemyModel s = true → walk s = true →
  (maxEnemies - List.length (enemies s) ≤ fuel)%nat →
  ∃ l n',
    update fuel deltaTime (s, n) = Done (with_enemies l s, n')
    ∧ List.length l = Nat.max (List.length (enemies s)) maxEnemies
    ∧ (Forall tethered (enemies s) → Forall tethered l).
Proof.
  intros Hmodel Hwalk Hfuel. unfold update.
  destruct (maintain_fills fuel s n Hmodel Hwalk Hfuel)
    as (l & n1 & -> & Hlen & Hfresh).
  cbn [enemies with_enemies].
  destruct (behave_spec deltaTime (enemies s ++ l) n1) as [Hmap Hall].
  pose proof (f_equal (@List.length _) Hmap) as Hl.
  rewrite !length_map in Hl.
  destruct (behave deltaTime (enemies s ++ l) n1) as [l' n2].
  cbn [fst] in *. exists l', n2. split; [done|].
  split; [by rewrite Hl|].
  intros Hteth. apply Hall, Forall_app. split; [done|].
  eapply Forall_impl; [exact Hfresh|]. intros e. apply fresh_tethered.
Qed.

End Enemies.

(** X22. While no enemy model is stored and there are fewer than five
    enemies, [EnemySystem.update] does not return: [createEnemy] answers
    [null], nothing is added, and the loop that waits for five enemies
    goes on whatever number of iterations it is given. *)
Theorem enemy_update_spins_without_model `{host : Host} `{atan2 : Atan2}
    (s : EnemySystem.t) :
  EnemySystem.enemyModel s = false →
  (List.length (EnemySystem.enemies s) < EnemySystem.maxEnemies)%nat →
  ∀ fuel deltaTime n,
    EnemySystem.update fuel deltaTime (s, n) = EnemySystem.Spinning.
Proof.
  intros Hmodel Hlen fuel deltaTime n. unfold EnemySystem.update.
  by rewrite maintain_spins.
Qed.

Lemma enemy_update_spins_without_model_witness :
  EnemySystem.update (host := Reference.host) (atan2 := Reference2.atan2)
    1000 0.016 (EnemySystem.new, 0%nat)
  = EnemySystem.Spinning.
Proof.
  refine (enemy_update_spins_without_model (host := Reference.host)
            (atan2 := Reference2.atan2) EnemySystem.new _ _ 1000 0.016 0).
  - reflexivity.
  - unfold EnemySystem.maxEnemies. simpl. lia.
Defined.

(** X23. With the model and its walk clip stored, [EnemySystem.update]
    returns once its loop is given as many iterations as enemies are
    missing; afterwards there are five enemies (or as many as before, if
    that was more), and the enemies there were are still there, in their
    order and with their spawn positions. *)
Theorem enemy_update_fills_to_five `{host : Host} `{atan2 : Atan2}
    (s : EnemySystem.t) (fuel : nat) (deltaTime : float) (n : nat) :
  EnemySystem.enemyModel s = true →
  EnemySystem.walk s = true →
  (EnemySystem.maxEnemies - List.length (EnemySystem.enemies s) ≤ fuel)%nat →
  ∃ s' n',
    EnemySystem.update fuel deltaTime (s, n) = EnemySystem.Done (s', n')
    ∧ List.length (EnemySystem.enemies s')
      = Nat.max (List.length (EnemySystem.enemies s)) EnemySystem.maxEnemies
    ∧ map EnemySystem.spawnPosition (EnemySystem.enemies s)
      `prefix_of` map EnemySystem.spawnPosition (EnemySystem.enemies s').
Proof.
  intros Hmodel Hwalk Hfuel. unfold EnemySystem.update.
  destruct (maintain_fills fuel s n Hmodel Hwalk Hfuel)
    as (l & n1 & -> & Hlen & _).
  cbn [EnemySystem.enemies EnemySystem.with_enemies].
  destruct (behave_spec deltaTime (EnemySystem.enemies s ++ l) n1)
    as [Hmap _].
  pose proof (f_equal (@List.length _) Hmap) as Hl.
  rewrite !length_map in Hl.
  destruct (EnemySystem.behave deltaTime (EnemySystem.enemies s ++ l) n1)
    as [l' n2].
  cbn [fst] in *. exists (EnemySystem.with_enemies l' s), n2.
  split; [done|]. cbn [EnemySystem.enemies EnemySystem.with_enemies].
  split; [by rewrite Hl|].
  rewrite Hmap, map_app. by eexists.
Qed.

Lemma enemy_update_fills_to_five_witness :
  let s := EnemySystem.loadEnemyModel (Some true) EnemySystem.new in
  ∃ s' n',
    EnemySystem.update (host := Reference.host) (atan2 := Reference2.atan2)
      5 0.016 (s, 0%nat)
    = EnemySystem.Done (s', n')
    ∧ List.length (EnemySystem.enemies s')
      = Nat.max (List.length (EnemySystem.enemies s)) EnemySystem.maxEnemies
    ∧ map EnemySystem.spawnPosition (EnemySystem.enemies s)
      `prefix_of` map EnemySystem.spawnPosition (EnemySystem.enemies s').
Proof.
  intros s.
  apply (enemy_update_fills_to_five (host := Reference.host)
           (atan2 := Reference2.atan2) s 5 0.016 0).
  - reflexivity.
  - reflexivity.
  - unfold EnemySystem.maxEnemies. simpl. lia.
Defined.

(** X24. Enemies stay tethered: if every enemy is at its spawn position or
    within [wanderRadius] of it, then so is every enemy after [update],
    the ones it has just spawned included. An enemy never steps out of
    the disc around the place it was spawned at. *)
Theorem enemies_stay_within_wander_radius `{host : Host} `{atan2 : Atan2}
    (s : EnemySystem.t) (fuel : nat) (deltaTime : float) (n : nat) :
  EnemySystem.enemyModel s = true →
  EnemySystem.walk s = true →
  (EnemySystem.maxEnemies - List.length (EnemySystem.enemies s) ≤ fuel)%nat →
  Forall EnemySystem.tethered (EnemySystem.enemies s) →
  ∃ s' n',
    EnemySystem.update fuel deltaTime (s, n) = EnemySystem.Done (s', n')
    ∧ Forall EnemySystem.tethered (EnemySystem.enemies s').
Proof.
  intros Hmodel Hwalk Hfuel Hteth. unfold EnemySystem.update.
  destruct (maintain_fills fuel s n Hmodel Hwalk Hfuel)
    as (l & n1 & -> & _ & Hfresh).
  cbn [EnemySystem.enemies EnemySystem.with_enemies].
  destruct (behave_spec deltaTime (EnemySystem.enemies s ++ l) n1)
    as [_ Hall].
  destruct (EnemySystem.behave deltaTime (EnemySystem.enemies s ++ l) n1)
    as [l' n2].
  cbn [fst] in *. exists (EnemySystem.with_enemies l' s), n2.
  split; [done|]. cbn [EnemySystem.enemies EnemySystem.with_enemies].
  apply Hall, Forall_app. split; [done|].
  eapply Forall_impl; [exact Hfresh|]. intros e. apply fresh_tethered.
Qed.

Lemma enemies_stay_within_wander_radius_witness :
  let s := EnemySystem.loadEnemyModel (Some true) EnemySystem.new in
  ∃ s' n',
    EnemySystem.update (host := Reference.host) (atan2 := Reference2.atan2)
      5 0.016 (s, 0%nat)
    = EnemySystem.Done (s', n')
    ∧ Forall EnemySystem.tethered (EnemySystem.enemies s').
Proof.
  intros s.
  apply (enemies_stay_within_wander_radius (host := Reference.host)
           (atan2 := Reference2.atan2) s 5 0.016 0).
  - reflexivity.
  - reflexivity.
  - unfold EnemySystem.maxEnemies. simpl. lia.
  - constructor.
Defined.



(** ** The animation loop *)

Section Frames.
Context `{host : Host} `{clock : Clock} `{atan2 : Atan2}.

Lemma update_camera_fields w :
  World.player (World.update_camera w) = World.player w
  ∧ World.groundSystem (World.update_camera w) = World.groundSystem w
  ∧ World.buildingSystem (World.update_camera w) = World.buildingSystem w
  ∧ World.enemySystem (World.update_camera w) = World.enemySystem w.
Proof.
  unfold World.update_camera.
  destruct (World.cameraController w);
    [destruct (PlayerCharacter.model (World.player w))|]; done.
Qed.

Lemma update_at_covers gx gz tiles x z :
  (Z.abs (x - gx) ≤ 2)%Z → (Z.abs (z - gz) ≤ 2)%Z →
  is_Some (InfiniteGround.update_at (At gx) (At gz) tiles !! (x, z)).
Proof.
  intros Hx Hz. destruct (tiles !! (x, z)) as [t|] eqn:Hold.
  - exists t. apply update_at_lookup. split; [apply stays_spec; lia|by left].
  - exists (InfiniteGround.createTile x z). apply update_at_lookup.
    split; [apply stays_spec; lia|]. right.
    split; [done|]. split; [by apply elem_of_window|done].
Qed.

End Frames.

(** X26. From the moment the player has its model while the enemy model is
    not stored and fewer than five enemies exist, no call of [animate]
    runs to its end, whatever number of iterations is granted: the frame
    does not get past [EnemySystem.update], whose loop does not end, so
    the camera update after it is not reached. *)
Theorem frame_never_completes_without_enemy_model
    `{host : Host} `{clock : Clock} `{atan2 : Atan2}
    (w : World.t) :
  is_Some (PlayerCharacter.model (World.player w)) →
  EnemySystem.enemyModel (World.enemySystem w) = false →
  (List.length (EnemySystem.enemies (World.enemySystem w))
   < EnemySystem.maxEnemies)%nat →
  ∀ fuel deltaTime w',
    World.animate fuel deltaTime w ≠ Some (EnemySystem.Done w').
Proof.
  intros Hloaded Hmodel Hlen fuel deltaTime w'. unfold World.animate.
  rewrite (bool_decide_eq_true_2 _ Hloaded).
  destruct (Scene3D.animate _ deltaTime _) as [cp|cp]; [|discriminate].
  cbn [World.player World.with_player].
  destruct (PlayerCharacter.model cp.2) as [m|]; [|discriminate].
  unfold World.systems.
  cbn [World.groundSystem World.snowSystem World.buildingSystem
       World.enemySystem World.random_calls World.clock_calls
       World.with_player].
  destruct (InfiniteGround.update _ _) as [tiles|]; [|discriminate].
  cbn [mbind option_bind].
  destruct (SnowSystem.update _ _ _) as [snow reads].
  destruct (BuildingSystem.update _ _) as [bn|]; [|discriminate].
  cbn [mbind option_bind World.enemySystem World.random_calls].
  unfold EnemySystem.update. rewrite maintain_spins by done. discriminate.
Qed.

Lemma frame_never_completes_without_enemy_model_witness :
  let w := World.player_loaded
             {| PlayerCharacter.has_idle := true;
                PlayerCharacter.has_run := true;
                PlayerCharacter.has_walk := true;
                PlayerCharacter.has_jump := true |}
             (World.new (host := Reference.host)) in
  World.animate (host := Reference.host) (clock := Reference2.clock)
    (atan2 := Reference2.atan2) 1000 0.016 w
  ≠ Some (EnemySystem.Done w).
Proof.
  intros w.
  refine (frame_never_completes_without_enemy_model
            (host := Reference.host) (clock := Reference2.clock)
            (atan2 := Reference2.atan2) w _ _ _ 1000 0.016 w).
  - by eexists.
  - reflexivity.
  - unfold EnemySystem.maxEnemies. simpl. lia.
Defined.

(** X27. With the player in a steady state, the enemy model and its clip
    stored, and the player's new position within the safe indices, a call
    of [animate] runs to its end. Afterwards the model still stands at the
    player's position, the ground has a tile for every cell of the 5x5
    window around the player, and there are five enemies (or as many as
    before, if that was more). *)
Theorem frame_completes_when_loaded
    `{host : Host} `{clock : Clock} `{atan2 : Atan2}
    (w : World.t) (fuel : nat) (deltaTime : float) :
  Invariant.steady false (Some (World.buildingSystem w)) (World.player w) →
  EnemySystem.enemyModel (World.enemySystem w) = true →
  EnemySystem.walk (World.enemySystem w) = true →
  (EnemySystem.maxEnemies
   - List.length (EnemySystem.enemies (World.enemySystem w)) ≤ fuel)%nat →
  (let moved :=
     PlayerCharacter.position
       (state_of (Scene3D.animate (Some (World.buildingSystem w)) deltaTime
                    (World.inputController w, World.player w))).2 in
   Streaming.tileable moved ∧ Spec.streamable moved) →
  ∃ w',
    World.animate fuel deltaTime w = Some (EnemySystem.Done w')
    ∧ Invariant.mirrored (World.player w')
    ∧ (∀ cx cz x z,
         axis_index (vx (PlayerCharacter.position (World.player w')))
           InfiniteGround.tileSize = Some (At cx) →
         axis_index (vz (PlayerCharacter.position (World.player w')))
           InfiniteGround.tileSize = Some (At cz) →
         (Z.abs (x - cx) ≤ 2)%Z → (Z.abs (z - cz) ≤ 2)%Z →
         is_Some (World.groundSystem w' !! (x, z)))
    ∧ List.length (EnemySystem.enemies (World.enemySystem w'))
      = Nat.max (List.length (EnemySystem.enemies (World.enemySystem w)))
                EnemySystem.maxEnemies.
Proof.
  intros Hsteady Hmodel Hwalk Hfuel Hsafe. unfold World.animate.
  destruct (keeps_steady_animate (Some (World.buildingSystem w)) false
              deltaTime (World.inputController w, World.player w) Hsteady)
    as (cp & Hret & Hcp).
  pose proof Hsteady as (Hmir0 & _).
  rewrite bool_decide_eq_true_2 by (rewrite Hmir0; by eexists).
  rewrite Hret in Hsafe |- *. cbn [state_of] in Hsafe.
  destruct Hcp as (Hmir & _). cbn [World.player World.with_player].
  rewrite Hmir. cbn [obj_position].
  destruct Hsafe as [[[gx Hgx] [gz Hgz]] [[bx Hbx] [bz Hbz]]].
  unfold World.systems.
  cbn [World.groundSystem World.snowSystem World.buildingSystem
       World.enemySystem World.random_calls World.clock_calls
       World.with_player World.inputController World.player
       World.cameraController].
  unfold InfiniteGround.update. rewrite Hgx, Hgz. cbn [mbind option_bind].
  destruct (SnowSystem.update _ _ _) as [snow reads].
  rewrite (update_returns _ _ bx bz Hbx Hbz). cbn [mbind option_bind].
  cbn [World.enemySystem World.random_calls].
  destruct (update_loaded (World.enemySystem w) fuel deltaTime
              (BuildingSystem.update_at bx bz
                 (World.buildingSystem w, reads.1)).2 Hmodel Hwalk Hfuel)
    as (l & n' & -> & Hlen & _).
  eexists. split; [reflexivity|].
  destruct (update_camera_fields
              (World.with_enemySystem
                 (EnemySystem.with_enemies l (World.enemySystem w), n')
                 (World.mk cp.1 cp.2
                    (InfiniteGround.update_at gx gz (World.groundSystem w))
                    snow
                    (BuildingSystem.update_at bx bz
                       (World.buildingSystem w, reads.1)).1
                    (World.enemySystem w) (World.cameraController w)
                    (BuildingSystem.update_at bx bz
                       (World.buildingSystem w, reads.1)).2
                    reads.2)))
    as (-> & -> & _ & ->).
  cbn [World.player World.groundSystem World.enemySystem
       World.with_enemySystem fst snd EnemySystem.enemies
       EnemySystem.with_enemies].
  split; [exact Hmir|]. split; [|exact Hlen].
  intros cx cz x z Hcx Hcz Hx Hz.
  rewrite Hcx in Hgx. rewrite Hcz in Hgz.
  injection Hgx as <-. injection Hgz as <-.
  by apply update_at_covers.
Qed.

Lemma frame_completes_when_loaded_witness :
  let clips := {| PlayerCharacter.has_idle := true;
                  PlayerCharacter.has_run := true;
                  PlayerCharacter.has_walk := true;
                  PlayerCharacter.has_jump := true |} in
  let w := World.enemy_loaded (Some true)
             (World.player_loaded clips
                {| World.inputController := InputController.new;
                   World.player := PlayerCharacter.new;
                   World.groundSystem := ∅;
                   World.snowSystem :=
                     {| SnowSystem.particles := Some [vec3 1 0.01 1] |};
                   World.buildingSystem := BuildingSystem.new;
                   World.enemySystem := EnemySystem.new;
                   World.cameraController := None;
                   World.random_calls := 3;
                   World.clock_calls := 0 |}) in
  ∃ w',
    World.animate (host := Reference.host) (clock := Reference2.clock)
      (atan2 := Reference2.atan2) 5 0.016 w
    = Some (EnemySystem.Done w')
    ∧ Invariant.mirrored (World.player w')
    ∧ (∀ cx cz x z,
         axis_index (vx (PlayerCharacter.position (World.player w')))
           InfiniteGround.tileSize = Some (At cx) →
         axis_index (vz (PlayerCharacter.position (World.player w')))
           InfiniteGround.tileSize = Some (At cz) →
         (Z.abs (x - cx) ≤ 2)%Z → (Z.abs (z - cz) ≤ 2)%Z →
         is_Some (World.groundSystem w' !! (x, z)))
    ∧ List.length (EnemySystem.enemies (World.enemySystem w'))
      = Nat.max (List.length (EnemySystem.enemies (World.enemySystem w)))
                EnemySystem.maxEnemies.
Proof.
  intros clips w.
  apply (frame_completes_when_loaded (host := Reference.host)
           (clock := Reference2.clock) (atan2 := Reference2.atan2)
           w 5 0.016).
  - refine (conj eq_refl (conj (λ _, conj eq_refl eq_refl)
             (conj eq_refl (conj _
                (λ H, False_ind _ (Bool.diff_false_true H)))))).
    change (0 < 90)%nat. lia.
  - reflexivity.
  - reflexivity.
  - unfold EnemySystem.maxEnemies. simpl. lia.
  - split; split; vm_compute; by eexists.
Defined.

(** ** Every jump ends *)

Section Landing.
Import PlayerCharacter Invariant Flight.
Context `{host : Host}.
Variable bs : option BuildingSystem.t.

Lemma aloft_move d direction : Spec.keeps (aloft bs d) (move bs direction).
Proof.
  intros p (Hst & Hj & Hd).
  destruct (keeps_steady_move bs false direction p Hst) as (q & Hq & Hsq).
  destruct (move_effect bs direction p (proj1 Hst))
    as (q' & Hq' & _ & (Hjq & Hdq & _) & _).
  rewrite Hq in Hq'. injection Hq' as <-. exists q. split; [done|].
  exact (conj Hsq (conj (eq_trans Hjq Hj) (eq_trans Hdq Hd))).
Qed.

Lemma aloft_rotate d direction : Spec.keeps (aloft bs d) (rotate direction).
Proof.
  intros p (Hst & Hj & Hd).
  destruct (keeps_steady_rotate bs false direction p Hst) as (q & Hq & Hsq).
  destruct (rotate_effect direction p (proj1 Hst))
    as (q' & Hq' & _ & (Hjq & Hdq & _) & _).
  rewrite Hq in Hq'. injection Hq' as <-. exists q. split; [done|].
  exact (conj Hsq (conj (eq_trans Hjq Hj) (eq_trans Hdq Hd))).
Qed.

Lemma aloft_setAnimation d name :
  Spec.keeps (aloft bs d) (setAnimation bs name).
Proof.
  intros p (Hst & Hj & Hd).
  destruct (keeps_steady_setAnimation bs false name p Hst)
    as (q & Hq & Hsq).
  destruct (setAnimation_effect bs name p (proj1 Hst))
    as (q' & Hq' & _ & (Hjq & Hdq & _) & _).
  rewrite Hq in Hq'. injection Hq' as <-. exists q. split; [done|].
  exact (conj Hsq (conj (eq_trans Hjq Hj) (eq_trans Hdq Hd))).
Qed.

Lemma aloft_jump d : Spec.keeps (aloft bs d) (jump bs).
Proof.
  intros p (Hst & Hj & Hd). exists p. split; [|exact (conj Hst (conj Hj Hd))].
  unfold jump. by rewrite Hj.
Qed.

(** [update] on a player in the air: it lands, or it is one tick further
    into its jump. *)
Lemma update_aloft deltaTime p q :
  mirrored p → isJumping p = true →
  update bs deltaTime p = Returns q →
  isJumping q = false
  ∨ (isJumping q = true ∧ jumpDuration q = S (jumpDuration p)).
Proof.
  intros Hmir Hj. unfold update.
  assert (Hadv : mirrored (advance_mixer deltaTime p)
                 ∧ isJumping (advance_mixer deltaTime p) = true
                 ∧ jumpDuration (advance_mixer deltaTime p)
                   = jumpDuration p).
  { unfold advance_mixer. destruct (mixer p);
      exact (conj Hmir (conj Hj eq_refl)). }
  set (p1 := advance_mixer deltaTime p) in *. clearbody p1.
  destruct Hadv as (Hm1 & Hj1 & Hd1). rewrite Hj1.
  destruct (jump_step_effect bs p1 Hm1) as (p2 & -> & Hm2 & _ & _ & Hcase).
  cbn [and_then]. destruct (landing_due p2).
  - destruct (land_effect bs p2 Hm2) as (q' & -> & _ & Hjq & _).
    intros [= <-]. by left.
  - intros [= <-]. destruct (collides _ _ _).
    + left. apply Hcase.
    + right. destruct Hcase as (Hjq & Hdq & _).
      split; [by rewrite Hjq|by rewrite Hdq, Hd1].
Qed.

Lemma frame_aloft deltaTime w :
  steady false bs w.2 → isJumping w.2 = true →
  ∃ w', Scene3D.animate bs deltaTime w = Returns w'
    ∧ steady false bs w'.2
    ∧ (isJumping w'.2 = false
       ∨ (isJumping w'.2 = true
          ∧ jumpDuration w'.2 = S (jumpDuration w.2))).
Proof.
  intros Hst Hj. unfold Scene3D.animate.
  pose proof Hst as (Hmir & _).
  rewrite bool_decide_eq_true_2 by (rewrite Hmir; by eexists).
  destruct (keeps_input_of (aloft bs (jumpDuration w.2)) bs
              (aloft_move _) (aloft_rotate _) (aloft_jump _)
              (aloft_setAnimation _) w (conj Hst (conj Hj eq_refl)))
    as (w1 & -> & Hst1 & Hj1 & Hd1).
  cbn [and_then]. unfold InputController.on_player.
  destruct (keeps_steady_update bs false deltaTime w1.2 Hst1)
    as (q & Hq & Hsq).
  rewrite Hq. cbn [within]. exists (w1.1, q). split; [done|].
  split; [done|]. cbn [snd]. rewrite <- Hd1.
  by apply (update_aloft deltaTime w1.2 q (proj1 Hst1)).
Qed.

End Landing.

(** X28. Every jump ends: a steady player in the air, [d] ticks into its
    jump, is on the ground again after at most [maxJumpDuration - d]
    frames, whatever keys are held, whatever the time steps and whatever
    buildings are around. *)
Theorem jump_lands_within_90_frames `{host : Host}
    (bs : option BuildingSystem.t) (deltaTimes : list float)
    (c : InputController.t) (p : PlayerCharacter.t) :
  Invariant.steady false bs p →
  PlayerCharacter.isJumping p = true →
  List.length deltaTimes
  = (PlayerCharacter.maxJumpDuration - PlayerCharacter.jumpDuration p)%nat →
  ∃ k, (k ≤ List.length deltaTimes)%nat
    ∧ PlayerCharacter.isJumping
        (Scene3D.frames bs (take k deltaTimes) (c, p)).2 = false.
Proof.
  revert c p.
  induction deltaTimes as [|deltaTime deltaTimes IH];
    intros c p Hst Hj Hlen.
  - destruct Hst as (_ & _ & _ & Hlt & _).
    unfold PlayerCharacter.maxJumpDuration in *. cbn in Hlen. lia.
  - destruct (frame_aloft bs deltaTime (c, p) Hst Hj)
      as (w' & Hw' & Hst' & [Hland|[Hj' Hd']]).
    + exists 1%nat. split; [cbn; lia|].
      unfold Scene3D.frames. cbn [take foldl]. by rewrite Hw'.
    + destruct w' as [c' p']. cbn [snd] in *.
      destruct (IH c' p' Hst' Hj') as (k & Hk & Hground).
      { rewrite Hd'. cbn [List.length] in Hlen.
        unfold PlayerCharacter.maxJumpDuration in *. lia. }
      exists (S k). split; [cbn; lia|].
      unfold Scene3D.frames in *. cbn [take foldl]. by rewrite Hw'.
Qed.

Lemma jump_lands_within_90_frames_witness :
  let p := state_of (PlayerCharacter.jump (host := Reference.host) None
                       Reference.loaded_player) in
  let deltaTimes := replicate 90 0.016 in
  ∃ k, (k ≤ List.length deltaTimes)%nat
    ∧ PlayerCharacter.isJumping
        (Scene3D.frames (host := Reference.host) None
           (take k deltaTimes) (InputController.new, p)).2
      = false.
Proof.
  intros p deltaTimes.
  apply (jump_lands_within_90_frames (host := Reference.host) None
           deltaTimes InputController.new p).
  - refine (conj eq_refl (conj (λ H, _) (conj eq_refl (conj _
              (λ H, False_ind _ (Bool.diff_false_true H)))))).
    + discriminate H.
    + change (0 < 90)%nat. lia.
  - reflexivity.
  - reflexivity.
Defined.
